(** * spark-agent: task lifecycle, capability registry and plan orchestration

    A shallow embedding of the TypeScript sources
      - [src/lib/tasks/lifecycle.ts]       (class [TaskManager])
      - [src/lib/subagents/registry.ts]    (class [SubagentRegistry])
      - [src/lib/subagents/spark-agent.ts] (class [SparkAgentClient])
      - [src/lib/subagents/orchestrator.ts](class [SubagentOrchestrator])
      - [src/lib/planner/adapter.ts]       (class [PlannerAdapter])
    together with the properties that the design document states about them.

    Modelling conventions.
    - A JavaScript [Map] is an insertion-ordered association list with unique
      keys ([JsMap]): [set] on a present key replaces the value in place, on an
      absent key appends.
    - Values of type [unknown] are [JsValue]s; numbers are integers.
    - Code that may throw lives in the monad [M]: a computation takes the
      process state [Sys] and either returns a value or throws a JavaScript
      value, in both cases with the state reached so far (mutations made
      before a throw persist, as in JavaScript).
    - [crypto.randomUUID()], [new Date()], [fetch] and the MCP client are the
      environment: the n-th call of each reads the n-th answer of an oracle
      carried by the state.
    - Event handlers are observers with a private world [W]: a handler may
      throw, but it does not call back into the task manager and does not
      change the task object it is given.
    - Texts that are lower-cased are ASCII: [toLowerCase] folds the letters
      [A]..[Z] and the properties that use it assume [asciiOnly].
    - [trace] is ghost state: it records which handler was invoked with which
      event, which work item [delegate] was invoked with, and which requests
      left the process. *)

From Stdlib Require Import List String Ascii Bool Arith ZArith Lia.
From Stdlib Require Import Permutation Sorted DecimalString.
From Stdlib Require DecimalNat DecimalFacts.
Import ListNotations.
Local Open Scope string_scope.
Local Open Scope list_scope.

Set Implicit Arguments.
Unset Strict Implicit.

(** ** JavaScript values *)

#[warnings="-register-all"] Inductive JsValue : Type :=
| JUndefined
| JNull
| JBool (b : bool)
| JNumber (n : Z)
| JString (s : string)
| JArray (items : list JsValue)
| JObject (fields : list (string * JsValue)).

(** ToBoolean: [undefined], [null], [false], [0] and [''] are falsy. *)
Definition truthy (v : JsValue) : bool :=
  match v with
  | JUndefined | JNull => false
  | JBool b => b
  | JNumber n => negb (Z.eqb n 0)
  | JString s => negb (String.eqb s "")
  | JArray _ | JObject _ => true
  end.

(** A thrown value: an [Error] instance with its message, or anything else. *)
Inductive Thrown : Type :=
| ErrorObj (message : string)
| NonError (v : JsValue).

(** [e instanceof Error ? e.message : fallback] *)
Definition messageOr (fallback : string) (e : Thrown) : string :=
  match e with
  | ErrorObj m => m
  | NonError _ => fallback
  end.

(** ** Insertion-ordered maps ([Map<K, V>]) *)

Class KeyEq (K : Type) := {
  keqb : K -> K -> bool;
  keqb_spec : forall a b, reflect (a = b) (keqb a b)
}.

#[export] Instance KeyEq_string : KeyEq string :=
  {| keqb := String.eqb; keqb_spec := String.eqb_spec |}.

#[export] Instance KeyEq_Z : KeyEq Z :=
  {| keqb := Z.eqb; keqb_spec := Z.eqb_spec |}.

Module JsMap.
Section Defs.
Context {K V : Type} `{KeyEq K}.

Definition t := list (K * V).

Definition empty : t := [].

Fixpoint get (k : K) (m : t) : option V :=
  match m with
  | [] => None
  | (k', v) :: m' => if keqb k k' then Some v else get k m'
  end.

Fixpoint set (k : K) (v : V) (m : t) : t :=
  match m with
  | [] => [(k, v)]
  | (k', v') :: m' =>
      if keqb k k' then (k, v) :: m' else (k', v') :: set k v m'
  end.

Definition has (k : K) (m : t) : bool :=
  match get k m with Some _ => true | None => false end.

Fixpoint delete (k : K) (m : t) : t :=
  match m with
  | [] => []
  | (k', v') :: m' => if keqb k k' then m' else (k', v') :: delete k m'
  end.

Definition keys (m : t) : list K := map fst m.
Definition values (m : t) : list V := map snd m.
Definition entries (m : t) : list (K * V) := m.

End Defs.
Arguments t : clear implicits.
End JsMap.

(** ** Tasks ([src/types/task.ts]) *)

Inductive TaskStatus : Type := pending | running | completed | failed.

Inductive TaskType : Type := plan | mcp | subagent.

Definition Date := nat.

Module Task.
Record t : Type := mk {
  id : string;
  name : string;
  description : option string;
  type : TaskType;
  status : TaskStatus;
  parentId : option string;
  metadata : JsValue;
  result : JsValue;
  error : option string;
  createdAt : Date;
  startedAt : option Date;
  completedAt : option Date
}.
End Task.

(** [Omit<Task, 'id' | 'status' | 'createdAt'>], the argument of [create]. *)
Module TaskInit.
Record t : Type := mk {
  name : string;
  description : option string;
  type : TaskType;
  parentId : option string;
  metadata : JsValue;
  result : JsValue;
  error : option string;
  startedAt : option Date;
  completedAt : option Date
}.
End TaskInit.

(** [Partial<Task>], the argument of [update]: [None] is an absent property. *)
Module PartialTask.
Record t : Type := mk {
  id : option string;
  name : option string;
  description : option (option string);
  type : option TaskType;
  status : option TaskStatus;
  parentId : option (option string);
  metadata : option JsValue;
  result : option JsValue;
  error : option (option string);
  createdAt : option Date;
  startedAt : option (option Date);
  completedAt : option (option Date)
}.

Definition none : t := mk None None None None None None None None None None None None.
End PartialTask.

Inductive TaskEventType : Type :=
| created | started | updated | finished | errored.

Module TaskEvent.
Record t : Type := mk {
  type : TaskEventType;
  task : Task.t;
  error : option string
}.
End TaskEvent.


(** ** Subagents, work items and results ([src/types/subagent.ts]) *)

Definition SubagentCapability := string.

Inductive SubagentStatus : Type := available | busy | offline.

Module Subagent.
Record t : Type := mk {
  id : string;
  name : string;
  description : string;
  capabilities : list SubagentCapability;
  status : SubagentStatus;
  metadata : JsValue
}.
End Subagent.

Module Constraints.
Record t : Type := mk {
  maxDuration : JsValue;
  maxTokens : JsValue;
  outputFormat : JsValue
}.
End Constraints.

Module SubagentTask.
Record t : Type := mk {
  id : option string;
  name : string;
  prompt : string;
  capabilities : list SubagentCapability;
  context : option (list (string * JsValue));
  constraints : option Constraints.t
}.
End SubagentTask.

Module SubagentResult.
Record t : Type := mk {
  success : bool;
  taskId : string;
  output : JsValue;
  artifacts : JsValue;
  error : option string;
  metadata : JsValue
}.
End SubagentResult.

(** ** MCP messages ([src/types/mcp.ts]) *)

Module MCPAction.
Record t : Type := mk {
  serverId : option string;
  name : string;
  parameters : list (string * JsValue)
}.
End MCPAction.

Module MCPResponse.
Record t : Type := mk {
  success : bool;
  data : JsValue;
  error : option string
}.
End MCPResponse.

(** ** Plans ([src/types/plan.ts]) *)

Inductive TargetType : Type := target_mcp | target_subagent.

Definition taskTypeOf (k : TargetType) : TaskType :=
  match k with
  | target_mcp => mcp
  | target_subagent => subagent
  end.

Module ActionTarget.
Record t : Type := mk {
  type : TargetType;
  serverId : option string;
  agentId : option string
}.
End ActionTarget.

Module PlanAction.
Record t : Type := mk {
  id : string;
  name : string;
  description : string;
  target : ActionTarget.t;
  parameters : list (string * JsValue);
  order : option Z;
  dependsOn : option (list string)
}.
End PlanAction.

Module MultiActionPlan.
Record t : Type := mk {
  id : string;
  name : string;
  description : string;
  actions : list PlanAction.t;
  metadata : JsValue
}.
End MultiActionPlan.

(** ** The environment *)

(** What [await fetch(...)] and the body readers of the response give. *)
Module Response.
Record t : Type := mk {
  ok : bool;
  text : Thrown + string;       (* [await response.text()] *)
  json : Thrown + JsValue       (* [await response.json()] *)
}.
End Response.

Definition FetchOutcome : Type := (Thrown + Response.t)%type.

(** The request body that [SparkAgentClient.execute] serialises. *)
Module ExecuteRequest.
Record t : Type := mk {
  prompt : string;
  capabilities : list SubagentCapability;
  context : option (list (string * JsValue));
  constraints : option Constraints.t
}.
End ExecuteRequest.

Module Oracle.
Record t : Type := mk {
  uuid_at : nat -> string;          (* n-th [crypto.randomUUID()] *)
  fetch_at : nat -> FetchOutcome;   (* n-th request to the Spark backend *)
  mcp_at : nat -> MCPResponse.t     (* n-th [mcpClient.executeAction] *)
}.
End Oracle.

(** Ghost observations: a handler being called with an event, and the calls
    that leave a component. *)
Inductive Delivery : Type :=
| Delivered (handlerRef : nat) (event : TaskEvent.t).

Inductive Call : Type :=
| Delegated (task : SubagentTask.t)        (* [orchestrator.delegate(task)] *)
| Fetched (request : ExecuteRequest.t)     (* request to the Spark backend *)
| McpCalled (action : MCPAction.t).        (* [mcpClient.executeAction(action)] *)

(** ** Strings *)

(** [String(n)] for a natural number. *)
Definition string_of_nat (n : nat) : string :=
  NilZero.string_of_uint (Nat.to_uint n).


(** [String.prototype.toLowerCase] on ASCII text: [A]..[Z] become [a]..[z],
    every other character is kept. (Outside ASCII JavaScript folds further
    characters; see [asciiOnly].) *)
Definition lowerChar (c : ascii) : ascii :=
  let n := nat_of_ascii c in
  if ((65 <=? n)%nat && (n <=? 90)%nat)%bool then ascii_of_nat (n + 32) else c.

Fixpoint toLowerCase (s : string) : string :=
  match s with
  | EmptyString => EmptyString
  | String c rest => String (lowerChar c) (toLowerCase rest)
  end.

(** [text.includes(search)] *)
Fixpoint includes (text search : string) : bool :=
  if String.prefix search text then true
  else match text with
       | EmptyString => false
       | String _ rest => includes rest search
       end.

(** The text is ASCII: every character is below 128. On such text
    [toLowerCase] above is what JavaScript computes; the properties that go
    through [toLowerCase] are stated for ASCII text. *)
Fixpoint asciiOnly (s : string) : bool :=
  match s with
  | EmptyString => true
  | String c rest => ((nat_of_ascii c <? 128)%nat && asciiOnly rest)%bool
  end.

(** Case-insensitive comparison, as the design document has it and without
    reference to [toLowerCase]: two characters are the same letter when they
    are equal or are the upper-case and the lower-case form of one of the 26
    letters; two texts are the same when they are so character by
    character. *)
Definition upperOf (lower upper : ascii) : Prop :=
  (65 <= nat_of_ascii upper <= 90)%nat /\
  nat_of_ascii lower = (nat_of_ascii upper + 32)%nat.

Definition sameLetter (c d : ascii) : Prop :=
  c = d \/ upperOf c d \/ upperOf d c.

Inductive sameText : string -> string -> Prop :=
| sameText_nil : sameText EmptyString EmptyString
| sameText_cons c d s t :
    sameLetter c d -> sameText s t -> sameText (String c s) (String d t).

(** [search] occurs in [raw] up to the case of letters. *)
Definition occursIgnoringCase (raw search : string) : Prop :=
  exists before mid after,
    raw = (before ++ mid ++ after)%string /\ sameText mid search.

(** No character of the text is an upper-case letter. *)
Fixpoint noUpper (s : string) : bool :=
  match s with
  | EmptyString => true
  | String c rest =>
      (negb ((65 <=? nat_of_ascii c)%nat && (nat_of_ascii c <=? 90)%nat)
       && noUpper rest)%bool
  end.

(** ** Process state and the monad of effects *)

Section Model.
Context {W : Type}.

(** A subscribed handler that observes: it is given the event, may keep a
    state of its own (its part of the world [W]) and may throw, but it neither
    calls the task manager nor changes the task object it is handed. The
    properties below that speak of handlers are about such handlers.
    [handlerRef] stands for the identity of the function object (what
    [h !== handler] compares). *)
Record TaskEventHandler : Type := mkHandler {
  handlerRef : nat;
  handlerFn : TaskEvent.t -> W -> W * option Thrown
}.

Record Sys : Type := mkSys {
  tasks : JsMap.t string Task.t;
  eventHandlers : list TaskEventHandler;
  agents : JsMap.t string Subagent.t;
  clock : Date;
  uuidCount : nat;
  fetchCount : nat;
  mcpCount : nat;
  oracle : Oracle.t;
  calls : list Call;
  world : W;
  trace : list Delivery
}.

Definition with_tasks (x : JsMap.t string Task.t) (s : Sys) : Sys :=
  mkSys x (eventHandlers s) (agents s) (clock s) (uuidCount s) (fetchCount s) (mcpCount s) (oracle s) (calls s) (world s) (trace s).

Definition with_eventHandlers (x : list TaskEventHandler) (s : Sys) : Sys :=
  mkSys (tasks s) x (agents s) (clock s) (uuidCount s) (fetchCount s) (mcpCount s) (oracle s) (calls s) (world s) (trace s).

Definition with_agents (x : JsMap.t string Subagent.t) (s : Sys) : Sys :=
  mkSys (tasks s) (eventHandlers s) x (clock s) (uuidCount s) (fetchCount s) (mcpCount s) (oracle s) (calls s) (world s) (trace s).

Definition with_clock (x : Date) (s : Sys) : Sys :=
  mkSys (tasks s) (eventHandlers s) (agents s) x (uuidCount s) (fetchCount s) (mcpCount s) (oracle s) (calls s) (world s) (trace s).

Definition with_uuidCount (x : nat) (s : Sys) : Sys :=
  mkSys (tasks s) (eventHandlers s) (agents s) (clock s) x (fetchCount s) (mcpCount s) (oracle s) (calls s) (world s) (trace s).

Definition with_fetchCount (x : nat) (s : Sys) : Sys :=
  mkSys (tasks s) (eventHandlers s) (agents s) (clock s) (uuidCount s) x (mcpCount s) (oracle s) (calls s) (world s) (trace s).

Definition with_mcpCount (x : nat) (s : Sys) : Sys :=
  mkSys (tasks s) (eventHandlers s) (agents s) (clock s) (uuidCount s) (fetchCount s) x (oracle s) (calls s) (world s) (trace s).

Definition with_oracle (x : Oracle.t) (s : Sys) : Sys :=
  mkSys (tasks s) (eventHandlers s) (agents s) (clock s) (uuidCount s) (fetchCount s) (mcpCount s) x (calls s) (world s) (trace s).

Definition with_calls (x : list Call) (s : Sys) : Sys :=
  mkSys (tasks s) (eventHandlers s) (agents s) (clock s) (uuidCount s) (fetchCount s) (mcpCount s) (oracle s) x (world s) (trace s).

Definition with_world (x : W) (s : Sys) : Sys :=
  mkSys (tasks s) (eventHandlers s) (agents s) (clock s) (uuidCount s) (fetchCount s) (mcpCount s) (oracle s) (calls s) x (trace s).

Definition with_trace (x : list Delivery) (s : Sys) : Sys :=
  mkSys (tasks s) (eventHandlers s) (agents s) (clock s) (uuidCount s) (fetchCount s) (mcpCount s) (oracle s) (calls s) (world s) x.

(** The part of the state that handlers cannot reach. *)
Definition core (s : Sys) :=
  (tasks s, eventHandlers s, agents s, clock s,
   (uuidCount s, fetchCount s, mcpCount s), oracle s, calls s).

(** The result of running a computation: a value or a thrown exception, each
    with the state reached. *)
Inductive Outcome (A : Type) : Type :=
| Returned (a : A) (s : Sys)
| Threw (e : Thrown) (s : Sys).
Arguments Returned {A} a s.
Arguments Threw {A} e s.

Definition M (A : Type) : Type := Sys -> Outcome A.

Definition ret {A} (a : A) : M A := fun s => Returned a s.

Definition bind {A B} (c : M A) (k : A -> M B) : M B :=
  fun s => match c s with
           | Returned a s' => k a s'
           | Threw e s' => Threw e s'
           end.

Definition throw {A} (e : Thrown) : M A := fun s => Threw e s.

(** [try { body } catch (error) { handler(error) }] *)
Definition tryCatch {A} (body : M A) (handler : Thrown -> M A) : M A :=
  fun s => match body s with
           | Returned a s' => Returned a s'
           | Threw e s' => handler e s'
           end.

Definition finalState {A} (o : Outcome A) : Sys :=
  match o with
  | Returned _ s => s
  | Threw _ s => s
  end.

Definition observe (c : Call) : M unit :=
  fun s => Returned tt (with_calls (calls s ++ [c]) s).

(** [new Date()]: the clock is read and moves on. *)
Definition newDate : M Date :=
  fun s => Returned (clock s) (with_clock (S (clock s)) s).

(** [crypto.randomUUID()] *)
Definition randomUUID : M string :=
  fun s => Returned (Oracle.uuid_at (oracle s) (uuidCount s))
                    (with_uuidCount (S (uuidCount s)) s).

End Model.

Arguments TaskEventHandler : clear implicits.
Arguments Sys : clear implicits.
Arguments Outcome : clear implicits.
Arguments M : clear implicits.
Arguments Threw {W A} e s.
Arguments Returned {W A} a s.

Declare Scope js_scope.
Delimit Scope js_scope with js.
Notation "x <- c ;; k" := (bind c (fun x => k))
  (at level 61, c at next level, right associativity) : js_scope.
Notation "c ;;; k" := (bind c (fun _ => k))
  (at level 61, right associativity) : js_scope.
Local Open Scope js_scope.

(** ** [TaskManager] ([src/lib/tasks/lifecycle.ts]) *)

Module TaskManager.
Section Defs.
Context {W : Type}.
Local Abbreviation M := (M W).
Local Abbreviation Sys := (Sys W).

Definition tasksGet (taskId : string) : M (option Task.t) :=
  fun s => Returned (JsMap.get taskId (tasks s)) s.

Definition tasksSet (taskId : string) (task : Task.t) : M unit :=
  fun s => Returned tt (with_tasks (JsMap.set taskId task (tasks s)) s).

(** [onEvent]: pushes the handler. The returned unsubscribe function is
    [unsubscribe handler]. *)
Definition onEvent (handler : TaskEventHandler W) : M unit :=
  fun s => Returned tt (with_eventHandlers (eventHandlers s ++ [handler]) s).

Definition unsubscribe (handler : TaskEventHandler W) : M unit :=
  fun s => Returned tt
    (with_eventHandlers
       (filter (fun h => negb (Nat.eqb (handlerRef h) (handlerRef handler)))
               (eventHandlers s)) s).

(** One call [handler(event)]. *)
Definition invoke (handler : TaskEventHandler W) (event : TaskEvent.t) : M unit :=
  fun s =>
    let s1 := with_trace (trace s ++ [Delivered (handlerRef handler) event]) s in
    match handlerFn handler event (world s1) with
    | (w', None) => Returned tt (with_world w' s1)
    | (w', Some e) => Threw e (with_world w' s1)
    end.

(** [handlers.forEach((handler) => handler(event))]: there is no [try]
    around the call, an exception leaves the loop. *)
Fixpoint forEach (handlers : list (TaskEventHandler W)) (event : TaskEvent.t)
  : M unit :=
  match handlers with
  | [] => ret tt
  | handler :: rest => invoke handler event ;;; forEach rest event
  end.

Definition emit (event : TaskEvent.t) : M unit :=
  fun s => forEach (eventHandlers s) event s.

(** [{ ...task, id: crypto.randomUUID(), status: 'pending', createdAt: new Date() }] *)
Definition created_task (task : TaskInit.t) (uuid : string) (now : Date)
  : Task.t :=
  {| Task.id := uuid;
     Task.name := TaskInit.name task;
     Task.description := TaskInit.description task;
     Task.type := TaskInit.type task;
     Task.status := pending;
     Task.parentId := TaskInit.parentId task;
     Task.metadata := TaskInit.metadata task;
     Task.result := TaskInit.result task;
     Task.error := TaskInit.error task;
     Task.createdAt := now;
     Task.startedAt := TaskInit.startedAt task;
     Task.completedAt := TaskInit.completedAt task |}.

Definition create (task : TaskInit.t) : M Task.t :=
  uuid <- randomUUID ;;
  now <- newDate ;;
  let newTask := created_task task uuid now in
  tasksSet (Task.id newTask) newTask ;;;
  emit (TaskEvent.mk created newTask None) ;;;
  ret newTask.

(** [{ ...task, status: 'running', startedAt: new Date() }] *)
Definition started_task (task : Task.t) (now : Date) : Task.t :=
  {| Task.id := Task.id task;
     Task.name := Task.name task;
     Task.description := Task.description task;
     Task.type := Task.type task;
     Task.status := running;
     Task.parentId := Task.parentId task;
     Task.metadata := Task.metadata task;
     Task.result := Task.result task;
     Task.error := Task.error task;
     Task.createdAt := Task.createdAt task;
     Task.startedAt := Some now;
     Task.completedAt := Task.completedAt task |}.

Definition start (taskId : string) : M (option Task.t) :=
  found <- tasksGet taskId ;;
  match found with
  | None => ret None
  | Some task =>
      now <- newDate ;;
      let updatedTask := started_task task now in
      tasksSet taskId updatedTask ;;;
      emit (TaskEvent.mk started updatedTask None) ;;;
      ret (Some updatedTask)
  end.

Definition orElse {A} (o : option A) (d : A) : A :=
  match o with Some a => a | None => d end.

(** [{ ...task, ...progress }] *)
Definition merged_task (task : Task.t) (progress : PartialTask.t) : Task.t :=
  {| Task.id := orElse (PartialTask.id progress) (Task.id task);
     Task.name := orElse (PartialTask.name progress) (Task.name task);
     Task.description :=
       orElse (PartialTask.description progress) (Task.description task);
     Task.type := orElse (PartialTask.type progress) (Task.type task);
     Task.status := orElse (PartialTask.status progress) (Task.status task);
     Task.parentId := orElse (PartialTask.parentId progress) (Task.parentId task);
     Task.metadata := orElse (PartialTask.metadata progress) (Task.metadata task);
     Task.result := orElse (PartialTask.result progress) (Task.result task);
     Task.error := orElse (PartialTask.error progress) (Task.error task);
     Task.createdAt :=
       orElse (PartialTask.createdAt progress) (Task.createdAt task);
     Task.startedAt :=
       orElse (PartialTask.startedAt progress) (Task.startedAt task);
     Task.completedAt :=
       orElse (PartialTask.completedAt progress) (Task.completedAt task) |}.

Definition update (taskId : string) (progress : PartialTask.t)
  : M (option Task.t) :=
  found <- tasksGet taskId ;;
  match found with
  | None => ret None
  | Some task =>
      let updatedTask := merged_task task progress in
      tasksSet taskId updatedTask ;;;
      emit (TaskEvent.mk updated updatedTask None) ;;;
      ret (Some updatedTask)
  end.

(** [{ ...task, status: 'completed', completedAt: new Date(), result }] *)
Definition finished_task (task : Task.t) (now : Date) (result : JsValue)
  : Task.t :=
  {| Task.id := Task.id task;
     Task.name := Task.name task;
     Task.description := Task.description task;
     Task.type := Task.type task;
     Task.status := completed;
     Task.parentId := Task.parentId task;
     Task.metadata := Task.metadata task;
     Task.result := result;
     Task.error := Task.error task;
     Task.createdAt := Task.createdAt task;
     Task.startedAt := Task.startedAt task;
     Task.completedAt := Some now |}.

(** [finish(taskId, result?)]: an omitted [result] is [JUndefined]. *)
Definition finish (taskId : string) (result : JsValue) : M (option Task.t) :=
  found <- tasksGet taskId ;;
  match found with
  | None => ret None
  | Some task =>
      now <- newDate ;;
      let updatedTask := finished_task task now result in
      tasksSet taskId updatedTask ;;;
      emit (TaskEvent.mk finished updatedTask None) ;;;
      ret (Some updatedTask)
  end.

(** [{ ...task, status: 'failed', completedAt: new Date(), error }] *)
Definition failed_task (task : Task.t) (now : Date) (error : string) : Task.t :=
  {| Task.id := Task.id task;
     Task.name := Task.name task;
     Task.description := Task.description task;
     Task.type := Task.type task;
     Task.status := failed;
     Task.parentId := Task.parentId task;
     Task.metadata := Task.metadata task;
     Task.result := Task.result task;
     Task.error := Some error;
     Task.createdAt := Task.createdAt task;
     Task.startedAt := Task.startedAt task;
     Task.completedAt := Some now |}.

Definition error (taskId : string) (error : string) : M (option Task.t) :=
  found <- tasksGet taskId ;;
  match found with
  | None => ret None
  | Some task =>
      now <- newDate ;;
      let updatedTask := failed_task task now error in
      tasksSet taskId updatedTask ;;;
      emit (TaskEvent.mk errored updatedTask (Some error)) ;;;
      ret (Some updatedTask)
  end.

Definition get (taskId : string) : M (option Task.t) := tasksGet taskId.

Definition statusEqb (a b : TaskStatus) : bool :=
  match a, b with
  | pending, pending | running, running
  | completed, completed | failed, failed => true
  | _, _ => false
  end.

Definition getAll (status : option TaskStatus) : M (list Task.t) :=
  fun s =>
    let all := JsMap.values (tasks s) in
    Returned
      (match status with
       | Some st => filter (fun t => statusEqb (Task.status t) st) all
       | None => all
       end) s.

(** The four mutators of the store, as data. *)
Inductive Mutator : Type :=
| Start
| Update (progress : PartialTask.t)
| Finish (result : JsValue)
| Error (message : string).

Definition apply (op : Mutator) (taskId : string) : M (option Task.t) :=
  match op with
  | Start => start taskId
  | Update progress => update taskId progress
  | Finish result => finish taskId result
  | Error message => error taskId message
  end.

End Defs.
End TaskManager.

(** ** [SubagentRegistry] ([src/lib/subagents/registry.ts]) *)

Module SubagentRegistry.
Section Defs.
Context {W : Type}.
Local Abbreviation M := (M W).

Definition register (agent : Subagent.t) : M unit :=
  fun s => Returned tt
             (with_agents (JsMap.set (Subagent.id agent) agent (agents s)) s).

Definition unregister (agentId : string) : M bool :=
  fun s => Returned (JsMap.has agentId (agents s))
                    (with_agents (JsMap.delete agentId (agents s)) s).

Definition get (agentId : string) : M (option Subagent.t) :=
  fun s => Returned (JsMap.get agentId (agents s)) s.

(** [capabilities.includes(capability)] *)
Definition includes (capabilities : list SubagentCapability)
  (capability : SubagentCapability) : bool :=
  existsb (String.eqb capability) capabilities.

Definition findByCapability (capability : SubagentCapability)
  : M (list Subagent.t) :=
  fun s => Returned
             (filter (fun agent => includes (Subagent.capabilities agent) capability)
                     (JsMap.values (agents s))) s.

(** [requiredCapabilities.filter((cap) => agent.capabilities.includes(cap)).length] *)
Definition score (requiredCapabilities : list SubagentCapability)
  (agent : Subagent.t) : nat :=
  List.length
    (filter (includes (Subagent.capabilities agent)) requiredCapabilities).

(** The loop of [findBestMatch] over the remaining values of the map, with
    the two loop variables. *)
Fixpoint scan (requiredCapabilities : list SubagentCapability)
  (remaining : list Subagent.t)
  (bestMatch : option Subagent.t) (bestScore : nat)
  : option Subagent.t * nat :=
  match remaining with
  | [] => (bestMatch, bestScore)
  | agent :: rest =>
      let score := score requiredCapabilities agent in
      if (bestScore <? score)%nat
      then scan requiredCapabilities rest (Some agent) score
      else scan requiredCapabilities rest bestMatch bestScore
  end.

Definition bestOf (requiredCapabilities : list SubagentCapability)
  (registered : list Subagent.t) : option Subagent.t :=
  fst (scan requiredCapabilities registered None 0).

Definition findBestMatch (requiredCapabilities : list SubagentCapability)
  : M (option Subagent.t) :=
  fun s => Returned (bestOf requiredCapabilities (JsMap.values (agents s))) s.

Definition getAll : M (list Subagent.t) :=
  fun s => Returned (JsMap.values (agents s)) s.

Definition isAvailable (agentId : string) : M bool :=
  fun s => Returned
             (match JsMap.get agentId (agents s) with
              | Some agent =>
                  match Subagent.status agent with
                  | available => true
                  | _ => false
                  end
              | None => false
              end) s.

End Defs.
End SubagentRegistry.

(** What the two loop variables of [findBestMatch] say about the agents
    already scanned. *)
Definition bestSoFar (required : list SubagentCapability) (seen : list Subagent.t) (best : option Subagent.t)
  (bestScore : nat) : Prop :=
  match best with
  | None => bestScore = 0 /\ forall a, In a seen -> SubagentRegistry.score required a = 0
  | Some a =>
      bestScore = SubagentRegistry.score required a /\ 0 < bestScore /\
      exists i, nth_error seen i = Some a /\
        (forall j b, nth_error seen j = Some b -> SubagentRegistry.score required b <= bestScore) /\
        (forall j b, j < i -> nth_error seen j = Some b ->
                     SubagentRegistry.score required b < bestScore)
  end.

(** The score of the design document, stated without the code's [filter] and
    [includes]: the number of entries of the request that are among the
    capabilities of [agent]. *)
Fixpoint satisfiedCount (required : list SubagentCapability)
  (agent : Subagent.t) : nat :=
  match required with
  | [] => 0
  | capability :: rest =>
      (if in_dec string_dec capability (Subagent.capabilities agent)
       then 1 else 0) + satisfiedCount rest agent
  end.

(** [items.map(f)] for an [f] with effects, in order. *)
Fixpoint mapM {W A B} (f : A -> M W B) (l : list A) : M W (list B) :=
  match l with
  | [] => ret []
  | a :: rest => b <- f a ;; bs <- mapM f rest ;; ret (b :: bs)
  end.

(** ** Promises that are awaited together *)

(** An [async] call that has run up to its first real suspension: it has
    already settled, or it waits for the environment with what it needs to
    resume in [p]. *)
Inductive Promise (P A : Type) : Type :=
| Fulfilled (a : A)
| Rejected (e : Thrown)
| Waiting (p : P).
Arguments Fulfilled {P A} a.
Arguments Rejected {P A} e.
Arguments Waiting {P A} p.

Section PromiseAll.
Context {W P A : Type}.
Variable resume : P -> M W A.

(** Running the synchronous part of an [async] function: a throw becomes a
    rejected promise, the caller goes on. *)
Definition async (c : M W (Promise P A)) : M W (Promise P A) :=
  fun s => match c s with
           | Returned p s' => Returned p s'
           | Threw e s' => Returned (Rejected e) s'
           end.

Fixpoint firstRejected (promises : list (Promise P A)) : option Thrown :=
  match promises with
  | [] => None
  | Rejected e :: _ => Some e
  | _ :: rest => firstRejected rest
  end.

(** The environment answers the [i]-th promise: if it is waiting, the rest
    of its function runs. A throw there rejects the promise, which shows as
    a throw of the whole step. *)
Fixpoint resumeAt (i : nat) (promises : list (Promise P A))
  : M W (list (Promise P A)) :=
  match promises, i with
  | [], _ => ret []
  | Waiting p :: rest, O => a <- resume p ;; ret (Fulfilled a :: rest)
  | settled :: rest, O => ret (settled :: rest)
  | first :: rest, S i' => rest' <- resumeAt i' rest ;; ret (first :: rest')
  end.

Fixpoint drain (schedule : list nat) (promises : list (Promise P A))
  : M W (list (Promise P A)) :=
  match schedule with
  | [] => ret promises
  | i :: later => promises' <- resumeAt i promises ;; drain later promises'
  end.

Definition fulfilledValues (promises : list (Promise P A)) : list A :=
  flat_map (fun p => match p with Fulfilled a => [a] | _ => [] end) promises.

(** [await Promise.all(promises)]. A promise rejected during the synchronous
    part rejects the whole at once. Otherwise the waiting promises are
    answered in the order of [schedule] (any order the environment likes),
    and those the schedule leaves out afterwards in input order. The first
    rejection throws into the awaiting caller; the promises still waiting
    then stay in flight. When every promise is fulfilled the values are
    returned in input order. *)
Definition promiseAll (schedule : list nat) (promises : list (Promise P A))
  : M W (list A) :=
  match firstRejected promises with
  | Some e => throw e
  | None =>
      promises1 <- drain schedule promises ;;
      promises2 <- drain (seq 0 (List.length promises)) promises1 ;;
      ret (fulfilledValues promises2)
  end.

End PromiseAll.

(** What a list of promises looks like once the waiting ones have resumed,
    when resuming [q] gives [settledValue q]. *)
Section PromiseAllSpec.
Context {P A : Type}.
Variable settledValue : P -> A.
Variable fails : P -> bool.

Definition settleOne (p : Promise P A) : Promise P A :=
  match p with
  | Waiting q => Fulfilled (settledValue q)
  | settled => settled
  end.

Fixpoint settleAt (i : nat) (promises : list (Promise P A))
  : list (Promise P A) :=
  match promises, i with
  | [], _ => []
  | p :: rest, O => settleOne p :: rest
  | p :: rest, S i' => p :: settleAt i' rest
  end.

Definition settleIn (schedule : list nat) (promises : list (Promise P A))
  : list (Promise P A) :=
  fold_left (fun ps i => settleAt i ps) schedule promises.


End PromiseAllSpec.

(** ** [SparkAgentClient] ([src/lib/subagents/spark-agent.ts]) *)

(** The property read [value.key] for the keys used below (none of them is a
    property of a string, number, boolean or array). Reading a property of
    [null] or [undefined] throws a [TypeError]. *)
Definition getProp (value : JsValue) (key : string) : Thrown + JsValue :=
  match value with
  | JNull =>
      inl (ErrorObj ("Cannot read properties of null (reading '" ++ key ++ "')"))
  | JUndefined =>
      inl (ErrorObj
             ("Cannot read properties of undefined (reading '" ++ key ++ "')"))
  | JObject fields =>
      inr (match JsMap.get key fields with Some v => v | None => JUndefined end)
  | _ => inr JUndefined
  end%string.

(** The tracking task that [SparkAgentClient.execute] creates. *)
Definition trackingInit (task : SubagentTask.t) : TaskInit.t :=
  {| TaskInit.name := ("Spark: " ++ SubagentTask.name task)%string;
     TaskInit.description := Some (SubagentTask.prompt task);
     TaskInit.type := subagent;
     TaskInit.parentId := None;
     TaskInit.metadata :=
       JObject
         [("subagentId", JString "spark-agent");
          ("capabilities",
           JArray (map JString (SubagentTask.capabilities task)))];
     TaskInit.result := JUndefined;
     TaskInit.error := None;
     TaskInit.startedAt := None;
     TaskInit.completedAt := None |}.

Module SparkAgentClient.
Section Defs.
Context {W : Type}.
Local Abbreviation M := (M W).

Definition getAgentConfig : Subagent.t :=
  {| Subagent.id := "spark-agent";
     Subagent.name := "Spark Agent";
     Subagent.description :=
       "Specialized AI for complex, long-horizon task execution";
     Subagent.capabilities :=
       ["code"; "testing"; "aesthetics"; "presentation"; "research";
        "multimodal"; "mcp"];
     Subagent.status := available;
     Subagent.metadata :=
       JObject [("version", JString "1.0.0"); ("provider", JString "spark")] |}.

(** [await] of something that resolves to a value or rejects. *)
Definition await {A} (settled : Thrown + A) : M A :=
  match settled with
  | inl e => throw e
  | inr a => ret a
  end.

(** [fetch(url, { body })] is called: the request leaves, the answer that
    the environment will give is fixed by the oracle. *)
Definition fetch (request : ExecuteRequest.t) : M FetchOutcome :=
  fun s =>
    Returned (Oracle.fetch_at (oracle s) (fetchCount s))
             (with_fetchCount (S (fetchCount s))
                (with_calls (calls s ++ [Fetched request]) s)).

(** [execute] up to [await fetch(...)]: the tracking task is created and
    started, the request is sent. *)
Definition executeBegin (task : SubagentTask.t) : M (Task.t * FetchOutcome) :=
  internalTask <- TaskManager.create (trackingInit task) ;;
  TaskManager.start (Task.id internalTask) ;;;
  answer <-
    fetch {| ExecuteRequest.prompt := SubagentTask.prompt task;
             ExecuteRequest.capabilities := SubagentTask.capabilities task;
             ExecuteRequest.context := SubagentTask.context task;
             ExecuteRequest.constraints := SubagentTask.constraints task |} ;;
  ret (internalTask, answer).

(** The rest of [execute], from the moment the [fetch] settles: the body of
    the [try] after [await fetch], and the [catch]. *)
Definition executeEnd (inflight : Task.t * FetchOutcome) : M SubagentResult.t :=
  let (internalTask, answer) := inflight in
  tryCatch
    (response <- await answer ;;
     (if negb (Response.ok response)
      then
        error <- await (Response.text response) ;;
        throw (ErrorObj ("Spark Agent error: " ++ error)%string)
      else ret tt) ;;;
     result <- await (Response.json response) ;;
     TaskManager.finish (Task.id internalTask) result ;;;
     output <- await (getProp result "output") ;;
     artifacts <- await (getProp result "artifacts") ;;
     duration <- await (getProp result "duration") ;;
     tokensUsed <- await (getProp result "tokensUsed") ;;
     ret {| SubagentResult.success := true;
            SubagentResult.taskId := Task.id internalTask;
            SubagentResult.output := output;
            SubagentResult.artifacts := artifacts;
            SubagentResult.error := None;
            SubagentResult.metadata :=
              JObject [("duration", duration); ("tokensUsed", tokensUsed)] |})
    (fun error =>
       let errorMessage := messageOr "Unknown error" error in
       TaskManager.error (Task.id internalTask) errorMessage ;;;
       ret {| SubagentResult.success := false;
              SubagentResult.taskId := Task.id internalTask;
              SubagentResult.output := JUndefined;
              SubagentResult.artifacts := JUndefined;
              SubagentResult.error := Some errorMessage;
              SubagentResult.metadata := JUndefined |}).

(** [execute(task)], run without anything else in between. *)
Definition execute (task : SubagentTask.t) : M SubagentResult.t :=
  inflight <- executeBegin task ;;
  executeEnd inflight.

End Defs.
End SparkAgentClient.

(** ** [SubagentOrchestrator] ([src/lib/subagents/orchestrator.ts]) *)

Module SubagentOrchestrator.
Section Defs.
Context {W : Type}.
Local Abbreviation M := (M W).

(** The constructor registers the Spark agent. *)
Definition constructor : M unit :=
  SubagentRegistry.register SparkAgentClient.getAgentConfig.

Definition executeGenericSubagent (agentId : string) (task : SubagentTask.t)
  : SubagentResult.t :=
  {| SubagentResult.success := false;
     SubagentResult.taskId := "";
     SubagentResult.output := JUndefined;
     SubagentResult.artifacts := JUndefined;
     SubagentResult.error :=
       Some ("Subagent " ++ agentId ++ " execution not implemented")%string;
     SubagentResult.metadata := JUndefined |}.

Definition noSubagentFound (task : SubagentTask.t) : SubagentResult.t :=
  {| SubagentResult.success := false;
     SubagentResult.taskId := "";
     SubagentResult.output := JUndefined;
     SubagentResult.artifacts := JUndefined;
     SubagentResult.error :=
       Some ("No subagent found with capabilities: "
             ++ String.concat ", " (SubagentTask.capabilities task))%string;
     SubagentResult.metadata := JUndefined |}.

Definition DelegatePromise : Type :=
  Promise (Task.t * FetchOutcome) SubagentResult.t.

(** [delegate(task)] up to its first suspension. Only the route through the
    Spark agent waits for the environment. *)
Definition delegateBegin (task : SubagentTask.t) : M DelegatePromise :=
  async
    (observe (Delegated task) ;;;
     agent <- SubagentRegistry.findBestMatch (SubagentTask.capabilities task) ;;
     match agent with
     | None => ret (Fulfilled (noSubagentFound task))
     | Some agent =>
         if String.eqb (Subagent.id agent) "spark-agent"
         then inflight <- SparkAgentClient.executeBegin task ;;
              ret (Waiting inflight)
         else ret (Fulfilled (executeGenericSubagent (Subagent.id agent) task))
     end).

Definition delegateEnd : Task.t * FetchOutcome -> M SubagentResult.t :=
  SparkAgentClient.executeEnd.

(** [await this.delegate(task)] *)
Definition delegate (task : SubagentTask.t) : M SubagentResult.t :=
  promise <- delegateBegin task ;;
  match promise with
  | Fulfilled result => ret result
  | Rejected e => throw e
  | Waiting inflight => delegateEnd inflight
  end.

(** [Promise.all(tasks.map((task) => this.delegate(task)))]; [schedule] is the
    order in which the backend answers. *)
Definition delegateParallel (schedule : list nat) (tasks : list SubagentTask.t)
  : M (list SubagentResult.t) :=
  promises <- mapM delegateBegin tasks ;;
  promiseAll delegateEnd schedule promises.

(** [{ ...a, ...b }] on objects as key/value lists. *)
Definition spread (a b : list (string * JsValue)) : list (string * JsValue) :=
  fold_left (fun acc kv => JsMap.set (fst kv) (snd kv) acc) b a.

Definition contextOf (task : SubagentTask.t) : list (string * JsValue) :=
  match SubagentTask.context task with
  | Some context => context
  | None => []
  end.

(** [{ ...task, context: { ...task.context, ...accumulatedContext } }] *)
Definition enrich (task : SubagentTask.t)
  (accumulatedContext : list (string * JsValue)) : SubagentTask.t :=
  {| SubagentTask.id := SubagentTask.id task;
     SubagentTask.name := SubagentTask.name task;
     SubagentTask.prompt := SubagentTask.prompt task;
     SubagentTask.capabilities := SubagentTask.capabilities task;
     SubagentTask.context := Some (spread (contextOf task) accumulatedContext);
     SubagentTask.constraints := SubagentTask.constraints task |}.

(** [`result_${n}`] *)
Definition resultKey (n : nat) : string :=
  ("result_" ++ string_of_nat n)%string.

(** The body of the [for] loop of [delegateSequential], with its two
    variables [results] and [accumulatedContext]. *)
Fixpoint sequentialLoop (contextPropagation : bool)
  (tasks : list SubagentTask.t)
  (results : list SubagentResult.t)
  (accumulatedContext : list (string * JsValue))
  : M (list SubagentResult.t) :=
  match tasks with
  | [] => ret results
  | task :: rest =>
      let enrichedTask :=
        if contextPropagation then enrich task accumulatedContext else task in
      result <- delegate enrichedTask ;;
      let results := results ++ [result] in
      let accumulatedContext :=
        if (SubagentResult.success result
            && truthy (SubagentResult.output result))%bool
        then JsMap.set (resultKey (List.length results - 1))
                       (SubagentResult.output result) accumulatedContext
        else accumulatedContext in
      sequentialLoop contextPropagation rest results accumulatedContext
  end.

Definition delegateSequential (tasks : list SubagentTask.t)
  (contextPropagation : bool) : M (list SubagentResult.t) :=
  sequentialLoop contextPropagation tasks [] [].

End Defs.
End SubagentOrchestrator.

(** ** [PlannerAdapter] ([src/lib/planner/adapter.ts]) *)

(** What an [executeAction] waits for: the answer of the MCP client for the
    child [task]. *)
Inductive ActionWait : Type :=
| AwaitMcp (task : Task.t) (result : MCPResponse.t).

Module PlannerAdapter.
Section Defs.
Context {W : Type}.
Local Abbreviation M := (M W).

Definition toMCPAction (action : PlanAction.t) : MCPAction.t :=
  {| MCPAction.serverId := ActionTarget.serverId (PlanAction.target action);
     MCPAction.name := PlanAction.name action;
     MCPAction.parameters := PlanAction.parameters action |}.

(** [mcpClient.executeAction(action)] is called. The client catches its own
    failures and always resolves to a response; the response is the
    environment's. *)
Definition mcpExecuteAction (action : MCPAction.t) : M MCPResponse.t :=
  fun s =>
    Returned (Oracle.mcp_at (oracle s) (mcpCount s))
             (with_mcpCount (S (mcpCount s))
                (with_calls (calls s ++ [McpCalled action]) s)).

(** [action.order ?? 0]. Orders are taken to be integers, as the design
    document has them; the schema allows any number. *)
Definition orderOf (action : PlanAction.t) : Z :=
  match PlanAction.order action with
  | Some order => order
  | None => 0%Z
  end.

(** The [for] loop of [groupByOrder] filling the map. *)
Definition collect (actions : list PlanAction.t)
  : JsMap.t Z (list PlanAction.t) :=
  fold_left
    (fun groups action =>
       let order := orderOf action in
       let group := match JsMap.get order groups with
                    | Some group => group
                    | None => []
                    end in
       JsMap.set order (group ++ [action]) groups)
    actions JsMap.empty.

(** [entries.sort(([a], [b]) => a - b)], as a stable insertion sort. *)
Fixpoint insertEntry {V} (entry : Z * V) (sorted : list (Z * V))
  : list (Z * V) :=
  match sorted with
  | [] => [entry]
  | first :: rest =>
      if (fst entry <? fst first)%Z then entry :: first :: rest
      else first :: insertEntry entry rest
  end.

Definition sortEntries {V} (entries : list (Z * V)) : list (Z * V) :=
  fold_right insertEntry [] entries.

Definition groupByOrder (actions : list PlanAction.t)
  : list (list PlanAction.t) :=
  map snd (sortEntries (JsMap.entries (collect actions))).

(** The stub: nothing is dispatched, the child task is finished at once. *)
Definition executeSubagentAction (action : PlanAction.t) (task : Task.t)
  : M unit :=
  TaskManager.finish (Task.id task)
    (JObject [("status", JString "subagent_pending")]) ;;;
  ret tt.

Definition childInit (action : PlanAction.t) (parentTaskId : string)
  : TaskInit.t :=
  {| TaskInit.name := PlanAction.name action;
     TaskInit.description := Some (PlanAction.description action);
     TaskInit.type := taskTypeOf (ActionTarget.type (PlanAction.target action));
     TaskInit.parentId := Some parentTaskId;
     TaskInit.metadata := JObject [("actionId", JString (PlanAction.id action))];
     TaskInit.result := JUndefined;
     TaskInit.error := None;
     TaskInit.startedAt := None;
     TaskInit.completedAt := None |}.

(** The [catch] block of [executeAction]. *)
Definition actionFailed (task : Task.t) (error : Thrown) : M unit :=
  TaskManager.error (Task.id task) (messageOr "Action execution failed" error) ;;;
  throw error.

(** [executeAction] up to its first wait for the environment. For an MCP
    action that is the call of the client. For a subagent action the stub
    runs at once; the continuation after [await this.executeSubagentAction]
    is a microtask that comes before any answer of the environment, and is
    run here on the spot. *)
Definition executeActionBegin (parentTaskId : string) (action : PlanAction.t)
  : M (Promise ActionWait unit) :=
  async
    (task <- TaskManager.create (childInit action parentTaskId) ;;
     TaskManager.start (Task.id task) ;;;
     match ActionTarget.type (PlanAction.target action) with
     | target_mcp =>
         let mcpAction := toMCPAction action in
         result <- mcpExecuteAction mcpAction ;;
         ret (Waiting (AwaitMcp task result))
     | target_subagent =>
         tryCatch (executeSubagentAction action task) (actionFailed task) ;;;
         ret (Fulfilled tt)
     end).

(** The rest of [executeAction] once the MCP client has answered. *)
Definition executeActionEnd (waiting : ActionWait) : M unit :=
  match waiting with
  | AwaitMcp task result =>
      tryCatch
        (if negb (MCPResponse.success result)
         then throw (ErrorObj (match MCPResponse.error result with
                               | Some message => message
                               | None => ""
                               end))
         else TaskManager.finish (Task.id task) (MCPResponse.data result) ;;;
              ret tt)
        (actionFailed task)
  end.

(** The [for] loop over the groups. [schedules] gives, group by group, the
    order in which the MCP client answers. *)
Fixpoint runGroups (schedules : list (list nat))
  (groups : list (list PlanAction.t)) (parentTaskId : string) : M unit :=
  match groups with
  | [] => ret tt
  | group :: rest =>
      promises <- mapM (executeActionBegin parentTaskId) group ;;
      promiseAll executeActionEnd (hd [] schedules) promises ;;;
      runGroups (tl schedules) rest parentTaskId
  end.

Definition planInit (thePlan : MultiActionPlan.t) : TaskInit.t :=
  {| TaskInit.name := MultiActionPlan.name thePlan;
     TaskInit.description := Some (MultiActionPlan.description thePlan);
     TaskInit.type := plan;
     TaskInit.parentId := None;
     TaskInit.metadata := JObject [("planId", JString (MultiActionPlan.id thePlan))];
     TaskInit.result := JUndefined;
     TaskInit.error := None;
     TaskInit.startedAt := None;
     TaskInit.completedAt := None |}.

Definition execute (schedules : list (list nat)) (thePlan : MultiActionPlan.t)
  : M unit :=
  parentTask <- TaskManager.create (planInit thePlan) ;;
  TaskManager.start (Task.id parentTask) ;;;
  tryCatch
    (let actionGroups := groupByOrder (MultiActionPlan.actions thePlan) in
     runGroups schedules actionGroups (Task.id parentTask) ;;;
     TaskManager.finish (Task.id parentTask)
       (JObject [("status", JString "completed")]) ;;;
     ret tt)
    (fun error =>
       TaskManager.error (Task.id parentTask)
         (messageOr "Plan execution failed" error) ;;;
       throw error).

End Defs.
End PlannerAdapter.

(** ** Capability inference ([SubagentOrchestrator.inferCapabilities]) *)

(** [cond && capabilities.push(tag)], as a value. *)
Definition pushIf (cond : bool) (tag : SubagentCapability)
  (capabilities : list JsValue) : list JsValue :=
  if cond then capabilities ++ [JString tag] else capabilities.

(** The array [params.capabilities] is returned as it is, whatever it holds,
    hence the result type. *)
Definition inferCapabilities (action : PlanAction.t) : list JsValue :=
  let capabilities : list JsValue := [] in
  let params := PlanAction.parameters action in
  match JsMap.get "capabilities" params with
  | Some (JArray explicit) => explicit
  | _ =>
      let text :=
        toLowerCase
          (PlanAction.name action ++ " " ++ PlanAction.description action)%string in
      let capabilities :=
        pushIf (includes text "code" || includes text "build"
                || includes text "develop") "code" capabilities in
      let capabilities :=
        pushIf (includes text "test" || includes text "verify")
               "testing" capabilities in
      let capabilities :=
        pushIf (includes text "design" || includes text "ui"
                || includes text "style") "aesthetics" capabilities in
      let capabilities :=
        pushIf (includes text "research" || includes text "search"
                || includes text "find") "research" capabilities in
      let capabilities :=
        pushIf (includes text "presentation" || includes text "slide"
                || includes text "ppt") "presentation" capabilities in
      let capabilities :=
        pushIf (includes text "image" || includes text "video"
                || includes text "audio") "multimodal" capabilities in
      match capabilities with
      | [] => [JString "code"]
      | _ => capabilities
      end
  end.

(** The keyword table of the design document: keyword group and its tag. *)
Definition keywordTable : list (list string * SubagentCapability) :=
  [ (["code"; "build"; "develop"], "code");
    (["test"; "verify"], "testing");
    (["design"; "ui"; "style"], "aesthetics");
    (["research"; "search"; "find"], "research");
    (["presentation"; "slide"; "ppt"], "presentation");
    (["image"; "video"; "audio"], "multimodal") ].

(** The tags of the table whose group has a keyword in the lower-cased text,
    in table order. *)
Definition matchedTags (raw : string) : list SubagentCapability :=
  map snd
      (filter (fun row => existsb (includes (toLowerCase raw)) (fst row))
              keywordTable).

(** A keyword group matches when one of its keywords occurs in the text,
    whatever the case of the letters. *)
Definition groupMatches (raw : string) (keywords : list string) : Prop :=
  exists keyword, In keyword keywords /\ occursIgnoringCase raw keyword.

(** What each mutator writes for a stored [task] when the clock reads [now]. *)
Definition written (op : TaskManager.Mutator) (task : Task.t) (now : Date)
  : Task.t :=
  match op with
  | TaskManager.Start => TaskManager.started_task task now
  | TaskManager.Update progress => TaskManager.merged_task task progress
  | TaskManager.Finish result => TaskManager.finished_task task now result
  | TaskManager.Error message => TaskManager.failed_task task now message
  end.


(** The trace entries of invoking each of [handlers], in order, with [event]. *)
Definition deliveries {W} (handlers : list (TaskEventHandler W))
  (event : TaskEvent.t) : list Delivery :=
  map (fun h => Delivered (handlerRef h) event) handlers.

(** Every subscribed handler returns normally, whatever the event and world. *)
Definition quiet {W} (handlers : list (TaskEventHandler W)) : Prop :=
  forall h event w, In h handlers -> snd (handlerFn h event w) = None.

(** Two states that differ at most in the handlers' world and in the trace
    of handler invocations. *)
Definition sameStore {W} (s s' : Sys W) : Prop := core s' = core s.

(** What a settled [fetch] means for [SparkAgentClient.execute]: the body the
    backend answered with, when the request resolved with an ok status and a
    JSON body other than [null]; otherwise the exception that reaches the
    [catch] block. *)
Definition backendBody (answer : FetchOutcome) : option JsValue :=
  match answer with
  | inl _ => None
  | inr response =>
      if Response.ok response
      then match Response.json response with
           | inl _ => None
           | inr (JNull | JUndefined) => None
           | inr body => Some body
           end
      else None
  end.

Definition backendFailure (answer : FetchOutcome) : Thrown :=
  match answer with
  | inl e => e
  | inr response =>
      if Response.ok response
      then match Response.json response with
           | inl e => e
           | inr body =>
               match getProp body "output" with
               | inl e => e
               | inr _ => ErrorObj ""
               end
           end
      else match Response.text response with
           | inl e => e
           | inr text => ErrorObj ("Spark Agent error: " ++ text)%string
           end
  end.

(** [value.key] where a failed read has already been excluded. *)
Definition propOr (value : JsValue) (key : string) : JsValue :=
  match getProp value key with
  | inr v => v
  | inl _ => JUndefined
  end.

(** The work result that [SparkAgentClient.execute] returns for the tracking
    task [taskId] when the backend settles as [answer]. *)
Definition sparkResult (taskId : string) (answer : FetchOutcome)
  : SubagentResult.t :=
  match backendBody answer with
  | Some body =>
      {| SubagentResult.success := true;
         SubagentResult.taskId := taskId;
         SubagentResult.output := propOr body "output";
         SubagentResult.artifacts := propOr body "artifacts";
         SubagentResult.error := None;
         SubagentResult.metadata :=
           JObject [("duration", propOr body "duration");
                    ("tokensUsed", propOr body "tokensUsed")] |}
  | None =>
      {| SubagentResult.success := false;
         SubagentResult.taskId := taskId;
         SubagentResult.output := JUndefined;
         SubagentResult.artifacts := JUndefined;
         SubagentResult.error :=
           Some (messageOr "Unknown error" (backendFailure answer));
         SubagentResult.metadata := JUndefined |}
  end.

(** Whether [delegate] routes a work item to the Spark agent, given the
    registered descriptors in registration order. *)
Definition routedToSpark (registered : list Subagent.t)
  (task : SubagentTask.t) : bool :=
  match SubagentRegistry.bestOf (SubagentTask.capabilities task) registered with
  | Some agent => String.eqb (Subagent.id agent) "spark-agent"
  | None => false
  end.


(** The work result of [delegate(task)] when the next identifier and the next
    backend answer are the [uuids]-th and the [fetches]-th of the oracle. *)
Definition delegateResult (registered : list Subagent.t) (o : Oracle.t)
  (uuids fetches : nat) (task : SubagentTask.t) : SubagentResult.t :=
  match SubagentRegistry.bestOf (SubagentTask.capabilities task) registered with
  | None => SubagentOrchestrator.noSubagentFound task
  | Some agent =>
      if String.eqb (Subagent.id agent) "spark-agent"
      then sparkResult (Oracle.uuid_at o uuids) (Oracle.fetch_at o fetches)
      else SubagentOrchestrator.executeGenericSubagent (Subagent.id agent) task
  end.


(** What a waiting [delegate] resolves to. *)
Definition delegateSettled (inflight : Task.t * FetchOutcome)
  : SubagentResult.t :=
  sparkResult (Task.id (fst inflight)) (snd inflight).

(** The work items that [delegate] was called with, oldest first. *)
Definition delegatedIn (log : list Call) : list SubagentTask.t :=
  flat_map (fun c => match c with Delegated task => [task] | _ => [] end) log.

(** The context accumulated by [delegateSequential] from the results so
    far: one entry per result that succeeded with a truthy output, keyed by
    the index of that result in the [results] array. *)
Fixpoint accumulatedFrom (start : nat) (results : list SubagentResult.t)
  : list (string * JsValue) :=
  match results with
  | [] => []
  | r :: rest =>
      (if (SubagentResult.success r && truthy (SubagentResult.output r))%bool
       then [(SubagentOrchestrator.resultKey start, SubagentResult.output r)]
       else [])
      ++ accumulatedFrom (S start) rest
  end.

Definition accumulated (results : list SubagentResult.t)
  : list (string * JsValue) :=
  accumulatedFrom 0 results.

(** The work items that [delegateSequential] hands to [delegate], given the
    results [seen] before the first of [tasks] and the results of [tasks]. *)
Fixpoint effectiveFrom (seen : list SubagentResult.t)
  (tasks : list SubagentTask.t) (results : list SubagentResult.t)
  : list SubagentTask.t :=
  match tasks, results with
  | task :: tasks', r :: results' =>
      SubagentOrchestrator.enrich task (accumulated seen)
      :: effectiveFrom (seen ++ [r]) tasks' results'
  | _, _ => []
  end.










(** The parts of the state that the task store and the handlers leave alone:
    subscriptions, registry, environment counters, outgoing calls. *)
Definition envOf {W} (s : Sys W) :=
  (eventHandlers s, agents s, (uuidCount s, fetchCount s, mcpCount s),
   oracle s, calls s).

(** ** Concrete states for the examples *)

(** An environment whose identifiers are [task-0], [task-1], ...; the Spark
    backend fails its second request and answers every other one; the MCP
    client reports a failure for its second call only. *)
Definition demoOracle : Oracle.t :=
  {| Oracle.uuid_at := fun n => ("task-" ++ string_of_nat n)%string;
     Oracle.fetch_at := fun n =>
       match n with
       | 1 => inl (ErrorObj "fetch failed")
       | _ => inr (Response.mk true (inr "")
                     (inr (JObject [("output", JString "built")])))
       end;
     Oracle.mcp_at := fun n =>
       match n with
       | 1 => MCPResponse.mk false JUndefined (Some "tool failed")
       | _ => MCPResponse.mk true (JString "done") None
       end |}.

Definition emptySys {W} (w : W) (o : Oracle.t) : Sys W :=
  mkSys JsMap.empty [] JsMap.empty 0 0 0 0 o [] w [].

Definition demoInit : TaskInit.t :=
  {| TaskInit.name := "Test Task";
     TaskInit.description := Some "A test task";
     TaskInit.type := mcp;
     TaskInit.parentId := None;
     TaskInit.metadata := JUndefined;
     TaskInit.result := JUndefined;
     TaskInit.error := None;
     TaskInit.startedAt := None;
     TaskInit.completedAt := None |}.

(** A store holding one task, freshly created and still pending. *)
Definition sysPending : Sys unit :=
  finalState (TaskManager.create demoInit (emptySys tt demoOracle)).

(** [finish] straight after [create], then [start] on the finished task. *)
Definition sysFinished : Sys unit :=
  finalState (TaskManager.finish "task-0" (JString "r") sysPending).

Definition sysRestarted : Sys unit :=
  finalState (TaskManager.start "task-0" sysFinished).

(** Two subscribers: the first throws on every event, the second records
    the events it is given. *)
Definition throwingHandler : TaskEventHandler (list TaskEvent.t) :=
  mkHandler 1 (fun _ w => (w, Some (ErrorObj "boom"))).

Definition recordingHandler : TaskEventHandler (list TaskEvent.t) :=
  mkHandler 2 (fun event w => (w ++ [event], None)).

Definition sysThrowing : Sys (list TaskEvent.t) :=
  with_eventHandlers [throwingHandler; recordingHandler]
    (emptySys [] demoOracle).



(** The agents of the registry test ([tests/subagents.test.ts]). *)
Definition mockAgent : Subagent.t :=
  Subagent.mk "test-agent" "Test Agent" "A test agent" ["code"; "testing"]
              available JUndefined.

Definition fullAgent : Subagent.t :=
  Subagent.mk "full-agent" "Test Agent" "A test agent"
              ["code"; "testing"; "aesthetics"] available JUndefined.

Definition designAgent : Subagent.t :=
  Subagent.mk "design-agent" "Test Agent" "A test agent" ["aesthetics"]
              available JUndefined.

Definition twinAgent : Subagent.t :=
  Subagent.mk "twin-agent" "Test Agent" "A test agent" ["testing"; "code"]
              available JUndefined.

Definition sysRegistry : Sys unit :=
  finalState
    ((SubagentRegistry.register mockAgent ;;;
      SubagentRegistry.register twinAgent ;;;
      SubagentRegistry.register fullAgent) (emptySys tt demoOracle)).

(** The actions of the orchestrator test and of the design document. *)
Definition checkoutAction : PlanAction.t :=
  PlanAction.mk "3" "Checkout" "Develop and test the checkout flow"
                (ActionTarget.mk target_subagent None None) [] None None.


Definition plainAction : PlanAction.t :=
  PlanAction.mk "4" "Greet" "Say hello" (ActionTarget.mk target_subagent None None)
                [] None None.

Definition explicitAction : PlanAction.t :=
  PlanAction.mk "5" "Build UI" "Create user interface"
                (ActionTarget.mk target_subagent None (Some "spark-agent"))
                [("capabilities", JArray [JString "mcp"; JString "mcp"])]
                None None.

(** Work items and states for the delegation examples. *)
Definition workOn (name : string) (capabilities : list SubagentCapability)
  : SubagentTask.t :=
  SubagentTask.mk None name ("Do " ++ name)%string capabilities None None.

Definition demoWorks : list SubagentTask.t :=
  [workOn "Research" ["research"]; workOn "Build" ["code"];
   workOn "Paint" ["watercolour"]].

(** The registry after the orchestrator's constructor, no subscriber. *)
Definition sysSpark : Sys unit :=
  finalState (SubagentOrchestrator.constructor (emptySys tt demoOracle)).

(** A store with one subscriber, which records the events it is given, and
    the registry after the orchestrator's constructor with that subscriber. *)
Definition sysRecording : Sys (list TaskEvent.t) :=
  with_eventHandlers [recordingHandler] (emptySys [] demoOracle).

Definition sysSparkRecording : Sys (list TaskEvent.t) :=
  finalState (SubagentOrchestrator.constructor sysRecording).

(** The same, with the throwing and the recording subscriber. *)
Definition sysSparkThrowing : Sys (list TaskEvent.t) :=
  finalState (SubagentOrchestrator.constructor sysThrowing).



(** A sequence whose first item finds no executor. *)
Definition demoSequence : list SubagentTask.t :=
  [workOn "Paint" ["watercolour"]; workOn "Research" ["research"];
   workOn "Build" ["code"]].



Definition toolAction (id : string) (order : option Z) : PlanAction.t :=
  PlanAction.mk id ("Tool " ++ id)%string "Call the tool"
                (ActionTarget.mk target_mcp (Some "files") None)
                [] order None.

Definition orderedPlan : MultiActionPlan.t :=
  MultiActionPlan.mk "plan-2" "Ordered" "Four steps"
    [toolAction "a" (Some 2%Z); toolAction "b" None;
     toolAction "c" (Some 0%Z); toolAction "d" (Some 1%Z)]
    JUndefined.


(** ** Further notions used by the properties of Part III *)

(** Every task is stored under its own id. *)
Definition wellKeyed {W} (s : Sys W) : Prop :=
  forall key task, JsMap.get key (tasks s) = Some task -> Task.id task = key.

(** An [update] that does not move the [id] of the task stored under
    [taskId]. *)
Definition keepsId (op : TaskManager.Mutator) (taskId : string) : Prop :=
  match op with
  | TaskManager.Update progress =>
      PartialTask.id progress = None \/ PartialTask.id progress = Some taskId
  | _ => True
  end.

(** The handler references that a list of deliveries mentions. *)
Definition deliveredTo (log : list Delivery) : list nat :=
  map (fun d => match d with Delivered ref _ => ref end) log.

Definition deliveredEvents (log : list Delivery) : list TaskEvent.t :=
  map (fun d => match d with Delivered _ event => event end) log.


(** [part] is [whole] with some elements left out, the rest in order. *)
Inductive subsequence {A : Type} : list A -> list A -> Prop :=
| subsequence_nil : subsequence [] []
| subsequence_skip x part whole :
    subsequence part whole -> subsequence part (x :: whole)
| subsequence_keep x part whole :
    subsequence part whole -> subsequence (x :: part) (x :: whole).

(** The Spark agent's descriptor is registered under its id. *)
Definition sparkRegistered {W} (s : Sys W) : Prop :=
  JsMap.get "spark-agent" (agents s) = Some SparkAgentClient.getAgentConfig.

(** The registry with the availability of each descriptor replaced. *)
Definition withStatus (status : SubagentStatus) (agent : Subagent.t)
  : Subagent.t :=
  {| Subagent.id := Subagent.id agent;
     Subagent.name := Subagent.name agent;
     Subagent.description := Subagent.description agent;
     Subagent.capabilities := Subagent.capabilities agent;
     Subagent.status := status;
     Subagent.metadata := Subagent.metadata agent |}.

(** ** Plugins ([src/types/plugin.ts]) and [PluginRegistry]
    (the second part of [src/lib/tasks/lifecycle.ts]) *)

Inductive PluginType : Type :=
| type_command | type_agent | type_hook | type_skill | type_mcp_server.

Inductive HookEvent : Type :=
| task_created | task_started | task_completed | task_failed
| plan_generated | plan_executed | agent_registered | mcp_connected.

Definition hookEventEqb (a b : HookEvent) : bool :=
  match a, b with
  | task_created, task_created | task_started, task_started
  | task_completed, task_completed | task_failed, task_failed
  | plan_generated, plan_generated | plan_executed, plan_executed
  | agent_registered, agent_registered | mcp_connected, mcp_connected => true
  | _, _ => false
  end.

#[export] Instance KeyEq_HookEvent : KeyEq HookEvent :=
  {| keqb := hookEventEqb;
     keqb_spec := ltac:(intros a b; destruct a, b; simpl; constructor;
                        congruence) |}.

Module PluginManifest.
Record t : Type := mk {
  id : string;
  name : string;
  version : string;
  description : string;
  provides : list PluginType
}.
End PluginManifest.

(** The plugins. [ref] stands for the identity of the plugin object (what
    [h !== plugin] compares); the [execute], [connect] and [disconnect]
    functions, which the registry never calls, are left out. *)
Module CommandPlugin.
Record t : Type := mk {
  ref : nat;
  name : string;
  description : string
}.
End CommandPlugin.

Module AgentPlugin.
Record t : Type := mk {
  ref : nat;
  id : string;
  name : string;
  description : string;
  capabilities : list string;
  systemPrompt : string
}.
End AgentPlugin.

Module SkillPlugin.
Record t : Type := mk {
  ref : nat;
  name : string;
  description : string;
  triggers : option (list string)
}.
End SkillPlugin.

Module MCPServerPlugin.
Record t : Type := mk {
  ref : nat;
  id : string;
  name : string;
  description : string;
  url : option string
}.
End MCPServerPlugin.

Section Plugins.
Context {W : Type}.

(** A hook's handler works on the hooks' own world [W] and may throw. *)
Record HookPlugin : Type := mkHook {
  hookRef : nat;
  hookEvents : list HookEvent;
  hookPriority : option Z;
  hookHandler : HookEvent -> JsValue -> W -> W * option Thrown
}.

Inductive Plugin : Type :=
| PCommand (plugin : CommandPlugin.t)
| PAgent (plugin : AgentPlugin.t)
| PHook (plugin : HookPlugin)
| PSkill (plugin : SkillPlugin.t)
| PMcpServer (plugin : MCPServerPlugin.t).

Record RegisteredPlugin : Type := mkRegistered {
  manifest : PluginManifest.t;
  plugins : list Plugin;
  enabled : bool
}.

Record PluginRegistry : Type := mkPluginRegistry {
  packages : JsMap.t string RegisteredPlugin;
  commands : JsMap.t string CommandPlugin.t;
  agentPlugins : JsMap.t string AgentPlugin.t;
  hooks : JsMap.t HookEvent (list HookPlugin);
  skills : JsMap.t string SkillPlugin.t;
  mcpServers : JsMap.t string MCPServerPlugin.t
}.

Definition emptyPluginRegistry : PluginRegistry :=
  mkPluginRegistry JsMap.empty JsMap.empty JsMap.empty JsMap.empty
                   JsMap.empty JsMap.empty.

(** [a.priority || 100]: an absent priority and priority [0] both count
    as 100. *)
Definition effectivePriority (h : HookPlugin) : Z :=
  match hookPriority h with
  | Some p => if Z.eqb p 0 then 100%Z else p
  | None => 100%Z
  end.

(** [hooks.sort((a, b) => (a.priority || 100) - (b.priority || 100))]: the
    stable sort by effective priority, as an insertion sort. *)
Fixpoint insertHook (h : HookPlugin) (sorted : list HookPlugin)
  : list HookPlugin :=
  match sorted with
  | [] => [h]
  | first :: rest =>
      if (effectivePriority h <? effectivePriority first)%Z
      then h :: first :: rest
      else first :: insertHook h rest
  end.

Definition sortHooks (l : list HookPlugin) : list HookPlugin :=
  fold_left (fun sorted h => insertHook h sorted) l [].

Definition getHooks (event : HookEvent) (registry : PluginRegistry)
  : list HookPlugin :=
  match JsMap.get event (hooks registry) with
  | Some l => l
  | None => []
  end.

Definition with_hooks (x : JsMap.t HookEvent (list HookPlugin))
  (registry : PluginRegistry) : PluginRegistry :=
  mkPluginRegistry (packages registry) (commands registry)
    (agentPlugins registry) x (skills registry) (mcpServers registry).

(** The [for] loop of the ['hook'] case of [registerPlugin]. *)
Definition registerHook (plugin : HookPlugin)
  (table : JsMap.t HookEvent (list HookPlugin))
  : JsMap.t HookEvent (list HookPlugin) :=
  fold_left
    (fun table event =>
       let hooks := match JsMap.get event table with
                    | Some l => l
                    | None => []
                    end in
       JsMap.set event (sortHooks (hooks ++ [plugin])) table)
    (hookEvents plugin) table.

Definition registerPlugin (registry : PluginRegistry) (plugin : Plugin)
  : PluginRegistry :=
  match plugin with
  | PCommand c =>
      mkPluginRegistry (packages registry)
        (JsMap.set (CommandPlugin.name c) c (commands registry))
        (agentPlugins registry) (hooks registry) (skills registry)
        (mcpServers registry)
  | PAgent a =>
      mkPluginRegistry (packages registry) (commands registry)
        (JsMap.set (AgentPlugin.id a) a (agentPlugins registry))
        (hooks registry) (skills registry) (mcpServers registry)
  | PHook h => with_hooks (registerHook h (hooks registry)) registry
  | PSkill k =>
      mkPluginRegistry (packages registry) (commands registry)
        (agentPlugins registry) (hooks registry)
        (JsMap.set (SkillPlugin.name k) k (skills registry))
        (mcpServers registry)
  | PMcpServer m =>
      mkPluginRegistry (packages registry) (commands registry)
        (agentPlugins registry) (hooks registry) (skills registry)
        (JsMap.set (MCPServerPlugin.id m) m (mcpServers registry))
  end.

(** [register(manifest, plugins)]: throws for a package id that is already
    registered, before anything is changed. *)
Definition registerPackage (manifest : PluginManifest.t)
  (plugins : list Plugin) (registry : PluginRegistry)
  : Thrown + PluginRegistry :=
  if JsMap.has (PluginManifest.id manifest) (packages registry)
  then inl (ErrorObj ("Plugin " ++ PluginManifest.id manifest
                      ++ " is already registered")%string)
  else
    let registry :=
      mkPluginRegistry
        (JsMap.set (PluginManifest.id manifest)
                   (mkRegistered manifest plugins true) (packages registry))
        (commands registry) (agentPlugins registry) (hooks registry)
        (skills registry) (mcpServers registry) in
    inr (fold_left registerPlugin plugins registry).

(** The [for] loop of the ['hook'] case of [unregisterPlugin]. *)
Definition unregisterHook (plugin : HookPlugin)
  (table : JsMap.t HookEvent (list HookPlugin))
  : JsMap.t HookEvent (list HookPlugin) :=
  fold_left
    (fun table event =>
       let hooks := match JsMap.get event table with
                    | Some l => l
                    | None => []
                    end in
       JsMap.set event
         (filter (fun h => negb (Nat.eqb (hookRef h) (hookRef plugin))) hooks)
         table)
    (hookEvents plugin) table.

Definition unregisterPlugin (registry : PluginRegistry) (plugin : Plugin)
  : PluginRegistry :=
  match plugin with
  | PCommand c =>
      mkPluginRegistry (packages registry)
        (JsMap.delete (CommandPlugin.name c) (commands registry))
        (agentPlugins registry) (hooks registry) (skills registry)
        (mcpServers registry)
  | PAgent a =>
      mkPluginRegistry (packages registry) (commands registry)
        (JsMap.delete (AgentPlugin.id a) (agentPlugins registry))
        (hooks registry) (skills registry) (mcpServers registry)
  | PHook h => with_hooks (unregisterHook h (hooks registry)) registry
  | PSkill k =>
      mkPluginRegistry (packages registry) (commands registry)
        (agentPlugins registry) (hooks registry)
        (JsMap.delete (SkillPlugin.name k) (skills registry))
        (mcpServers registry)
  | PMcpServer m =>
      mkPluginRegistry (packages registry) (commands registry)
        (agentPlugins registry) (hooks registry) (skills registry)
        (JsMap.delete (MCPServerPlugin.id m) (mcpServers registry))
  end.

Definition unregisterPackage (pluginId : string) (registry : PluginRegistry)
  : bool * PluginRegistry :=
  match JsMap.get pluginId (packages registry) with
  | None => (false, registry)
  | Some pkg =>
      let registry := fold_left unregisterPlugin (plugins pkg) registry in
      (true,
       mkPluginRegistry (JsMap.delete pluginId (packages registry))
         (commands registry) (agentPlugins registry) (hooks registry)
         (skills registry) (mcpServers registry))
  end.

Definition setEnabled (pluginId : string) (flag : bool)
  (registry : PluginRegistry) : bool * PluginRegistry :=
  match JsMap.get pluginId (packages registry) with
  | None => (false, registry)
  | Some pkg =>
      (true,
       mkPluginRegistry
         (JsMap.set pluginId (mkRegistered (manifest pkg) (plugins pkg) flag)
                    (packages registry))
         (commands registry) (agentPlugins registry) (hooks registry)
         (skills registry) (mcpServers registry))
  end.

Definition getCommand (name : string) (registry : PluginRegistry) :=
  JsMap.get name (commands registry).
Definition getAgent (id : string) (registry : PluginRegistry) :=
  JsMap.get id (agentPlugins registry).
Definition getSkill (name : string) (registry : PluginRegistry) :=
  JsMap.get name (skills registry).
Definition getMCPServer (id : string) (registry : PluginRegistry) :=
  JsMap.get id (mcpServers registry).

(** What running hooks leaves behind: the hooks' world, what
    [context.logger.error] was given (the logger is taken not to throw), and
    as ghost the hooks that were called. *)
Record HookRun : Type := mkHookRun {
  hookWorld : W;
  hookErrors : list (HookEvent * Thrown);
  hookCalls : list nat
}.

(** The [for] loop of [executeHooks], with its [try]/[catch] per hook. *)
Fixpoint runHooks (hooksOfEvent : list HookPlugin) (event : HookEvent)
  (data : JsValue) (run : HookRun) : HookRun :=
  match hooksOfEvent with
  | [] => run
  | hook :: rest =>
      let called := hookCalls run ++ [hookRef hook] in
      match hookHandler hook event data (hookWorld run) with
      | (w, None) =>
          runHooks rest event data (mkHookRun w (hookErrors run) called)
      | (w, Some error) =>
          runHooks rest event data
            (mkHookRun w (hookErrors run ++ [(event, error)]) called)
      end
  end.

Definition executeHooks (event : HookEvent) (data : JsValue)
  (registry : PluginRegistry) (run : HookRun) : HookRun :=
  runHooks (getHooks event registry) event data run.

(** The hook lists of the registry are in order of effective priority. *)
Definition byPriority (a b : HookPlugin) : Prop :=
  (effectivePriority a <= effectivePriority b)%Z.

Definition hooksInOrder (registry : PluginRegistry) : Prop :=
  forall event l,
    JsMap.get event (hooks registry) = Some l -> StronglySorted byPriority l.

Definition tableInOrder
  (table : JsMap.t HookEvent (list HookPlugin)) : Prop :=
  forall event,
    StronglySorted byPriority
      (match JsMap.get event table with Some l => l | None => [] end).

(** The name tables of a registry hold each name once. *)
Definition namesOnce (registry : PluginRegistry) : Prop :=
  NoDup (JsMap.keys (packages registry)) /\
  NoDup (JsMap.keys (commands registry)) /\
  NoDup (JsMap.keys (agentPlugins registry)) /\
  NoDup (JsMap.keys (skills registry)) /\
  NoDup (JsMap.keys (mcpServers registry)).

End Plugins.

Arguments HookPlugin : clear implicits.
Arguments Plugin : clear implicits.
Arguments RegisteredPlugin : clear implicits.
Arguments PluginRegistry : clear implicits.
Arguments HookRun : clear implicits.

(** The states of a registry that starts as [new PluginRegistry()] and is
    used through its public methods. *)
Inductive reachable {W : Type} : PluginRegistry W -> Prop :=
| reachable_new : reachable emptyPluginRegistry
| reachable_register registry manifest plugins registry' :
    reachable registry ->
    registerPackage manifest plugins registry = inr registry' ->
    reachable registry'
| reachable_unregister registry pluginId :
    reachable registry ->
    reachable (snd (unregisterPackage pluginId registry))
| reachable_setEnabled registry pluginId flag :
    reachable registry ->
    reachable (snd (setEnabled pluginId flag registry)).

(** A small registry for the examples: one package with three hooks on
    [task_created], registered in the order 1, 2, 3, and a command. *)
Definition exampleHook (ref : nat) (priority : option Z)
  (events : list HookEvent) : HookPlugin unit :=
  mkHook ref events priority (fun _ _ w => (w, None)).

Definition exampleManifest (id : string) : PluginManifest.t :=
  PluginManifest.mk id id "1.0.0" "" [type_hook; type_command].

Definition examplePlugins : list (Plugin unit) :=
  [PHook (exampleHook 1 (Some 200%Z) [task_created; task_failed]);
   PHook (exampleHook 2 None [task_created]);
   PHook (exampleHook 3 (Some 0%Z) [task_created]);
   PCommand (CommandPlugin.mk 4 "deploy" "")].

Definition exampleRegistry : PluginRegistry unit :=
  match registerPackage (exampleManifest "first") examplePlugins
          emptyPluginRegistry with
  | inr registry => registry
  | inl _ => emptyPluginRegistry
  end.

(** ** Plain objects *)

(** A plain object [{}] (one whose prototype is [Object.prototype]), as its
    own properties read by key; the order of the keys is not modelled.
    [obj[key] = value] creates or overwrites the own property [key], except
    for the key [__proto__]: that assignment goes to the setter inherited
    from [Object.prototype] and creates no own property. *)
Definition PlainObject : Type := string -> option JsValue.

Definition emptyObject : PlainObject := fun _ => None.

Definition assign (key : string) (value : JsValue) (obj : PlainObject)
  : PlainObject :=
  if String.eqb key "__proto__" then obj
  else fun k => if String.eqb k key then Some value else obj k.

(** ** [MCPClient] (the second part of [src/lib/subagents/spark-agent.ts]) *)

Module MCPServer.
Record t : Type := mk {
  id : string;
  name : string;
  url : string;
  description : option string;
  capabilities : option (list string)
}.
End MCPServer.

(** What [executeAction] resolves to. At run time [error] is whatever
    [data.error] is, so it is a value and not only a string; [data] is absent
    on the two paths that do not set it. *)
Module McpReply.
Record t : Type := mk {
  success : bool;
  data : option JsValue;
  error : JsValue
}.
End McpReply.

(** A request of the client: [POST <url>] with the [Authorization] header
    (if any) and the action in the body, or a plain [GET <url>]. *)
Module McpRequest.
Inductive t : Type :=
| Post (url : string) (authorization : option string) (action : string)
       (parameters : list (string * JsValue))
| Get (url : string).
End McpRequest.

Module MCPClient.

Record t : Type := mk {
  servers : JsMap.t string MCPServer.t;
  authToken : option string
}.

Definition registerServer (server : MCPServer.t) (client : t) : t :=
  mk (JsMap.set (MCPServer.id server) server (servers client))
     (authToken client).

(** [...(this.authToken && { Authorization: `Bearer ${this.authToken}` })]:
    no header for a missing or empty token. *)
Definition authorizationHeader (client : t) : option string :=
  match authToken client with
  | Some token =>
      if String.eqb token "" then None else Some ("Bearer " ++ token)%string
  | None => None
  end.

(** [this.servers.get(action.serverId)]; the keys of the map are strings, so
    a missing [serverId] finds nothing. *)
Definition serverOf (client : t) (action : MCPAction.t)
  : option MCPServer.t :=
  match MCPAction.serverId action with
  | Some id => JsMap.get id (servers client)
  | None => None
  end.

(** [`${action.serverId}`] *)
Definition serverIdText (action : MCPAction.t) : string :=
  match MCPAction.serverId action with
  | Some id => id
  | None => "undefined"
  end.

Definition executeRequest (client : t) (server : MCPServer.t)
  (action : MCPAction.t) : McpRequest.t :=
  McpRequest.Post (MCPServer.url server ++ "/execute")%string
    (authorizationHeader client) (MCPAction.name action)
    (MCPAction.parameters action).

Section Network.
(** The network answers each request; the answer to a request does not
    depend on the other requests of the same call. *)
Variable fetch : McpRequest.t -> FetchOutcome.

(** The body of the [try] block of [executeAction]. *)
Definition executeActionTry (request : McpRequest.t) : Thrown + McpReply.t :=
  match fetch request with
  | inl e => inl e
  | inr response =>
      match Response.json response with
      | inl e => inl e
      | inr data =>
          if Response.ok response
          then inr (McpReply.mk true (Some data) JUndefined)
          else
            match getProp data "error" with
            | inl e => inl e
            | inr error => inr (McpReply.mk false (Some data) error)
            end
      end
  end.

(** [executeAction(action)]: the requests that were sent, and the outcome of
    the promise ([inl] for a rejection). *)
Definition executeAction (client : t) (action : MCPAction.t)
  : list McpRequest.t * (Thrown + McpReply.t) :=
  match serverOf client action with
  | None =>
      ([],
       inr (McpReply.mk false None
              (JString ("MCP server not found: " ++ serverIdText action))))
  | Some server =>
      let request := executeRequest client server action in
      ([request],
       match executeActionTry request with
       | inr reply => inr reply
       | inl error =>
           inr (McpReply.mk false None
                  (JString (messageOr "Unknown error" error)))
       end)
  end%string.

(** [data.tools || []] in the [try] block of [getAvailableTools]. *)
Definition toolsTry (server : MCPServer.t) : Thrown + JsValue :=
  match fetch (McpRequest.Get (MCPServer.url server ++ "/tools")%string) with
  | inl e => inl e
  | inr response =>
      match Response.json response with
      | inl e => inl e
      | inr data =>
          match getProp data "tools" with
          | inl e => inl e
          | inr tools => inr (if truthy tools then tools else JArray [])
          end
      end
  end.

Definition toolsOf (server : MCPServer.t) : JsValue :=
  match toolsTry server with
  | inr tools => tools
  | inl _ => JArray []
  end.

(** [getAvailableTools()]: the loop over the servers fills the plain object
    [tools]. *)
Definition getAvailableTools (client : t) : PlainObject :=
  fold_left
    (fun tools entry => assign (fst entry) (toolsOf (snd entry)) tools)
    (JsMap.entries (servers client)) emptyObject.

End Network.

(** The clients that [new MCPClient(token)] and [registerServer] give. *)
Inductive built : t -> Prop :=
| built_new token : built (mk JsMap.empty token)
| built_register server client :
    built client -> built (registerServer server client).

End MCPClient.

(** ** The registration API of a plugin context
    ([createPluginContext] in [src/lib/plugins/loader.ts]) *)

Section PluginApi.
Context {W : Type}.

Definition dynamicManifest (id name : string) (kind : PluginType)
  : PluginManifest.t :=
  PluginManifest.mk id name "1.0.0" "" [kind].

Definition registerCommand (cmd : CommandPlugin.t)
  (registry : PluginRegistry W) : Thrown + PluginRegistry W :=
  registerPackage
    (dynamicManifest ("dynamic-" ++ CommandPlugin.name cmd)
       (CommandPlugin.name cmd) type_command)
    [PCommand cmd] registry.

Definition registerAgent (agent : AgentPlugin.t)
  (registry : PluginRegistry W) : Thrown + PluginRegistry W :=
  registerPackage
    (dynamicManifest ("dynamic-" ++ AgentPlugin.id agent)
       (AgentPlugin.name agent) type_agent)
    [PAgent agent] registry.

(** [now] is what [Date.now()] gives at the call. *)
Definition registerHookAt (now : nat) (hook : HookPlugin W)
  (registry : PluginRegistry W) : Thrown + PluginRegistry W :=
  registerPackage
    (dynamicManifest ("dynamic-hook-" ++ string_of_nat now) "Hook" type_hook)
    [PHook hook] registry.

Definition registerSkill (skill : SkillPlugin.t)
  (registry : PluginRegistry W) : Thrown + PluginRegistry W :=
  registerPackage
    (dynamicManifest ("dynamic-" ++ SkillPlugin.name skill)
       (SkillPlugin.name skill) type_skill)
    [PSkill skill] registry.

Definition registerMCPServer (server : MCPServerPlugin.t)
  (registry : PluginRegistry W) : Thrown + PluginRegistry W :=
  registerPackage
    (dynamicManifest ("dynamic-" ++ MCPServerPlugin.id server)
       (MCPServerPlugin.name server) type_mcp_server)
    [PMcpServer server] registry.

(** A call of the API, and the package id it registers under. *)
Inductive ApiCall : Type :=
| CallRegisterCommand (cmd : CommandPlugin.t)
| CallRegisterAgent (agent : AgentPlugin.t)
| CallRegisterHook (now : nat) (hook : HookPlugin W)
| CallRegisterSkill (skill : SkillPlugin.t)
| CallRegisterMCPServer (server : MCPServerPlugin.t).

Definition callApi (call : ApiCall) (registry : PluginRegistry W)
  : Thrown + PluginRegistry W :=
  match call with
  | CallRegisterCommand cmd => registerCommand cmd registry
  | CallRegisterAgent agent => registerAgent agent registry
  | CallRegisterHook now hook => registerHookAt now hook registry
  | CallRegisterSkill skill => registerSkill skill registry
  | CallRegisterMCPServer server => registerMCPServer server registry
  end.

Definition dynamicId (call : ApiCall) : string :=
  match call with
  | CallRegisterCommand cmd => "dynamic-" ++ CommandPlugin.name cmd
  | CallRegisterAgent agent => "dynamic-" ++ AgentPlugin.id agent
  | CallRegisterHook now _ => "dynamic-hook-" ++ string_of_nat now
  | CallRegisterSkill skill => "dynamic-" ++ SkillPlugin.name skill
  | CallRegisterMCPServer server => "dynamic-" ++ MCPServerPlugin.id server
  end.

End PluginApi.

Arguments ApiCall : clear implicits.

(** The states that a registry can go through after [registry] while the
    package [kept] is not unregistered: any packages are registered, other
    packages are unregistered, any package is enabled or disabled. *)
Inductive laterKeeping {W : Type} (kept : string) (registry : PluginRegistry W)
  : PluginRegistry W -> Prop :=
| later_now : laterKeeping kept registry registry
| later_register current manifest plugins next :
    laterKeeping kept registry current ->
    registerPackage manifest plugins current = inr next ->
    laterKeeping kept registry next
| later_unregister current pluginId :
    laterKeeping kept registry current ->
    pluginId <> kept ->
    laterKeeping kept registry (snd (unregisterPackage pluginId current))
| later_setEnabled current pluginId flag :
    laterKeeping kept registry current ->
    laterKeeping kept registry (snd (setEnabled pluginId flag current)).

(** ** The subagent configuration loader
    ([src/lib/subagents/config-loader.ts]) *)

(** [s.endsWith(suffix)]: some tail of [s] is [suffix]. *)
Fixpoint endsWith (s suffix : string) : bool :=
  if String.eqb s suffix then true
  else match s with
       | EmptyString => false
       | String _ rest => endsWith rest suffix
       end.

(** [typeof v === 'string'], [typeof v === 'object'], [Array.isArray(v)] *)
Definition isString (v : JsValue) : bool :=
  match v with JString _ => true | _ => false end.

Definition typeofObject (v : JsValue) : bool :=
  match v with JNull | JArray _ | JObject _ => true | _ => false end.

Definition isArray (v : JsValue) : bool :=
  match v with JArray _ => true | _ => false end.

(** What is written to the console: [console.warn(message, detail?)] and
    [console.debug(message)]. *)
Inductive LogEntry : Type :=
| Warned (message : string) (detail : option Thrown)
| Debugged (message : string).

Module ConfigLoader.

Definition DEFAULT_AGENTS_DIR : string := ".gemini/agents".

Definition validateConfig (config : JsValue) : bool :=
  if (negb (truthy config) || negb (typeofObject config))%bool then false
  else
    let c := config in
    if (negb (isString (propOr c "id")) || negb (truthy (propOr c "id")))%bool
    then false
    else if (negb (isString (propOr c "name"))
             || negb (truthy (propOr c "name")))%bool
    then false
    else if negb (isString (propOr c "description")) then false
    else if negb (isString (propOr c "systemPrompt")) then false
    else if negb (isArray (propOr c "capabilities")) then false
    else true.

Section Files.
(** The file system, [JSON.parse] and [path.join]; the directory does not
    change while it is loaded. *)
Variable readdir : string -> Thrown + list string.
Variable readFile : string -> Thrown + string.
Variable parse : string -> Thrown + JsValue.
Variable join : string -> string -> string.

(** [loadConfigFile(filePath)]: what it writes to the console, and its
    outcome; [null] for a file that is not JSON. *)
Definition loadConfigFile (filePath : string)
  : list LogEntry * (Thrown + JsValue) :=
  match readFile filePath with
  | inl e => ([], inl e)
  | inr content =>
      if endsWith filePath ".json" then ([], parse content)
      else ([Warned ("YAML config files not yet supported: " ++ filePath)%string
                    None],
            inr JNull)
  end.

Definition isConfigFile (f : string) : bool :=
  (endsWith f ".json" || endsWith f ".yaml" || endsWith f ".yml")%bool.

(** One round of the loop over the configuration files. *)
Definition loadOne (agentsDir : string)
  (sofar : list LogEntry * list JsValue) (file : string)
  : list LogEntry * list JsValue :=
  let (log, configs) := sofar in
  match loadConfigFile (join agentsDir file) with
  | (said, inr config) =>
      if (truthy config && validateConfig config)%bool
      then (log ++ said, configs ++ [config])
      else (log ++ said, configs)
  | (said, inl error) =>
      (log ++ said
       ++ [Warned ("Failed to load subagent config: " ++ file)%string
                  (Some error)],
       configs)
  end.

(** [loadSubagentConfigs(options)]: what it writes to the console, and the
    configurations; [agentsDir] is [options.agentsDir]. *)
Definition loadSubagentConfigs (agentsDir : option string)
  : list LogEntry * list JsValue :=
  let agentsDir :=
    match agentsDir with
    | Some dir => if String.eqb dir "" then DEFAULT_AGENTS_DIR else dir
    | None => DEFAULT_AGENTS_DIR
    end in
  match readdir agentsDir with
  | inl _ =>
      ([Debugged ("Agents directory not found: " ++ agentsDir)%string], [])
  | inr files =>
      fold_left (loadOne agentsDir) (filter isConfigFile files) ([], [])
  end.

End Files.

(** What a loaded configuration has to look like. *)
Definition acceptable (config : JsValue) : Prop :=
  exists fields id name description systemPrompt capabilities,
    config = JObject fields /\
    JsMap.get "id" fields = Some (JString id) /\ id <> "" /\
    JsMap.get "name" fields = Some (JString name) /\ name <> "" /\
    JsMap.get "description" fields = Some (JString description) /\
    JsMap.get "systemPrompt" fields = Some (JString systemPrompt) /\
    JsMap.get "capabilities" fields = Some (JArray capabilities).

End ConfigLoader.

(** ** [SparkAgentClient.executeStream]
    ([src/lib/subagents/spark-agent.ts]) *)

(** What the streaming request resolves to: the status, and the body, which
    is [null] or a stream. Of a stream we keep the decoded chunks that
    [reader.read()] gives one after the other, and how reading ends: with
    [done] ([None]) or with a rejection. *)
Module StreamResponse.
Record t : Type := mk {
  ok : bool;
  body : option (list string * option Thrown)
}.
End StreamResponse.

(** [s.split(sep)] for a separator of one character. *)
Fixpoint splitOn (sep : ascii) (s : string) : list string :=
  match s with
  | EmptyString => [EmptyString]
  | String c rest =>
      if Ascii.eqb c sep then EmptyString :: splitOn sep rest
      else match splitOn sep rest with
           | first :: others => String c first :: others
           | [] => [String c EmptyString]
           end
  end.

(** [chunk.split('\n').filter(Boolean)] *)
Definition eventsOf (chunk : string) : list string :=
  filter (fun line => negb (String.eqb line ""))
         (splitOn (ascii_of_nat 10) chunk).

Module SparkStream.
Section Defs.
Context {W : Type}.
Local Abbreviation M := (M W).

(** [JSON.parse] *)
Variable parse : string -> Thrown + JsValue.

Definition streamingInit (task : SubagentTask.t) : TaskInit.t :=
  {| TaskInit.name := ("Spark: " ++ SubagentTask.name task)%string;
     TaskInit.description := Some (SubagentTask.prompt task);
     TaskInit.type := subagent;
     TaskInit.parentId := None;
     TaskInit.metadata :=
       JObject [("subagentId", JString "spark-agent");
                ("streaming", JBool true)];
     TaskInit.result := JUndefined;
     TaskInit.error := None;
     TaskInit.startedAt := None;
     TaskInit.completedAt := None |}.

(** [{ metadata: { lastEvent: data } }] *)
Definition lastEventProgress (data : JsValue) : PartialTask.t :=
  {| PartialTask.id := None;
     PartialTask.name := None;
     PartialTask.description := None;
     PartialTask.type := None;
     PartialTask.status := None;
     PartialTask.parentId := None;
     PartialTask.metadata := Some (JObject [("lastEvent", data)]);
     PartialTask.result := None;
     PartialTask.error := None;
     PartialTask.createdAt := None;
     PartialTask.startedAt := None;
     PartialTask.completedAt := None |}.

Definition yieldedResult (taskId : string) (content type : JsValue)
  : SubagentResult.t :=
  {| SubagentResult.success := true;
     SubagentResult.taskId := taskId;
     SubagentResult.output := content;
     SubagentResult.artifacts := JUndefined;
     SubagentResult.error := None;
     SubagentResult.metadata := JObject [("type", type)] |}.

Definition failureResult (taskId : string) (errorMessage : string)
  : SubagentResult.t :=
  {| SubagentResult.success := false;
     SubagentResult.taskId := taskId;
     SubagentResult.output := JUndefined;
     SubagentResult.artifacts := JUndefined;
     SubagentResult.error := Some errorMessage;
     SubagentResult.metadata := JUndefined |}.

(** The body of the [for] loop over the events of a chunk, with its
    [try]/[catch]; the value is what it yields. *)
Definition streamEvent (taskId : string) (event : string)
  : M (list SubagentResult.t) :=
  tryCatch
    (data <- SparkAgentClient.await (parse event) ;;
     TaskManager.update taskId (lastEventProgress data) ;;;
     content <- SparkAgentClient.await (getProp data "content") ;;
     type <- SparkAgentClient.await (getProp data "type") ;;
     ret [yieldedResult taskId content type])
    (fun _ => ret []).

Fixpoint streamEvents (taskId : string) (events : list string)
  : M (list SubagentResult.t) :=
  match events with
  | [] => ret []
  | event :: rest =>
      yielded <- streamEvent taskId event ;;
      more <- streamEvents taskId rest ;;
      ret (yielded ++ more)
  end.

(** The [while] loop, for the chunks that are read before reading ends. *)
Fixpoint streamChunks (taskId : string) (chunks : list string)
  : M (list SubagentResult.t) :=
  match chunks with
  | [] => ret []
  | chunk :: rest =>
      yielded <- streamEvents taskId (eventsOf chunk) ;;
      more <- streamChunks taskId rest ;;
      ret (yielded ++ more)
  end.

(** The [try] block: what was yielded in it, and the exception that left
    it, if any. *)
Definition streamTry (taskId : string) (answer : Thrown + StreamResponse.t)
  : M (list SubagentResult.t * option Thrown) :=
  match answer with
  | inl e => ret ([], Some e)
  | inr response =>
      match StreamResponse.ok response, StreamResponse.body response with
      | true, Some (chunks, ending) =>
          yielded <- streamChunks taskId chunks ;;
          match ending with
          | Some e => ret (yielded, Some e)
          | None =>
              tryCatch
                (TaskManager.finish taskId JUndefined ;;; ret (yielded, None))
                (fun e => ret (yielded, Some e))
          end
      | _, _ => ret ([], Some (ErrorObj "Failed to start streaming"))
      end
  end.

(** [executeStream(task)], consumed to its end by a consumer that does not
    use the task manager: the value is the list of the results yielded.
    [answer] is what the request to [/api/execute/stream] resolves to. If
    the generator rejects, the computation throws. *)
Definition executeStream (task : SubagentTask.t)
  (answer : Thrown + StreamResponse.t) : M (list SubagentResult.t) :=
  internalTask <- TaskManager.create (streamingInit task) ;;
  TaskManager.start (Task.id internalTask) ;;;
  outcome <- streamTry (Task.id internalTask) answer ;;
  match outcome with
  | (yielded, None) => ret yielded
  | (yielded, Some error) =>
      let errorMessage := messageOr "Stream error" error in
      TaskManager.error (Task.id internalTask) errorMessage ;;;
      ret (yielded ++ [failureResult (Task.id internalTask) errorMessage])
  end.

(** What the stream means: its events, in order, and the exception that
    ends the [try] block, if any, when no handler throws. *)
Definition streamedEvents (answer : Thrown + StreamResponse.t)
  : list string :=
  match answer with
  | inl _ => []
  | inr response =>
      match StreamResponse.ok response, StreamResponse.body response with
      | true, Some (chunks, _) => flat_map eventsOf chunks
      | _, _ => []
      end
  end.

Definition streamFailure (answer : Thrown + StreamResponse.t)
  : option Thrown :=
  match answer with
  | inl e => Some e
  | inr response =>
      match StreamResponse.ok response, StreamResponse.body response with
      | true, Some (_, ending) => ending
      | _, _ => Some (ErrorObj "Failed to start streaming")
      end
  end.

(** The result that one event yields, if any. *)
Definition eventResult (taskId : string) (event : string)
  : list SubagentResult.t :=
  match parse event with
  | inl _ => []
  | inr data =>
      match getProp data "content", getProp data "type" with
      | inr content, inr type => [yieldedResult taskId content type]
      | _, _ => []
      end
  end.

(** The tracking task after the events: each event that parses replaces the
    metadata. *)
Definition afterEvent (task : Task.t) (event : string) : Task.t :=
  match parse event with
  | inl _ => task
  | inr data => TaskManager.merged_task task (lastEventProgress data)
  end.

Definition afterEvents (task : Task.t) (events : list string) : Task.t :=
  fold_left afterEvent events task.

End Defs.
End SparkStream.

(** The data of the last event that [JSON.parse] accepts, if any. *)
Definition lastParsed (parse : string -> Thrown + JsValue)
  (events : list string) : option JsValue :=
  fold_left
    (fun found event =>
       match parse event with
       | inr data => Some data
       | inl _ => found
       end)
    events None.

(** A stream for the examples: two chunks with three lines, of which the
    first parses to an object, the second does not parse and the third is
    [null]. *)
Definition exampleParse (line : string) : Thrown + JsValue :=
  if String.eqb line "1"
  then inr (JObject [("content", JString "hello"); ("type", JString "text")])
  else if String.eqb line "null" then inr JNull
  else inl (ErrorObj "Unexpected token").

Definition exampleChunks : list string :=
  [("1" ++ String (ascii_of_nat 10) "oops")%string; "null"].

(** A subscriber that throws on every [updated] event and on nothing
    else. *)
Definition updateHater : TaskEventHandler (list TaskEvent.t) :=
  mkHandler 3
    (fun event w =>
       match TaskEvent.type event with
       | updated => (w, Some (ErrorObj "no updates"))
       | _ => (w, None)
       end).

(** * Part II: properties *)

(** ** Facts about insertion-ordered maps *)

Lemma keqb_refl {K} `{KeyEq K} (k : K) : keqb k k = true.
Proof. destruct (keqb_spec k k); congruence. Qed.

Lemma keqb_neq {K} `{KeyEq K} (a b : K) : a <> b -> keqb a b = false.
Proof. destruct (keqb_spec a b); congruence. Qed.

Section JsMapFacts.
Context {K V : Type} `{KeyEq K}.
Implicit Types (m : JsMap.t K V) (k : K) (v : V).
Import JsMap.

Lemma get_set_same k v m : get k (set k v m) = Some v.
Proof.
  induction m as [|[k' v'] m IH]; simpl.
  - now rewrite keqb_refl.
  - destruct (keqb k k') eqn:E; simpl.
    + now rewrite keqb_refl.
    + now rewrite E.
Qed.

Lemma get_set_other k k' v m : k' <> k -> get k' (set k v m) = get k' m.
Proof.
  intros Hne. induction m as [|[k0 v0] m IH]; simpl.
  - now rewrite (keqb_neq Hne).
  - destruct (keqb_spec k k0) as [->|Hk]; simpl.
    + now rewrite (keqb_neq Hne).
    + now rewrite IH.
Qed.

Lemma get_In k v m : get k m = Some v -> In (k, v) m.
Proof.
  induction m as [|[k' v'] m IH]; simpl; [discriminate|].
  destruct (keqb_spec k k') as [->|Hk].
  - intros [= ->]. now left.
  - intros Hg. right. now apply IH.
Qed.

Lemma get_None_keys k m : get k m = None <-> ~ In k (keys m).
Proof.
  induction m as [|[k' v'] m IH]; simpl; [tauto|].
  destruct (keqb_spec k k') as [->|Hk].
  - split; [discriminate|]. intros Hn. exfalso. apply Hn. now left.
  - rewrite IH. split.
    + intros Hn [Heq|Hin]; [congruence | tauto].
    + tauto.
Qed.

Lemma keys_set_present k v m :
  In k (keys m) -> keys (set k v m) = keys m.
Proof.
  induction m as [|[k' v'] m IH]; simpl; [tauto|].
  destruct (keqb_spec k k') as [->|Hk]; simpl; [reflexivity|].
  intros [Heq|Hin]; [congruence|]. now rewrite IH.
Qed.

Lemma set_absent k v m :
  get k m = None -> set k v m = m ++ [(k, v)].
Proof.
  induction m as [|[k' v'] m IH]; simpl; [reflexivity|].
  destruct (keqb k k'); [discriminate|].
  intros Hg. now rewrite IH.
Qed.

Lemma keys_set_NoDup k v m : NoDup (keys m) -> NoDup (keys (set k v m)).
Proof.
  intros Hnd. destruct (get k m) eqn:Hg.
  - rewrite keys_set_present; [assumption|].
    destruct (in_dec (fun a b => reflect_dec _ _ (keqb_spec a b)) k (keys m))
      as [Hin|Hn]; [assumption|].
    apply get_None_keys in Hn. congruence.
  - rewrite (set_absent v Hg). unfold keys. rewrite map_app. simpl.
    apply NoDup_app_remove_l with (l := []). simpl.
    apply Permutation_NoDup with (l := k :: map fst m).
    + apply Permutation_cons_append.
    + constructor; [|assumption]. now apply get_None_keys.
Qed.

Lemma set_set k v1 v2 m : set k v2 (set k v1 m) = set k v2 m.
Proof.
  induction m as [|[k' v'] m IH]; simpl.
  - now rewrite keqb_refl.
  - destruct (keqb k k') eqn:E; simpl.
    + now rewrite keqb_refl.
    + now rewrite E, IH.
Qed.

Lemma keys_set k v m :
  keys (set k v m) = if has k m then keys m else keys m ++ [k].
Proof.
  unfold has. induction m as [|[k' v'] m IH]; simpl; [reflexivity|].
  destruct (keqb_spec k k') as [->|Hk]; simpl; [reflexivity|].
  rewrite IH. now destruct (get k m).
Qed.

End JsMapFacts.

(** ** The task store *)

Section TaskStoreFacts.
Context {W : Type}.
Implicit Types (s : Sys W) (event : TaskEvent.t).
Import TaskManager.

Lemma sameStore_refl s : sameStore s s.
Proof. reflexivity. Qed.

Lemma sameStore_trans s1 s2 s3 :
  sameStore s1 s2 -> sameStore s2 s3 -> sameStore s1 s3.
Proof. unfold sameStore. congruence. Qed.

Lemma invoke_sameStore h event s :
  sameStore s (finalState (invoke h event s)).
Proof.
  unfold invoke. destruct (handlerFn h event _) as [w [e|]]; reflexivity.
Qed.

Lemma forEach_sameStore hs event s :
  sameStore s (finalState (forEach hs event s)).
Proof.
  revert s. induction hs as [|h hs IH]; intros s; simpl.
  - apply sameStore_refl.
  - unfold bind. pose proof (invoke_sameStore h event s) as Hi.
    destruct (invoke h event s) as [[] s1|e s1]; simpl in *.
    + eapply sameStore_trans; [exact Hi | apply IH].
    + exact Hi.
Qed.

Lemma emit_sameStore event s : sameStore s (finalState (emit event s)).
Proof. apply forEach_sameStore. Qed.

(** The deliveries of a loop over the handlers: all of them when the loop
    returns, those up to the first handler that throws otherwise. *)
Lemma forEach_trace hs event s :
  match forEach hs event s with
  | Returned _ s' => trace s' = trace s ++ deliveries hs event
  | Threw e s' =>
      exists pre h post w,
        hs = pre ++ h :: post /\
        trace s' = trace s ++ deliveries (pre ++ [h]) event /\
        handlerFn h event w = (world s', Some e)
  end.
Proof.
  revert s. induction hs as [|h hs IH]; intros s; simpl.
  - now rewrite app_nil_r.
  - unfold bind, invoke. simpl.
    destruct (handlerFn h event (world s)) as [w' [e|]] eqn:Hh; simpl.
    + exists [], h, hs, (world s). simpl. repeat split. exact Hh.
    + match goal with |- context [forEach hs event ?s1] =>
        specialize (IH s1); destruct (forEach hs event s1) as [[] s2|e s2]
      end; simpl in IH.
      * rewrite IH, <- app_assoc. reflexivity.
      * destruct IH as (pre & h' & post & w & Hhs & Htr & Hthrow).
        exists (h :: pre), h', post, w. subst hs. simpl.
        repeat split; [|exact Hthrow].
        rewrite Htr, <- app_assoc. reflexivity.
Qed.

Lemma forEach_quiet hs event s :
  quiet hs -> exists s', forEach hs event s = Returned tt s'.
Proof.
  revert s. induction hs as [|h hs IH]; intros s Hq; simpl.
  - now eexists.
  - unfold bind, invoke.
    pose proof (Hq h event (world s) (or_introl eq_refl)) as Hh.
    simpl. destruct (handlerFn h event (world s)) as [w' o]. simpl in Hh.
    subst o. apply IH. intros h' ev w Hin. apply Hq. now right.
Qed.

Lemma emit_quiet event s :
  quiet (eventHandlers s) ->
  exists s', emit event s = Returned tt s' /\ sameStore s s'.
Proof.
  intros Hq. destruct (forEach_quiet event s Hq) as [s' Hs'].
  exists s'. split; [exact Hs'|].
  pose proof (emit_sameStore event s) as H. unfold emit in H.
  now rewrite Hs' in H.
Qed.

End TaskStoreFacts.

(** *** C7 *)

Lemma mutator_unknown_noop {W} (s : Sys W) (op : TaskManager.Mutator)
  (taskId : string) :
  JsMap.get taskId (tasks s) = None ->
  TaskManager.apply op taskId s = Returned None s.
Proof.
  intros Hget.
  destruct op; simpl;
    unfold TaskManager.start, TaskManager.update, TaskManager.finish,
      TaskManager.error, bind, TaskManager.tasksGet;
    rewrite Hget; reflexivity.
Qed.

(** C7. For an id that the store does not hold, each of [start], [update],
    [finish] and [error] returns nothing ([undefined]); it does not throw,
    it calls no handler, and the whole state (store, handlers' world, clock,
    trace) is exactly the one before the call. *)
Theorem mutator_unknown_id_noop {W} (s : Sys W) (op : TaskManager.Mutator)
  (taskId : string) :
  JsMap.get taskId (tasks s) = None ->
  TaskManager.apply op taskId s = Returned None s.
Proof.
  intros Hget. destruct op; simpl.
  - unfold TaskManager.start, bind, TaskManager.tasksGet. now rewrite Hget.
  - unfold TaskManager.update, bind, TaskManager.tasksGet. now rewrite Hget.
  - unfold TaskManager.finish, bind, TaskManager.tasksGet. now rewrite Hget.
  - unfold TaskManager.error, bind, TaskManager.tasksGet. now rewrite Hget.
Qed.

Lemma mutator_unknown_id_noop_witness :
  TaskManager.apply TaskManager.Start "missing" sysPending
  = Returned None sysPending.
Proof. apply mutator_unknown_id_noop. reflexivity. Defined.

(** *** C1 *)

Lemma apply_known_tasks {W} (s : Sys W) op taskId task :
  JsMap.get taskId (tasks s) = Some task ->
  tasks (finalState (TaskManager.apply op taskId s))
  = JsMap.set taskId (written op task (clock s)) (tasks s).
Proof.
  intros Hget.
  destruct op; simpl;
    unfold TaskManager.start, TaskManager.update, TaskManager.finish,
      TaskManager.error, bind, TaskManager.tasksGet;
    rewrite Hget; simpl;
    match goal with |- context [TaskManager.emit ?ev ?s1] =>
      pose proof (emit_sameStore ev s1) as Ht;
      destruct (TaskManager.emit ev s1) as [[] s2|e s2]
    end; simpl in *; apply (f_equal (fun c => fst (fst (fst (fst (fst (fst c))))))) in Ht;
    exact Ht.
Qed.

(** C1 (as the code has it). The store does not guard transitions. For a
    task that the store holds, each mutator writes its record whatever the
    current status is: [start] makes it running, [finish] completed, [error]
    failed, and [update] merges the given fields. [start], [finish] and
    [error] keep the task's id, name, description, type, parentId, metadata
    and createdAt, and no mutator touches any other task of the store. *)
Theorem mutators_apply_unconditionally {W} (s : Sys W)
  (op : TaskManager.Mutator) (taskId : string) (task : Task.t) :
  JsMap.get taskId (tasks s) = Some task ->
  let s' := finalState (TaskManager.apply op taskId s) in
  let task' := written op task (clock s) in
  JsMap.get taskId (tasks s') = Some task' /\
  (forall other, other <> taskId ->
     JsMap.get other (tasks s') = JsMap.get other (tasks s)) /\
  Task.status task' =
    match op with
    | TaskManager.Start => running
    | TaskManager.Finish _ => completed
    | TaskManager.Error _ => failed
    | TaskManager.Update progress =>
        TaskManager.orElse (PartialTask.status progress) (Task.status task)
    end /\
  match op with
  | TaskManager.Update _ => True
  | _ => Task.id task' = Task.id task /\ Task.name task' = Task.name task /\
         Task.description task' = Task.description task /\
         Task.type task' = Task.type task /\
         Task.parentId task' = Task.parentId task /\
         Task.metadata task' = Task.metadata task /\
         Task.createdAt task' = Task.createdAt task
  end.
Proof.
  intros Hget s' task'. subst s'.
  rewrite (apply_known_tasks op Hget). fold task'.
  split; [apply get_set_same|].
  split; [intros other Hne; now apply get_set_other|].
  subst task'. destruct op; simpl; repeat split.
Qed.

Lemma mutators_apply_unconditionally_witness :
  JsMap.get "task-0"
    (tasks (finalState (TaskManager.apply TaskManager.Start "task-0" sysFinished)))
  = Some (written TaskManager.Start
            (TaskManager.finished_task
               (Task.mk "task-0" "Test Task" (Some "A test task") mcp pending
                        None JUndefined JUndefined None 0 None None)
               1 (JString "r"))
            (clock sysFinished)).
Proof.
  refine (proj1 (@mutators_apply_unconditionally unit sysFinished
                   TaskManager.Start "task-0" _ _)).
  reflexivity.
Defined.

(** C1 fails as stated: [finish] moves a pending task straight to
    [completed], and [start] then takes the completed task back to
    [running]. *)
Lemma pending_to_completed_to_running :
  option_map Task.status (JsMap.get "task-0" (tasks sysPending)) = Some pending /\
  option_map Task.status (JsMap.get "task-0" (tasks sysFinished)) = Some completed /\
  option_map Task.status (JsMap.get "task-0" (tasks sysRestarted)) = Some running.
Proof. repeat split. Qed.

(** *** C3 *)






(** ** The capability registry *)

Section RegistryFacts.
Import SubagentRegistry.
Variable required : list SubagentCapability.
Local Abbreviation bestSoFar := (bestSoFar required).

Lemma nth_error_snoc {A} (l : list A) (x : A) j b :
  nth_error (l ++ [x]) j = Some b ->
  (j < List.length l /\ nth_error l j = Some b) \/ (j = List.length l /\ b = x).
Proof.
  intros Hn. destruct (Nat.lt_ge_cases j (List.length l)) as [Hlt|Hge].
  - left. rewrite nth_error_app1 in Hn by assumption. now split.
  - right. rewrite nth_error_app2 in Hn by assumption.
    destruct (j - List.length l) as [|k] eqn:Hk; simpl in Hn.
    + injection Hn as <-. split; [lia | reflexivity].
    + destruct k; discriminate.
Qed.

Lemma bestSoFar_step seen agent best bestScore :
  bestSoFar seen best bestScore ->
  let sc := score required agent in
  if (bestScore <? sc)%nat
  then bestSoFar (seen ++ [agent]) (Some agent) sc
  else bestSoFar (seen ++ [agent]) best bestScore.
Proof.
  intros Hinv sc. destruct (Nat.ltb_spec bestScore sc) as [Hlt|Hge].
  - (* the new agent beats everything seen *)
    simpl. split; [reflexivity|]. split; [lia|].
    exists (List.length seen). split.
    + rewrite nth_error_app2 by lia. now rewrite Nat.sub_diag.
    + assert (Hprev : forall j b, nth_error seen j = Some b ->
                                  score required b <= bestScore).
      { destruct best as [a|]; simpl in Hinv.
        - destruct Hinv as (_ & _ & i & _ & Hmax & _). exact Hmax.
        - destruct Hinv as [-> Hz]. intros j b Hj.
          rewrite (Hz b (nth_error_In _ _ Hj)). lia. }
      split.
      * intros j b Hj. apply nth_error_snoc in Hj as [[_ Hj]|[_ ->]].
        -- apply Hprev in Hj. lia.
        -- fold sc. lia.
      * intros j b Hjlt Hj. rewrite nth_error_app1 in Hj by assumption.
        apply Hprev in Hj. lia.
  - (* the best so far stays *)
    destruct best as [a|]; simpl in *.
    + destruct Hinv as (Hbs & Hpos & i & Hi & Hmax & Hbefore).
      split; [assumption|]. split; [assumption|].
      exists i. split.
      * rewrite nth_error_app1; [assumption|].
        apply nth_error_Some. congruence.
      * split.
        -- intros j b Hj. apply nth_error_snoc in Hj as [[_ Hj]|[_ ->]].
           ++ now apply Hmax with j.
           ++ exact Hge.
        -- intros j b Hjlt Hj.
           assert (i < List.length seen) by (apply nth_error_Some; congruence).
           rewrite nth_error_app1 in Hj by lia. now apply Hbefore with j.
    + destruct Hinv as [-> Hz]. split; [reflexivity|].
      intros a Hin. apply in_app_or in Hin as [Hin|[<-|[]]].
      * now apply Hz.
      * fold sc. lia.
Qed.

Lemma scan_bestSoFar rest seen best bestScore :
  bestSoFar seen best bestScore ->
  bestSoFar (seen ++ rest)
            (fst (scan required rest best bestScore))
            (snd (scan required rest best bestScore)).
Proof.
  revert seen best bestScore.
  induction rest as [|agent rest IH]; intros seen best bestScore Hinv; simpl.
  - now rewrite app_nil_r.
  - pose proof (bestSoFar_step agent Hinv) as Hstep. simpl in Hstep.
    replace (seen ++ agent :: rest) with ((seen ++ [agent]) ++ rest)
      by (rewrite <- app_assoc; reflexivity).
    destruct (bestScore <? score required agent)%nat; now apply IH.
Qed.

End RegistryFacts.

(** *** C2 *)

(** The code's score is the count of the design document. *)
Lemma includes_In (capabilities : list SubagentCapability)
  (capability : SubagentCapability) :
  SubagentRegistry.includes capabilities capability = true
  <-> In capability capabilities.
Proof.
  unfold SubagentRegistry.includes. rewrite existsb_exists. split.
  - intros (c & Hin & Heq). apply String.eqb_eq in Heq. now subst c.
  - intros Hin. exists capability. split; [exact Hin | apply String.eqb_refl].
Qed.

Lemma score_satisfiedCount (required : list SubagentCapability)
  (agent : Subagent.t) :
  SubagentRegistry.score required agent = satisfiedCount required agent.
Proof.
  unfold SubagentRegistry.score.
  induction required as [|capability rest IH]; simpl; [reflexivity|].
  destruct (in_dec string_dec capability (Subagent.capabilities agent))
    as [Hin|Hout].
  - apply includes_In in Hin. rewrite Hin. simpl. now rewrite IH.
  - destruct (SubagentRegistry.includes (Subagent.capabilities agent) capability)
      eqn:Hinc.
    + apply includes_In in Hinc. contradiction.
    + exact IH.
Qed.

(** C2. Over the registered descriptors in registration order,
    [findBestMatch] never throws and leaves the state alone. With the score
    of a descriptor being the number of required capabilities that are among
    its capabilities ([satisfiedCount]), it returns nothing exactly when every
    registered descriptor has score 0; otherwise it returns a registered
    descriptor with a positive score that no registered descriptor exceeds,
    and every descriptor registered before it has a strictly smaller score,
    so among descriptors that tie on the highest score the one registered
    first is returned. *)
Theorem findBestMatch_spec {W} (s : Sys W) (required : list SubagentCapability) :
  let registered := JsMap.values (agents s) in
  exists best,
    SubagentRegistry.findBestMatch required s = Returned best s /\
    match best with
    | None =>
        forall a, In a registered -> satisfiedCount required a = 0
    | Some a =>
        0 < satisfiedCount required a /\
        exists i, nth_error registered i = Some a /\
          (forall j b, nth_error registered j = Some b ->
             satisfiedCount required b <= satisfiedCount required a) /\
          (forall j b, j < i -> nth_error registered j = Some b ->
             satisfiedCount required b < satisfiedCount required a)
    end.
Proof.
  intros registered. eexists. split; [reflexivity|].
  unfold SubagentRegistry.bestOf. fold registered.
  assert (Hinit : bestSoFar required [] None 0).
  { simpl. split; [reflexivity|]. intros a []. }
  pose proof (scan_bestSoFar registered Hinit) as H. simpl in H.
  destruct (SubagentRegistry.scan required registered None 0) as [[a|] bs];
    simpl in *.
  - destruct H as (-> & Hpos & i & Hi & Hmax & Hbefore).
    rewrite score_satisfiedCount in Hpos.
    split; [assumption|]. exists i. split; [assumption|]. split.
    + intros j b Hj. rewrite <- !score_satisfiedCount. now apply Hmax with j.
    + intros j b Hlt Hj. rewrite <- !score_satisfiedCount.
      now apply Hbefore with j.
  - destruct H as [_ Hz]. intros a Hin. rewrite <- score_satisfiedCount.
    now apply Hz.
Qed.

(** The example of the design document and of the test suite. *)
Example findBestMatch_prefers_full_agent :
  SubagentRegistry.bestOf ["code"; "testing"; "aesthetics"] [mockAgent; fullAgent]
  = Some fullAgent.
Proof. reflexivity. Qed.

Example findBestMatch_disjoint_is_nothing :
  SubagentRegistry.bestOf ["research"; "mcp"] [mockAgent; designAgent] = None.
Proof. reflexivity. Qed.

Example findBestMatch_tie_first_registered :
  SubagentRegistry.findBestMatch ["code"; "testing"] sysRegistry
  = Returned (Some mockAgent) sysRegistry.
Proof. reflexivity. Qed.

(** ** Strings and capability inference *)

Lemma prefix_app (p s : string) :
  String.prefix p s = true <-> exists rest, s = (p ++ rest)%string.
Proof.
  revert s. induction p as [|c p IH]; intros s.
  - split; [intros _; now exists s | intros _; now destruct s].
  - destruct s as [|c' s']; simpl.
    + split; [discriminate | intros [rest Hr]; discriminate].
    + destruct (Ascii.ascii_dec c c') as [->|Hne].
      * rewrite IH. split; intros [rest Hr]; exists rest; congruence.
      * split; [discriminate|]. intros [rest Hr]. congruence.
Qed.

Lemma includes_unfold (text search : string) :
  includes text search
  = if String.prefix search text then true
    else match text with
         | EmptyString => false
         | String _ rest => includes rest search
         end.
Proof. destruct text; reflexivity. Qed.

Lemma includes_occurs (text search : string) :
  includes text search = true <->
  exists before after, text = (before ++ search ++ after)%string.
Proof.
  induction text as [|c text IH]; rewrite includes_unfold.
  - destruct (String.prefix search "") eqn:Hp.
    + split; [intros _|reflexivity].
      apply prefix_app in Hp as [rest Hr]. now exists "", rest.
    + split; [discriminate|]. intros (before & after & Heq).
      destruct before; simpl in Heq; [|discriminate].
      assert (String.prefix search "" = true)
        by (apply prefix_app; now exists after).
      congruence.
  - destruct (String.prefix search (String c text)) eqn:Hp.
    + split; [intros _|reflexivity].
      apply prefix_app in Hp as [rest Hr]. now exists "", rest.
    + rewrite IH. split.
      * intros (before & after & ->). now exists (String c before), after.
      * intros (before & after & Heq). destruct before as [|c' before].
        -- simpl in Heq.
           assert (String.prefix search (String c text) = true)
             by (apply prefix_app; now exists after).
           congruence.
        -- simpl in Heq. injection Heq as _ ->. now exists before, after.
Qed.

Lemma toLowerCase_app (a b : string) :
  toLowerCase (a ++ b) = (toLowerCase a ++ toLowerCase b)%string.
Proof. induction a as [|c a IH]; simpl; [reflexivity | now rewrite IH]. Qed.

Lemma toLowerCase_split (raw a b : string) :
  toLowerCase raw = (a ++ b)%string ->
  exists a' b', raw = (a' ++ b')%string /\
                toLowerCase a' = a /\ toLowerCase b' = b.
Proof.
  revert raw. induction a as [|c a IH]; intros raw Heq; simpl in Heq.
  - now exists "", raw.
  - destruct raw as [|c' raw]; simpl in Heq; [discriminate|].
    injection Heq as Hc Hrest. destruct (IH raw Hrest) as (a' & b' & -> & Ha & Hb).
    exists (String c' a'), b'. simpl. repeat split; congruence.
Qed.

(** Lower-casing a text gives [search], a text without upper-case letters,
    exactly when the two are the same up to the case of letters. *)
Lemma lowerChar_sameLetter (c : ascii) : sameLetter c (lowerChar c).
Proof.
  unfold sameLetter, upperOf, lowerChar.
  destruct (Nat.leb_spec 65 (nat_of_ascii c)); simpl; [|now left].
  destruct (Nat.leb_spec (nat_of_ascii c) 90); simpl; [|now left].
  right. right. split; [lia|].
  apply nat_ascii_embedding. pose proof (nat_ascii_bounded c). lia.
Qed.

Lemma sameLetter_lowerChar (c d : ascii) :
  negb ((65 <=? nat_of_ascii d)%nat && (nat_of_ascii d <=? 90)%nat) = true ->
  sameLetter c d -> lowerChar c = d.
Proof.
  intros Hd Hsame. apply negb_true_iff in Hd.
  unfold lowerChar. destruct Hsame as [<-|[[Hup _]|[Hup Hcode]]].
  - now rewrite Hd.
  - destruct Hup as [H1 H2]. apply Nat.leb_le in H1, H2.
    rewrite H1, H2 in Hd. discriminate.
  - destruct Hup as [H1 H2]. apply Nat.leb_le in H1, H2.
    rewrite H1, H2. simpl. rewrite <- Hcode. apply ascii_nat_embedding.
Qed.

Lemma toLowerCase_sameText (mid search : string) :
  noUpper search = true ->
  (toLowerCase mid = search <-> sameText mid search).
Proof.
  intros Hno. split.
  - intros <-. clear Hno. induction mid as [|c mid IH]; simpl.
    + constructor.
    + constructor; [apply lowerChar_sameLetter | exact IH].
  - intros Hsame. induction Hsame as [|c d m t Hcd Hmt IH]; simpl.
    + reflexivity.
    + simpl in Hno. apply andb_prop in Hno as [Hd Hno].
      now rewrite (sameLetter_lowerChar Hd Hcd), IH.
Qed.

Lemma includes_toLowerCase (raw search : string) :
  noUpper search = true ->
  (includes (toLowerCase raw) search = true <-> occursIgnoringCase raw search).
Proof.
  intros Hno. rewrite includes_occurs. unfold occursIgnoringCase. split.
  - intros (before & after & Heq).
    apply toLowerCase_split in Heq as (b' & rest & -> & Hb & Hrest).
    apply toLowerCase_split in Hrest as (m' & a' & -> & Hm & Ha).
    exists b', m', a'. split; [reflexivity|].
    now apply toLowerCase_sameText.
  - intros (before & mid & after & -> & Hsame).
    apply (toLowerCase_sameText mid Hno) in Hsame.
    exists (toLowerCase before), (toLowerCase after).
    now rewrite !toLowerCase_app, Hsame.
Qed.

(** The keywords of the table are written in lower case. *)
Lemma keywords_noUpper (keywords : list string) (tag : SubagentCapability)
  (keyword : string) :
  In (keywords, tag) keywordTable -> In keyword keywords ->
  noUpper keyword = true.
Proof.
  intros Hrow Hk. simpl in Hrow.
  repeat (destruct Hrow as [[= <- <-]|Hrow];
          [simpl in Hk; repeat (destruct Hk as [<-|Hk]; [reflexivity|]);
           contradiction|]).
  contradiction.
Qed.

Lemma matchedTags_spec (raw : string) (tag : SubagentCapability) :
  In tag (matchedTags raw) <->
  exists keywords, In (keywords, tag) keywordTable /\ groupMatches raw keywords.
Proof.
  unfold matchedTags, groupMatches. rewrite in_map_iff. split.
  - intros ([keywords tag'] & Htag & Hin). simpl in Htag. subst tag'.
    apply filter_In in Hin as [Hin Hex]. simpl in Hex.
    apply existsb_exists in Hex as (keyword & Hk & Hinc).
    exists keywords. split; [assumption|].
    exists keyword. split; [assumption|].
    now apply includes_toLowerCase; [apply keywords_noUpper with keywords tag|].
  - intros (keywords & Hin & keyword & Hk & Hocc).
    exists (keywords, tag). split; [reflexivity|].
    apply filter_In. split; [assumption|]. simpl.
    apply existsb_exists. exists keyword. split; [assumption|].
    now apply includes_toLowerCase; [apply keywords_noUpper with keywords tag|].
Qed.



(** Without an explicit list, the chain of [if]s computes the matched tags
    of the table, or the default. *)
Lemma inferCapabilities_table (action : PlanAction.t) :
  (forall explicit, JsMap.get "capabilities" (PlanAction.parameters action)
                    <> Some (JArray explicit)) ->
  inferCapabilities action
  = map JString
        (match matchedTags (PlanAction.name action ++ " "
                            ++ PlanAction.description action) with
         | [] => ["code"]
         | tags => tags
         end).
Proof.
  intros Hno. unfold inferCapabilities, matchedTags.
  set (text := toLowerCase _).
  assert (Hdefault :
    forall r, match JsMap.get "capabilities" (PlanAction.parameters action) with
              | Some (JArray explicit) => explicit
              | _ => r
              end = r).
  { intros r. destruct (JsMap.get _ _) as [[]|] eqn:Hg; try reflexivity.
    exfalso. eapply Hno. reflexivity. }
  rewrite Hdefault. simpl. rewrite !orb_false_r, <- !orb_assoc.
  destruct (includes text "code" || (includes text "build" || includes text "develop"));
  destruct (includes text "test" || includes text "verify");
  destruct (includes text "design" || (includes text "ui" || includes text "style"));
  destruct (includes text "research" || (includes text "search" || includes text "find"));
  destruct (includes text "presentation" || (includes text "slide" || includes text "ppt"));
  destruct (includes text "image" || (includes text "video" || includes text "audio"));
  reflexivity.
Qed.

(** *** C9 *)



(** The examples of the design document. *)
Example infer_develop_and_test :
  inferCapabilities checkoutAction = [JString "code"; JString "testing"].
Proof. reflexivity. Qed.

Example infer_default :
  inferCapabilities plainAction = [JString "code"].
Proof. reflexivity. Qed.

Example infer_explicit_verbatim :
  inferCapabilities explicitAction = [JString "mcp"; JString "mcp"].
Proof. reflexivity. Qed.



(** ** Running the store with handlers that do not throw *)

Section QuietFacts.
Context {W : Type}.
Implicit Types (s : Sys W).

Lemma core_fields s s' :
  core s' = core s ->
  tasks s' = tasks s /\ eventHandlers s' = eventHandlers s /\
  agents s' = agents s /\ clock s' = clock s /\
  uuidCount s' = uuidCount s /\ fetchCount s' = fetchCount s /\
  mcpCount s' = mcpCount s /\ oracle s' = oracle s /\ calls s' = calls s.
Proof. unfold core. intros [= -> -> -> -> -> -> -> -> ->]. repeat split. Qed.

Lemma create_quiet (init : TaskInit.t) s :
  quiet (eventHandlers s) ->
  let uuid := Oracle.uuid_at (oracle s) (uuidCount s) in
  let newTask := TaskManager.created_task init uuid (clock s) in
  exists s',
    TaskManager.create init s = Returned newTask s' /\
    core s' = core (with_tasks (JsMap.set uuid newTask (tasks s))
                      (with_clock (S (clock s))
                         (with_uuidCount (S (uuidCount s)) s))).
Proof.
  intros Hq uuid newTask.
  unfold TaskManager.create, bind, randomUUID, newDate, TaskManager.tasksSet.
  simpl. fold uuid. fold newTask.
  match goal with |- context [TaskManager.emit ?ev ?s1] =>
    destruct (@emit_quiet W ev s1 Hq) as (s2 & -> & Hsame)
  end.
  exists s2. split; [reflexivity | exact Hsame].
Qed.

Lemma mutator_quiet (op : TaskManager.Mutator) (taskId : string) task s :
  quiet (eventHandlers s) ->
  JsMap.get taskId (tasks s) = Some task ->
  let task' := written op task (clock s) in
  exists s',
    TaskManager.apply op taskId s = Returned (Some task') s' /\
    core s' = core (with_tasks (JsMap.set taskId task' (tasks s))
                      (with_clock
                         (match op with
                          | TaskManager.Update _ => clock s
                          | _ => S (clock s)
                          end) s)).
Proof.
  intros Hq Hget task'. subst task'.
  destruct op; simpl;
    unfold TaskManager.start, TaskManager.update, TaskManager.finish,
      TaskManager.error, bind, TaskManager.tasksGet, newDate,
      TaskManager.tasksSet; rewrite Hget; simpl;
    match goal with |- context [TaskManager.emit ?ev ?s1] =>
      destruct (@emit_quiet W ev s1 Hq) as (s2 & -> & Hsame)
    end; exists s2; (split; [reflexivity|]); rewrite Hsame;
    destruct s; reflexivity.
Qed.

Lemma envOf_core s s' : core s' = core s -> envOf s' = envOf s.
Proof. unfold core, envOf. now intros [= _ -> -> _ -> -> -> -> ->]. Qed.

Lemma quiet_envOf s s' :
  envOf s' = envOf s -> quiet (eventHandlers s) -> quiet (eventHandlers s').
Proof. unfold envOf. now intros [= -> _ _ _ _ _ _]. Qed.

(** A mutator under quiet handlers, whether the id is known or not. *)
Lemma apply_quiet (op : TaskManager.Mutator) (taskId : string) s :
  quiet (eventHandlers s) ->
  exists r s',
    TaskManager.apply op taskId s = Returned r s' /\
    envOf s' = envOf s /\
    tasks s' = match JsMap.get taskId (tasks s) with
               | Some task =>
                   JsMap.set taskId (written op task (clock s)) (tasks s)
               | None => tasks s
               end.
Proof.
  intros Hq. destruct (JsMap.get taskId (tasks s)) as [task|] eqn:Hget.
  - destruct (mutator_quiet op Hq Hget) as (s' & Hrun & Hcore).
    exists (Some (written op task (clock s))), s'.
    split; [exact Hrun|]. split.
    + now rewrite (envOf_core Hcore).
    + now apply core_fields in Hcore as (-> & _).
  - exists None, s. split; [now apply mutator_unknown_noop|]. now split.
Qed.

End QuietFacts.

(** ** Promises awaited together *)

Section PromiseAllFacts.
Context {W P A : Type}.
Variable resume : P -> M W A.
Variable settledValue : P -> A.
Variable fails : P -> bool.
Variable Inv : Sys W -> Prop.
Hypothesis resume_spec : forall q s, Inv s ->
  match resume q s with
  | Returned a s' => fails q = false /\ a = settledValue q /\ Inv s'
  | Threw e s' => fails q = true /\ Inv s'
  end.

Local Abbreviation settleOne := (settleOne settledValue).
Local Abbreviation settleAt := (settleAt settledValue).
Local Abbreviation settleIn := (settleIn settledValue).
Implicit Types (ps : list (Promise P A)).


Lemma settleAt_length i ps : List.length (settleAt i ps) = List.length ps.
Proof.
  revert i. induction ps as [|p ps IH]; intros [|i]; simpl; auto.
Qed.

Lemma settleIn_length schedule ps :
  List.length (settleIn schedule ps) = List.length ps.
Proof.
  revert ps. induction schedule as [|i schedule IH]; intros ps; simpl.
  - reflexivity.
  - unfold settleIn in *. simpl. now rewrite IH, settleAt_length.
Qed.










End PromiseAllFacts.

(** ** The Spark executor backend *)

Ltac step_mutator Hq :=
  let r := fresh "r" in
  let s1 := fresh "s" in
  let Hrun := fresh "Hrun" in
  let Henv := fresh "Henv" in
  let Ht := fresh "Htasks" in
  match goal with
  | |- context [TaskManager.finish ?i ?b ?s0] =>
      change (TaskManager.finish i b s0)
        with (TaskManager.apply (TaskManager.Finish b) i s0);
      destruct (@apply_quiet _ (TaskManager.Finish b) i s0 Hq)
        as (r & s1 & Hrun & Henv & Ht);
      rewrite Hrun
  | |- context [TaskManager.error ?i ?m ?s0] =>
      change (TaskManager.error i m s0)
        with (TaskManager.apply (TaskManager.Error m) i s0);
      destruct (@apply_quiet _ (TaskManager.Error m) i s0 Hq)
        as (r & s1 & Hrun & Henv & Ht);
      rewrite Hrun
  end.

Section SparkFacts.
Context {W : Type}.
Implicit Types (s : Sys W).

Lemma executeEnd_quiet s (internalTask : Task.t) (answer : FetchOutcome) :
  quiet (eventHandlers s) ->
  exists s',
    SparkAgentClient.executeEnd (internalTask, answer) s
    = Returned (sparkResult (Task.id internalTask) answer) s' /\
    envOf s' = envOf s /\
    forall stored, JsMap.get (Task.id internalTask) (tasks s) = Some stored ->
      exists tracked,
        tasks s' = JsMap.set (Task.id internalTask) tracked (tasks s) /\
        match backendBody answer with
        | Some body =>
            tracked = TaskManager.finished_task stored (clock s) body
        | None =>
            Task.status tracked = failed /\
            Task.error tracked
            = Some (messageOr "Unknown error" (backendFailure answer)) /\
            Task.id tracked = Task.id stored
        end.
Proof.
  intros Hq.
  unfold SparkAgentClient.executeEnd, tryCatch, bind, SparkAgentClient.await,
    throw, ret.
  destruct answer as [e|[ok text json]]; simpl.
  - step_mutator Hq. eexists. split; [reflexivity|]. split; [exact Henv|].
    intros stored Hst. rewrite Hst in Htasks. eexists. split; [exact Htasks|].
    repeat split.
  - destruct ok; simpl.
    + destruct json as [e|body]; simpl.
      * step_mutator Hq. eexists. split; [reflexivity|]. split; [exact Henv|].
        intros stored Hst. rewrite Hst in Htasks. eexists.
        split; [exact Htasks|]. repeat split.
      * step_mutator Hq.
        assert (Hq0 : quiet (eventHandlers s0)) by exact (quiet_envOf Henv Hq).
        destruct body; simpl;
          try (eexists; split; [reflexivity|]; split; [exact Henv|];
               intros stored Hst; rewrite Hst in Htasks; eexists;
               split; [exact Htasks | repeat split]).
        all: step_mutator Hq0; eexists; (split; [reflexivity|]);
          (split; [congruence|]);
          intros stored Hst; rewrite Hst in Htasks; rewrite Htasks in Htasks0;
          rewrite get_set_same, set_set in Htasks0;
          eexists; (split; [exact Htasks0|]); repeat split.
    + destruct text as [e|msg]; simpl.
      * step_mutator Hq. eexists. split; [reflexivity|]. split; [exact Henv|].
        intros stored Hst. rewrite Hst in Htasks. eexists.
        split; [exact Htasks|]. repeat split.
      * step_mutator Hq. eexists. split; [reflexivity|]. split; [exact Henv|].
        intros stored Hst. rewrite Hst in Htasks. eexists.
        split; [exact Htasks|]. repeat split.
Qed.

Lemma executeBegin_quiet s (task : SubagentTask.t) :
  quiet (eventHandlers s) ->
  let uuid := Oracle.uuid_at (oracle s) (uuidCount s) in
  let internalTask :=
    TaskManager.created_task (trackingInit task) uuid (clock s) in
  let answer := Oracle.fetch_at (oracle s) (fetchCount s) in
  exists s',
    SparkAgentClient.executeBegin task s = Returned (internalTask, answer) s' /\
    tasks s' = JsMap.set uuid (TaskManager.started_task internalTask (S (clock s)))
                 (JsMap.set uuid internalTask (tasks s)) /\
    clock s' = S (S (clock s)) /\
    eventHandlers s' = eventHandlers s /\ agents s' = agents s /\
    oracle s' = oracle s /\
    uuidCount s' = S (uuidCount s) /\ fetchCount s' = S (fetchCount s) /\
    mcpCount s' = mcpCount s /\
    calls s' = calls s ++
      [Fetched (ExecuteRequest.mk (SubagentTask.prompt task)
                  (SubagentTask.capabilities task) (SubagentTask.context task)
                  (SubagentTask.constraints task))].
Proof.
  intros Hq uuid internalTask answer.
  unfold SparkAgentClient.executeBegin, bind.
  destruct (create_quiet (trackingInit task) Hq) as (s1 & -> & Hcore1).
  fold uuid in Hcore1. fold internalTask in Hcore1. fold uuid. fold internalTask.
  apply core_fields in Hcore1 as (Ht1 & Hh1 & Ha1 & Hc1 & Hu1 & Hf1 & Hm1 & Ho1 & Hcalls1).
  simpl in *.
  assert (Hq1 : quiet (eventHandlers s1)) by now rewrite Hh1.
  assert (Hget1 : JsMap.get uuid (tasks s1) = Some internalTask)
    by (rewrite Ht1; apply get_set_same).
  destruct (mutator_quiet TaskManager.Start Hq1 Hget1) as (s2 & Hstart & Hcore2).
  simpl in Hstart. change (Task.id internalTask) with uuid. rewrite Hstart.
  apply core_fields in Hcore2 as (Ht2 & Hh2 & Ha2 & Hc2 & Hu2 & Hf2 & Hm2 & Ho2 & Hcalls2).
  simpl in *.
  unfold SparkAgentClient.fetch, ret.
  match goal with |- exists s', Returned _ ?s3 = _ /\ _ => exists s3 end.
  split.
  - unfold answer. now rewrite Ho2, Hf2, Ho1, Hf1.
  - simpl. rewrite Ht2, Hc2, Hh2, Ha2, Ho2, Hu2, Hf2, Hm2, Hcalls2.
    rewrite Ht1, Hc1, Hh1, Ha1, Ho1, Hu1, Hf1, Hm1, Hcalls1.
    repeat split.
Qed.

End SparkFacts.

(** *** C10 *)


(** ** The delegation engine *)

Section DelegationFacts.
Context {W : Type}.
Implicit Types (s : Sys W).
Import SubagentOrchestrator.

Lemma delegatedIn_app (l1 l2 : list Call) :
  delegatedIn (l1 ++ l2) = delegatedIn l1 ++ delegatedIn l2.
Proof. unfold delegatedIn. apply flat_map_app. Qed.

(** The synchronous part of [delegate] under quiet handlers. *)
Lemma delegateBegin_quiet s (task : SubagentTask.t) :
  quiet (eventHandlers s) ->
  let registered := JsMap.values (agents s) in
  let k := if routedToSpark registered task then 1 else 0 in
  exists promise s',
    delegateBegin task s = Returned promise s' /\
    settleOne delegateSettled promise
    = Fulfilled (delegateResult registered (oracle s) (uuidCount s)
                                (fetchCount s) task) /\
    eventHandlers s' = eventHandlers s /\ agents s' = agents s /\
    oracle s' = oracle s /\
    uuidCount s' = uuidCount s + k /\ fetchCount s' = fetchCount s + k /\
    delegatedIn (calls s') = delegatedIn (calls s) ++ [task].
Proof.
  intros Hq registered k. subst k.
  unfold delegateBegin, async, bind, observe, SubagentRegistry.findBestMatch,
    routedToSpark, delegateResult.
  simpl. fold registered.
  destruct (SubagentRegistry.bestOf (SubagentTask.capabilities task) registered)
    as [agent|]; simpl.
  - destruct (String.eqb (Subagent.id agent) "spark-agent"); simpl.
    + match goal with |- context [SparkAgentClient.executeBegin task ?s0] =>
        destruct (@executeBegin_quiet W s0 task Hq)
          as (s1 & -> & Ht & Hc & Hh & Ha & Ho & Hu & Hf & Hm & Hcalls)
      end.
      simpl in *. eexists _, s1. split; [reflexivity|].
      rewrite Hh, Ha, Ho, Hu, Hf, Hcalls, !delegatedIn_app. simpl.
      rewrite app_nil_r. repeat split; solve [reflexivity | lia].
    + eexists _, _. split; [reflexivity|]. simpl.
      rewrite delegatedIn_app, !Nat.add_0_r. repeat split.
  - eexists _, _. split; [reflexivity|]. simpl.
    rewrite delegatedIn_app, !Nat.add_0_r. repeat split.
Qed.

Lemma delegateEnd_quiet (inflight : Task.t * FetchOutcome) s :
  quiet (eventHandlers s) ->
  exists s',
    delegateEnd inflight s = Returned (delegateSettled inflight) s' /\
    envOf s' = envOf s.
Proof.
  intros Hq. destruct inflight as [internalTask answer].
  destruct (executeEnd_quiet internalTask answer Hq) as (s' & Hrun & Henv & _).
  exists s'. now split.
Qed.

(** [await delegate(task)] under quiet handlers. *)
Lemma delegate_quiet s (task : SubagentTask.t) :
  quiet (eventHandlers s) ->
  let registered := JsMap.values (agents s) in
  let k := if routedToSpark registered task then 1 else 0 in
  exists s',
    delegate task s
    = Returned (delegateResult registered (oracle s) (uuidCount s)
                               (fetchCount s) task) s' /\
    eventHandlers s' = eventHandlers s /\ agents s' = agents s /\
    oracle s' = oracle s /\
    uuidCount s' = uuidCount s + k /\ fetchCount s' = fetchCount s + k /\
    delegatedIn (calls s') = delegatedIn (calls s) ++ [task].
Proof.
  intros Hq registered k.
  destruct (delegateBegin_quiet task Hq)
    as (promise & s1 & Hbegin & Hsettle & Hh & Ha & Ho & Hu & Hf & Hcalls).
  unfold delegate, bind. rewrite Hbegin.
  destruct promise as [result|e|inflight]; simpl in Hsettle.
  - injection Hsettle as ->. exists s1. now repeat split.
  - discriminate.
  - injection Hsettle as Hres.
    assert (Hq1 : quiet (eventHandlers s1)) by now rewrite Hh.
    destruct (delegateEnd_quiet inflight Hq1) as (s2 & Hend & Henv).
    exists s2. rewrite Hend, Hres. split; [reflexivity|].
    unfold envOf in Henv. injection Henv as Hh2 Ha2 Hu2 Hf2 Hm2 Ho2 Hc2.
    rewrite Hh2, Ha2, Hu2, Hf2, Ho2, Hc2. now repeat split.
Qed.





End DelegationFacts.

Lemma quiet_nil {W} : quiet (@nil (TaskEventHandler W)).
Proof. intros h event w []. Qed.

Lemma quiet_recording : quiet [recordingHandler].
Proof. intros h event w [<-|[]]. reflexivity. Qed.



(** *** C8 *)




(** The three results of the example: the first item succeeds, the second
    fails with the backend, the third finds no executor. *)
Example delegateParallel_demo :
  exists s',
    SubagentOrchestrator.delegateParallel [1; 0] demoWorks sysSpark
    = Returned
        [sparkResult "task-0" (Oracle.fetch_at demoOracle 0);
         sparkResult "task-1" (Oracle.fetch_at demoOracle 1);
         SubagentOrchestrator.noSubagentFound (workOn "Paint" ["watercolour"])]
        s' /\
    map SubagentResult.success
        [sparkResult "task-0" (Oracle.fetch_at demoOracle 0);
         sparkResult "task-1" (Oracle.fetch_at demoOracle 1);
         SubagentOrchestrator.noSubagentFound (workOn "Paint" ["watercolour"])]
    = [true; false; false].
Proof. eexists. split; [vm_compute; reflexivity | reflexivity]. Qed.


(** *** C4 *)

Section SequentialFacts.
Import SubagentOrchestrator.

Lemma to_uint_nonnil (n : nat) : Nat.to_uint n <> Decimal.Nil.
Proof.
  assert (H : Nat.to_uint n = Decimal.unorm (Nat.to_uint n))
    by (rewrite <- DecimalNat.Unsigned.to_of, DecimalNat.Unsigned.of_to;
        reflexivity).
  rewrite H. apply DecimalFacts.unorm_nonnil.
Qed.

Lemma string_of_nat_inj (n m : nat) : string_of_nat n = string_of_nat m -> n = m.
Proof.
  unfold string_of_nat. intros H. apply DecimalNat.Unsigned.to_uint_inj.
  pose proof (@NilZero.usu (Nat.to_uint n) (@to_uint_nonnil n)) as Hn.
  pose proof (@NilZero.usu (Nat.to_uint m) (@to_uint_nonnil m)) as Hm.
  rewrite H in Hn. congruence.
Qed.

Lemma resultKey_inj (n m : nat) : resultKey n = resultKey m -> n = m.
Proof.
  unfold resultKey. intros H. apply string_of_nat_inj.
  simpl in H. now injection H.
Qed.

Lemma accumulatedFrom_In start results key value :
  In (key, value) (accumulatedFrom start results) <->
  exists j r, nth_error results j = Some r /\
              SubagentResult.success r = true /\
              truthy (SubagentResult.output r) = true /\
              key = resultKey (start + j) /\ value = SubagentResult.output r.
Proof.
  revert start. induction results as [|r0 rest IH]; intros start; simpl.
  - split; [intros [] | intros (j & r & Hj & _)]. now destruct j.
  - rewrite in_app_iff, IH. split.
    + intros [Hhead|(j & r & Hj & Hs & Ht & Hk & Hv)].
      * destruct (SubagentResult.success r0) eqn:Hs; simpl in Hhead;
          [|contradiction].
        destruct (truthy (SubagentResult.output r0)) eqn:Ht; simpl in Hhead;
          [|contradiction].
        destruct Hhead as [[= <- <-]|[]].
        exists 0, r0. rewrite Nat.add_0_r. now repeat split.
      * exists (S j), r. rewrite Nat.add_succ_r. now repeat split.
    + intros ([|j] & r & Hj & Hs & Ht & Hk & Hv); simpl in Hj.
      * injection Hj as ->. left. rewrite Hs, Ht. simpl. left.
        rewrite Nat.add_0_r in Hk. congruence.
      * right. exists j, r. rewrite Nat.add_succ_r in Hk. now repeat split.
Qed.

Lemma accumulatedFrom_keys start results key :
  In key (JsMap.keys (accumulatedFrom start results)) ->
  exists j, j < List.length results /\ key = resultKey (start + j).
Proof.
  unfold JsMap.keys. rewrite in_map_iff. intros ([k v] & Hk & Hin).
  simpl in Hk. subst k.
  apply accumulatedFrom_In in Hin as (j & r & Hj & _ & _ & Hkey & _).
  exists j. split; [|assumption]. apply nth_error_Some. congruence.
Qed.

Lemma accumulatedFrom_NoDup start results :
  NoDup (JsMap.keys (accumulatedFrom start results)).
Proof.
  revert start. induction results as [|r rest IH]; intros start; simpl.
  - constructor.
  - destruct (SubagentResult.success r && truthy (SubagentResult.output r))%bool;
      simpl; [|apply IH].
    constructor; [|apply IH].
    intros Hin. apply accumulatedFrom_keys in Hin as (j & _ & Hkey).
    apply resultKey_inj in Hkey. lia.
Qed.

Lemma accumulatedFrom_snoc start results r :
  accumulatedFrom start (results ++ [r])
  = accumulatedFrom start results ++
    (if (SubagentResult.success r && truthy (SubagentResult.output r))%bool
     then [(resultKey (start + List.length results), SubagentResult.output r)]
     else []).
Proof.
  revert start. induction results as [|r0 rest IH]; intros start; simpl.
  - now rewrite Nat.add_0_r, app_nil_r.
  - now rewrite IH, Nat.add_succ_r, app_assoc.
Qed.

(** The update of [accumulatedContext] in the loop body. *)
Lemma accumulated_step results r :
  (if (SubagentResult.success r && truthy (SubagentResult.output r))%bool
   then JsMap.set (resultKey (List.length (results ++ [r]) - 1))
                  (SubagentResult.output r) (accumulated results)
   else accumulated results)
  = accumulated (results ++ [r]).
Proof.
  unfold accumulated. rewrite accumulatedFrom_snoc. simpl.
  destruct (SubagentResult.success r && truthy (SubagentResult.output r))%bool.
  - rewrite length_app. simpl.
    replace (List.length results + 1 - 1) with (List.length results) by lia.
    apply set_absent. apply get_None_keys. intros Hin.
    apply accumulatedFrom_keys in Hin as (j & Hlt & Hkey).
    apply resultKey_inj in Hkey. simpl in Hkey. lia.
  - now rewrite app_nil_r.
Qed.

Lemma get_In_NoDup {V} (m : JsMap.t string V) key value :
  NoDup (JsMap.keys m) -> In (key, value) m -> JsMap.get key m = Some value.
Proof.
  induction m as [|[k v] m IH]; simpl; intros Hnd Hin; [contradiction|].
  inversion Hnd as [|? ? Hnotin Hnd']; subst.
  destruct Hin as [[= -> ->]|Hin].
  - now rewrite String.eqb_refl.
  - destruct (String.eqb_spec key k) as [->|Hne].
    + exfalso. apply Hnotin. unfold JsMap.keys.
      change k with (fst (k, value)). now apply in_map.
    + now apply IH.
Qed.

Lemma get_spread (a b : list (string * JsValue)) key :
  NoDup (JsMap.keys b) ->
  JsMap.get key (spread a b)
  = match JsMap.get key b with
    | Some v => Some v
    | None => JsMap.get key a
    end.
Proof.
  unfold spread. revert a. induction b as [|[k v] b IH]; intros a Hnd; simpl.
  - reflexivity.
  - inversion Hnd as [|? ? Hnotin Hnd']; subst. rewrite IH by assumption.
    destruct (String.eqb_spec key k) as [->|Hne].
    + assert (Hb : JsMap.get k b = None) by now apply get_None_keys.
      rewrite Hb. apply get_set_same.
    + destruct (JsMap.get key b); [reflexivity|]. now apply get_set_other.
Qed.

Lemma effectiveFrom_length seen tasks results :
  List.length results = List.length tasks ->
  List.length (effectiveFrom seen tasks results) = List.length tasks.
Proof.
  revert seen results. induction tasks as [|task tasks IH];
    intros seen [|r results] Hlen; simpl in *; try discriminate; auto.
Qed.

Lemma effectiveFrom_nth seen tasks results i task :
  List.length results = List.length tasks ->
  nth_error tasks i = Some task ->
  nth_error (effectiveFrom seen tasks results) i
  = Some (enrich task (accumulated (seen ++ firstn i results))).
Proof.
  revert seen results i. induction tasks as [|t tasks IH];
    intros seen [|r results] [|i] Hlen Hi; simpl in *; try discriminate.
  - injection Hi as ->. now rewrite app_nil_r.
  - rewrite (IH (seen ++ [r]) results i) by (assumption || lia).
    now rewrite <- app_assoc.
Qed.

Context {W : Type}.
Implicit Types (s : Sys W).

Lemma sequentialLoop_quiet (tasks : list SubagentTask.t) results s :
  quiet (eventHandlers s) ->
  exists news s',
    sequentialLoop true tasks results (accumulated results) s
    = Returned (results ++ news) s' /\
    List.length news = List.length tasks /\
    delegatedIn (calls s')
    = delegatedIn (calls s) ++ effectiveFrom results tasks news /\
    eventHandlers s' = eventHandlers s.
Proof.
  revert results s. induction tasks as [|task rest IH]; intros results s Hq.
  - exists [], s. simpl. rewrite !app_nil_r. now repeat split.
  - simpl. unfold bind.
    destruct (delegate_quiet (enrich task (accumulated results)) Hq)
      as (s1 & -> & Hh & _ & _ & _ & _ & Hcalls).
    match goal with |- context [sequentialLoop true rest (results ++ [?r])] =>
      set (r0 := r)
    end.
    rewrite (accumulated_step results r0).
    assert (Hq1 : quiet (eventHandlers s1)) by now rewrite Hh.
    destruct (IH (results ++ [r0]) s1 Hq1) as (news & s2 & -> & Hlen & Hc2 & Hh2).
    exists (r0 :: news), s2. rewrite <- app_assoc. simpl.
    split; [reflexivity|]. split; [now rewrite Hlen|].
    split; [|congruence].
    rewrite Hc2, Hcalls, <- app_assoc. reflexivity.
Qed.

End SequentialFacts.

(** C4 (as the code has it). With handlers that observe and do not throw,
    [delegateSequential] with context propagation returns one result per item
    and calls [delegate] once per item, in order, with the item's context
    spread with the accumulated context. Before item [i] the accumulated
    context holds exactly one entry for each earlier attempt [j < i] that
    succeeded with a truthy output: key [result_j], where [j] is the index
    of that attempt in the results array (failed attempts are counted), and
    value its output. A failed attempt, or one with a falsy output, has its
    slot in the results but adds no key. An accumulated key overrides the
    same key of the item's own context. *)
Theorem delegateSequential_context {W} (s : Sys W)
  (tasks : list SubagentTask.t) :
  quiet (eventHandlers s) ->
  exists results delegated s',
    SubagentOrchestrator.delegateSequential tasks true s = Returned results s' /\
    List.length results = List.length tasks /\
    delegatedIn (calls s') = delegatedIn (calls s) ++ delegated /\
    List.length delegated = List.length tasks /\
    forall i task, nth_error tasks i = Some task ->
      exists acc,
        nth_error delegated i = Some (SubagentOrchestrator.enrich task acc) /\
        (forall key value,
           JsMap.get key acc = Some value <->
           exists j r, j < i /\ nth_error results j = Some r /\
             SubagentResult.success r = true /\
             truthy (SubagentResult.output r) = true /\
             key = SubagentOrchestrator.resultKey j /\
             value = SubagentResult.output r) /\
        (forall key,
           JsMap.get key (SubagentOrchestrator.contextOf
                            (SubagentOrchestrator.enrich task acc))
           = match JsMap.get key acc with
             | Some v => Some v
             | None => JsMap.get key (SubagentOrchestrator.contextOf task)
             end).
Proof.
  intros Hq. unfold SubagentOrchestrator.delegateSequential.
  destruct (sequentialLoop_quiet tasks [] Hq)
    as (results & s' & Hrun & Hlen & Hcalls & _).
  change (accumulated []) with (@nil (string * JsValue)) in Hrun.
  simpl in Hrun.
  exists results, (effectiveFrom [] tasks results), s'.
  split; [exact Hrun|]. split; [exact Hlen|]. split; [exact Hcalls|].
  split; [now apply effectiveFrom_length|].
  intros i task Hi. exists (accumulated (firstn i results)).
  split; [now rewrite (@effectiveFrom_nth [] tasks results i task Hlen Hi)|].
  split.
  - intros key value. unfold accumulated. split.
    + intros Hget. apply get_In in Hget.
      apply accumulatedFrom_In in Hget as (j & r & Hj & Hs & Ht & Hk & Hv).
      rewrite nth_error_firstn in Hj.
      destruct (Nat.ltb_spec j i) as [Hlt|Hge]; [|discriminate].
      exists j, r. now repeat split.
    + intros (j & r & Hlt & Hj & Hs & Ht & Hk & Hv).
      apply get_In_NoDup; [apply accumulatedFrom_NoDup|].
      apply accumulatedFrom_In. exists j, r.
      rewrite nth_error_firstn, (proj2 (Nat.ltb_lt j i) Hlt).
      now repeat split.
  - intros key. simpl. apply get_spread. apply accumulatedFrom_NoDup.
Qed.

Lemma delegateSequential_context_witness :
  exists results delegated s' third,
    SubagentOrchestrator.delegateSequential demoSequence true sysSparkRecording
    = Returned results s' /\
    List.length results = 3 /\
    delegatedIn (calls s') = delegated /\
    nth_error delegated 2 = Some third /\
    JsMap.get "result_1" (SubagentOrchestrator.contextOf third)
    = Some (JString "built").
Proof.
  destruct (@delegateSequential_context _ sysSparkRecording demoSequence
              quiet_recording)
    as (results & delegated & s' & Hrun & Hlen & Hcalls & Hdl & Hnth).
  destruct (nth_error demoSequence 2) as [task|] eqn:Htask; [|discriminate].
  destruct (Hnth 2 task Htask) as (acc & Hthird & Hacc & Hctx).
  exists results, delegated, s', (SubagentOrchestrator.enrich task acc).
  split; [exact Hrun|]. split; [exact Hlen|].
  split; [exact Hcalls|]. split; [exact Hthird|].
  rewrite Hctx.
  replace (JsMap.get "result_1" acc) with (Some (JString "built"));
    [reflexivity|].
  symmetry. apply Hacc.
  vm_compute in Hrun. injection Hrun as <- _.
  eexists 1, _. split; [lia|]. split; [reflexivity|]. now repeat split.
Defined.

(** C4 fails as stated: the first attempt fails, the second succeeds with
    output ["built"]. The third item is delegated with that output under
    [result_1], its index among all attempts; as the first of the successful
    results it would be [result_0], a key its context does not have. *)
Lemma sequential_key_is_attempt_index :
  exists results s' third,
    SubagentOrchestrator.delegateSequential demoSequence true sysSpark
    = Returned results s' /\
    map SubagentResult.success results = [false; true; false] /\
    nth_error (delegatedIn (calls s')) 2 = Some third /\
    SubagentTask.context third = Some [("result_1", JString "built")] /\
    JsMap.get "result_0" (SubagentOrchestrator.contextOf third) = None.
Proof.
  eexists _, _, _. split; [vm_compute; reflexivity|].
  split; [reflexivity|]. split; [reflexivity|]. split; reflexivity.
Qed.

(** ** The plan executor *)

Section PlannerFacts.
Context {W : Type}.
Implicit Types (s : Sys W).
Import PlannerAdapter.








End PlannerFacts.

(** *** C5 *)

Section GroupFacts.
Import PlannerAdapter.













End GroupFacts.

Section PlanRunFacts.
Context {W : Type}.
Implicit Types (s : Sys W).
Import PlannerAdapter.


End PlanRunFacts.



(** The plan of the design document, orders 2, 0, 0, 1: the buckets are
    those of order 0 (two actions), 1 and 2. When every action succeeds the
    MCP client is called for them in that order and the parent task ends
    completed, as does every child. *)
Example execute_orders_2_0_0_1 :
  PlannerAdapter.groupByOrder (MultiActionPlan.actions orderedPlan)
  = [[toolAction "b" None; toolAction "c" (Some 0%Z)];
     [toolAction "d" (Some 1%Z)]; [toolAction "a" (Some 2%Z)]] /\
  exists s',
    PlannerAdapter.execute [] orderedPlan (with_mcpCount 2 sysSparkRecording)
    = Returned tt s' /\
    calls s'
    = map (fun a => McpCalled (PlannerAdapter.toMCPAction a))
        [toolAction "b" None; toolAction "c" (Some 0%Z);
         toolAction "d" (Some 1%Z); toolAction "a" (Some 2%Z)] /\
    map (fun task => (Task.id task, Task.status task)) (JsMap.values (tasks s'))
    = [("task-0", completed); ("task-1", completed); ("task-2", completed);
       ("task-3", completed); ("task-4", completed)].
Proof.
  split; [reflexivity|]. eexists. split; [vm_compute; reflexivity|].
  split; reflexivity.
Qed.


(** *** C6 *)



(** * Part III: further properties of the task store and the registry *)

Section MoreTaskStoreFacts.
Context {W : Type}.
Implicit Types (s : Sys W) (event : TaskEvent.t).
Import TaskManager.

(** What an [emit] adds to the trace, whether it returns or throws: deliveries
    of the event to subscribed handlers, and nothing else. *)
Lemma emit_trace_added event s :
  exists attempted,
    trace (finalState (emit event s)) = trace s ++ deliveries attempted event /\
    (forall h, In h attempted -> In h (eventHandlers s)) /\
    match emit event s with
    | Returned _ _ => attempted = eventHandlers s
    | Threw e s' =>
        exists h w, In h (eventHandlers s) /\
                    handlerFn h event w = (world s', Some e)
    end.
Proof.
  unfold emit. pose proof (forEach_trace (eventHandlers s) event s) as H.
  destruct (forEach (eventHandlers s) event s) as [[] s'|e s']; simpl.
  - exists (eventHandlers s). repeat split; auto.
  - destruct H as (pre & h & post & w & Hhs & Htr & Hthrow).
    exists (pre ++ [h]). split; [exact Htr|]. split.
    + intros h' Hin. rewrite Hhs. apply in_app_or in Hin as [Hin|[<-|[]]];
        apply in_or_app; [now left | right; now left].
    + exists h, w. split; [|exact Hthrow].
      rewrite Hhs. apply in_or_app. right. now left.
Qed.

Lemma create_tasks (init : TaskInit.t) s :
  tasks (finalState (create init s))
  = JsMap.set (Oracle.uuid_at (oracle s) (uuidCount s))
      (created_task init (Oracle.uuid_at (oracle s) (uuidCount s)) (clock s))
      (tasks s).
Proof.
  unfold create, bind, randomUUID, newDate, tasksSet. simpl.
  match goal with |- context [emit ?ev ?s1] =>
    pose proof (emit_sameStore ev s1) as Hs;
    destruct (emit ev s1) as [[] s2|e s2]
  end; simpl in *; apply core_fields in Hs as (Ht & _); exact Ht.
Qed.

Lemma apply_tasks (op : Mutator) (taskId : string) s :
  tasks (finalState (apply op taskId s))
  = match JsMap.get taskId (tasks s) with
    | Some task => JsMap.set taskId (written op task (clock s)) (tasks s)
    | None => tasks s
    end.
Proof.
  destruct (JsMap.get taskId (tasks s)) as [task|] eqn:Hget.
  - now apply apply_known_tasks.
  - now rewrite (mutator_unknown_noop op Hget).
Qed.

Lemma emit_quiet_trace event s :
  quiet (eventHandlers s) ->
  exists s', emit event s = Returned tt s' /\ core s' = core s /\
             trace s' = trace s ++ deliveries (eventHandlers s) event.
Proof.
  intros Hq. destruct (emit_quiet event Hq) as (s' & Hrun & Hsame).
  exists s'. split; [exact Hrun|]. split; [exact Hsame|].
  pose proof (forEach_trace (eventHandlers s) event s) as Htr.
  unfold emit in Hrun. now rewrite Hrun in Htr.
Qed.

End MoreTaskStoreFacts.


(** X1. [create] writes the new task into the store before it emits. With
    handlers that observe (they may throw, but neither call the task manager
    nor change the task they are given), after the call the store holds,
    under the identifier drawn, the new task: every field that the caller
    gave, that identifier, the status [pending] and the creation time; every
    other entry of the store is as before. The call returns that task, or
    throws what a subscribed handler threw at the [created] event, and then
    the task is stored all the same. *)
Theorem create_stores_before_emitting {W} (s : Sys W) (init : TaskInit.t) :
  let uuid := Oracle.uuid_at (oracle s) (uuidCount s) in
  let newTask :=
    Task.mk uuid (TaskInit.name init) (TaskInit.description init)
      (TaskInit.type init) pending (TaskInit.parentId init)
      (TaskInit.metadata init) (TaskInit.result init) (TaskInit.error init)
      (clock s) (TaskInit.startedAt init) (TaskInit.completedAt init) in
  let s' := finalState (TaskManager.create init s) in
  JsMap.get uuid (tasks s') = Some newTask /\
  (forall other, other <> uuid ->
     JsMap.get other (tasks s') = JsMap.get other (tasks s)) /\
  match TaskManager.create init s with
  | Returned task _ => task = newTask
  | Threw e after =>
      exists h w, In h (eventHandlers s) /\
        handlerFn h (TaskEvent.mk created newTask None) w = (world after, Some e)
  end.
Proof.
  intros uuid newTask s'. subst s'. rewrite create_tasks.
  fold uuid.
  change (TaskManager.created_task init uuid (clock s)) with newTask.
  split; [apply get_set_same|].
  split; [intros other Hne; now apply get_set_other|].
  unfold TaskManager.create, bind, randomUUID, newDate, TaskManager.tasksSet.
  simpl. fold uuid.
  change (TaskManager.created_task init uuid (clock s)) with newTask.
  match goal with |- context [TaskManager.emit ?ev ?s1] =>
    destruct (emit_trace_added ev s1) as (attempted & _ & _ & Hcase);
    destruct (TaskManager.emit ev s1) as [[] s2|e s2]
  end; simpl.
  - reflexivity.
  - exact Hcase.
Qed.

(** X2. With handlers that observe (they may throw, but do not call the
    task manager), the store keeps its tasks in creation order: [start],
    [update], [finish] and [error] never add, remove or reorder an entry,
    for a known or an unknown id and whether or not a handler throws;
    [create] appends one entry at the end when the identifier drawn is new
    (and overwrites in place when it is not). Keys stay unique. *)
Theorem store_keeps_creation_order {W} (s : Sys W) :
  (forall op taskId,
     JsMap.keys (tasks (finalState (TaskManager.apply op taskId s)))
     = JsMap.keys (tasks s)) /\
  (forall init,
     JsMap.keys (tasks (finalState (TaskManager.create init s)))
     = if JsMap.has (Oracle.uuid_at (oracle s) (uuidCount s)) (tasks s)
       then JsMap.keys (tasks s)
       else JsMap.keys (tasks s) ++ [Oracle.uuid_at (oracle s) (uuidCount s)]) /\
  (NoDup (JsMap.keys (tasks s)) ->
   (forall op taskId,
      NoDup (JsMap.keys (tasks (finalState (TaskManager.apply op taskId s))))) /\
   (forall init,
      NoDup (JsMap.keys (tasks (finalState (TaskManager.create init s)))))).
Proof.
  assert (Happly : forall op taskId,
            JsMap.keys (tasks (finalState (TaskManager.apply op taskId s)))
            = JsMap.keys (tasks s)).
  { intros op taskId. rewrite apply_tasks.
    destruct (JsMap.get taskId (tasks s)) as [task|] eqn:Hget; [|reflexivity].
    rewrite keys_set. unfold JsMap.has. now rewrite Hget. }
  split; [exact Happly|].
  split; [intros init; rewrite create_tasks; apply keys_set|].
  intros Hnd. split.
  - intros op taskId. now rewrite Happly.
  - intros init. rewrite create_tasks. now apply keys_set_NoDup.
Qed.

Lemma store_keeps_creation_order_witness :
  NoDup (JsMap.keys
           (tasks (finalState (TaskManager.create demoInit sysFinished)))) /\
  JsMap.keys (tasks (finalState (TaskManager.create demoInit sysFinished)))
  = ["task-0"; "task-1"].
Proof.
  split.
  - refine (proj2 (proj2 (proj2 (@store_keeps_creation_order unit sysFinished)) _)
              demoInit).
    vm_compute. repeat constructor; simpl; tauto.
  - rewrite (proj1 (proj2 (@store_keeps_creation_order unit sysFinished)) demoInit).
    reflexivity.
Defined.

Lemma filter_status_partition (l : list Task.t) :
  List.length l
  = List.length (filter (fun t => TaskManager.statusEqb (Task.status t) pending) l)
    + List.length (filter (fun t => TaskManager.statusEqb (Task.status t) running) l)
    + List.length (filter (fun t => TaskManager.statusEqb (Task.status t) completed) l)
    + List.length (filter (fun t => TaskManager.statusEqb (Task.status t) failed) l).
Proof.
  induction l as [|t l IH]; simpl; [reflexivity|].
  destruct (Task.status t); simpl; lia.
Qed.

Lemma statusEqb_eq (a b : TaskStatus) :
  TaskManager.statusEqb a b = true <-> a = b.
Proof. destruct a, b; simpl; split; congruence. Qed.

(** X3. [getAll] never throws and leaves the state alone. With a status it
    returns exactly the tasks of [getAll()] that have that status, in the same
    order (creation order), and the four filtered lists partition the whole:
    the sizes for
    [pending], [running], [completed] and [failed] add up to the size of
    [getAll()] (the summary of the status route). *)
Theorem getAll_partitions_by_status {W} (s : Sys W) :
  exists all byStatus,
    TaskManager.getAll None s = Returned all s /\
    (forall status,
       TaskManager.getAll (Some status) s = Returned (byStatus status) s) /\
    all = JsMap.values (tasks s) /\
    (forall status task,
       In task (byStatus status) <-> In task all /\ Task.status task = status) /\
    (forall status, subsequence (byStatus status) all) /\
    List.length all
    = List.length (byStatus pending) + List.length (byStatus running)
      + List.length (byStatus completed) + List.length (byStatus failed).
Proof.
  exists (JsMap.values (tasks s)),
    (fun status =>
       filter (fun t => TaskManager.statusEqb (Task.status t) status)
              (JsMap.values (tasks s))).
  split; [reflexivity|]. split; [reflexivity|]. split; [reflexivity|].
  split; [|split].
  - intros status task. rewrite filter_In, statusEqb_eq. tauto.
  - intros status.
    induction (JsMap.values (tasks s)) as [|t l IH]; simpl; [constructor|].
    destruct (TaskManager.statusEqb (Task.status t) status); now constructor.
  - apply filter_status_partition.
Qed.

(** X4. Unsubscribing removes every subscription of that handler function
    and only those, and the handlers that stay keep their order. When the
    handlers that stay observe (they may throw, but do not call the task
    manager, so none of them subscribes the handler again), the next
    mutator of the store or [create] does not call the removed handler. *)
Theorem unsubscribed_handler_is_not_called {W} (s : Sys W)
  (handler : TaskEventHandler W) :
  let s1 := finalState (TaskManager.unsubscribe handler s) in
  eventHandlers s1
  = filter (fun h => negb (Nat.eqb (handlerRef h) (handlerRef handler)))
           (eventHandlers s) /\
  (forall op taskId,
     exists added,
       trace (finalState (TaskManager.apply op taskId s1)) = trace s1 ++ added /\
       ~ In (handlerRef handler) (deliveredTo added)) /\
  (forall init,
     exists added,
       trace (finalState (TaskManager.create init s1)) = trace s1 ++ added /\
       ~ In (handlerRef handler) (deliveredTo added)).
Proof.
  intros s1. split; [reflexivity|].
  assert (Hgone : forall attempted event,
            (forall h, In h attempted -> In h (eventHandlers s1)) ->
            ~ In (handlerRef handler) (deliveredTo (deliveries attempted event))).
  { intros attempted event Hsub Hin. unfold deliveredTo, deliveries in Hin.
    rewrite map_map in Hin. apply in_map_iff in Hin as (h & Href & Hh).
    apply Hsub in Hh. simpl in Hh. apply filter_In in Hh as [_ Hne].
    rewrite Href, Nat.eqb_refl in Hne. discriminate. }
  split.
  - intros op taskId.
    destruct (JsMap.get taskId (tasks s1)) as [task|] eqn:Hget.
    + destruct op; simpl;
        unfold TaskManager.start, TaskManager.update, TaskManager.finish,
          TaskManager.error, bind, TaskManager.tasksGet, newDate,
          TaskManager.tasksSet; rewrite Hget; simpl;
        match goal with |- context [TaskManager.emit ?ev ?s2] =>
          destruct (emit_trace_added ev s2) as (attempted & Htr & Hsub & _);
          destruct (TaskManager.emit ev s2) as [[] s3|e s3];
          simpl in *; exists (deliveries attempted ev);
          (split; [exact Htr | now apply Hgone])
        end.
    + rewrite (mutator_unknown_noop op Hget). simpl. exists [].
      split; [now rewrite app_nil_r | intros []].
  - intros init.
    unfold TaskManager.create, bind, randomUUID, newDate, TaskManager.tasksSet.
    simpl.
    match goal with |- context [TaskManager.emit ?ev ?s2] =>
      destruct (emit_trace_added ev s2) as (attempted & Htr & Hsub & _);
      destruct (TaskManager.emit ev s2) as [[] s3|e s3];
      simpl in *; exists (deliveries attempted ev);
      (split; [exact Htr | now apply Hgone])
    end.
Qed.

(** X5. With handlers that observe and do not throw, [create] then [start]
    then [finish] deliver to every subscribed handler, in subscription order,
    first the [created] event with the task pending, then the [started] event
    with the task running, then the [finished] event with the task completed
    and carrying the result; these calls deliver nothing else. Event order is
    mutation order. *)
Theorem lifecycle_events_follow_mutations {W} (s : Sys W) (init : TaskInit.t)
  (result : JsValue) :
  quiet (eventHandlers s) ->
  exists t0 t1 t2 s1 s2 s3,
    TaskManager.create init s = Returned t0 s1 /\
    TaskManager.start (Task.id t0) s1 = Returned (Some t1) s2 /\
    TaskManager.finish (Task.id t0) result s2 = Returned (Some t2) s3 /\
    Task.status t0 = pending /\ Task.status t1 = running /\
    Task.status t2 = completed /\ Task.result t2 = result /\
    Task.id t1 = Task.id t0 /\ Task.id t2 = Task.id t0 /\
    trace s3
    = trace s
      ++ deliveries (eventHandlers s) (TaskEvent.mk created t0 None)
      ++ deliveries (eventHandlers s) (TaskEvent.mk started t1 None)
      ++ deliveries (eventHandlers s) (TaskEvent.mk finished t2 None).
Proof.
  intros Hq.
  set (uuid := Oracle.uuid_at (oracle s) (uuidCount s)).
  set (t0 := TaskManager.created_task init uuid (clock s)).
  set (t1 := TaskManager.started_task t0 (S (clock s))).
  set (t2 := TaskManager.finished_task t1 (S (S (clock s))) result).
  (* create *)
  assert (Hc : exists s1,
             TaskManager.create init s = Returned t0 s1 /\
             eventHandlers s1 = eventHandlers s /\
             tasks s1 = JsMap.set uuid t0 (tasks s) /\ clock s1 = S (clock s) /\
             trace s1 = trace s
               ++ deliveries (eventHandlers s) (TaskEvent.mk created t0 None)).
  { unfold TaskManager.create, bind, randomUUID, newDate, TaskManager.tasksSet.
    simpl. fold uuid. fold t0.
    match goal with |- context [TaskManager.emit ?ev ?s0] =>
      destruct (@emit_quiet_trace W ev s0 Hq) as (s1 & -> & Hcore & Htr)
    end.
    apply core_fields in Hcore as (Ht & Hh & _ & Hclock & _).
    exists s1. simpl in *. now repeat split. }
  destruct Hc as (s1 & Hcreate & Hh1 & Ht1 & Hc1 & Htr1).
  (* start *)
  assert (Hs : exists s2,
             TaskManager.start uuid s1 = Returned (Some t1) s2 /\
             eventHandlers s2 = eventHandlers s /\
             tasks s2 = JsMap.set uuid t1 (tasks s1) /\
             clock s2 = S (S (clock s)) /\
             trace s2 = trace s1
               ++ deliveries (eventHandlers s) (TaskEvent.mk started t1 None)).
  { unfold TaskManager.start, bind, TaskManager.tasksGet, newDate,
      TaskManager.tasksSet.
    rewrite Ht1, get_set_same. simpl. rewrite Hc1. fold t1.
    assert (Hq1 : quiet (eventHandlers s1)) by now rewrite Hh1.
    match goal with |- context [TaskManager.emit ?ev ?s0] =>
      destruct (@emit_quiet_trace W ev s0 Hq1) as (s2 & -> & Hcore & Htr)
    end.
    apply core_fields in Hcore as (Ht & Hh & _ & Hclock & _).
    exists s2. simpl in *. split; [reflexivity|].
    rewrite Htr, Hh1. repeat split; congruence. }
  destruct Hs as (s2 & Hstart & Hh2 & Ht2 & Hc2 & Htr2).
  (* finish *)
  assert (Hf : exists s3,
             TaskManager.finish uuid result s2 = Returned (Some t2) s3 /\
             trace s3 = trace s2
               ++ deliveries (eventHandlers s) (TaskEvent.mk finished t2 None)).
  { unfold TaskManager.finish, bind, TaskManager.tasksGet, newDate,
      TaskManager.tasksSet.
    rewrite Ht2, get_set_same. simpl. rewrite Hc2. fold t2.
    assert (Hq2 : quiet (eventHandlers s2)) by now rewrite Hh2.
    match goal with |- context [TaskManager.emit ?ev ?s0] =>
      destruct (@emit_quiet_trace W ev s0 Hq2) as (s3 & -> & Hcore & Htr)
    end.
    exists s3. simpl in *. split; [reflexivity|]. now rewrite Htr, Hh2. }
  destruct Hf as (s3 & Hfinish & Htr3).
  exists t0, t1, t2, s1, s2, s3.
  split; [exact Hcreate|]. split; [exact Hstart|]. split; [exact Hfinish|].
  do 6 (split; [reflexivity|]).
  now rewrite Htr3, Htr2, Htr1, <- !app_assoc.
Qed.

Lemma lifecycle_events_follow_mutations_witness :
  exists t0 t1 t2 s1 s2 s3,
    TaskManager.create demoInit sysRecording = Returned t0 s1 /\
    TaskManager.start (Task.id t0) s1 = Returned (Some t1) s2 /\
    TaskManager.finish (Task.id t0) (JString "r") s2 = Returned (Some t2) s3 /\
    trace s3
    = [Delivered 2 (TaskEvent.mk created t0 None);
       Delivered 2 (TaskEvent.mk started t1 None);
       Delivered 2 (TaskEvent.mk finished t2 None)] /\
    map (fun event => Task.status (TaskEvent.task event)) (world s3)
    = [pending; running; completed].
Proof.
  destruct (@lifecycle_events_follow_mutations _ sysRecording demoInit
              (JString "r"))
    as (t0 & t1 & t2 & s1 & s2 & s3 & Hc & Hs & Hf & _ & _ & _ & _ & _ & _
        & Htr).
  - intros h event w [<-|[]]. reflexivity.
  - exists t0, t1, t2, s1, s2, s3.
    split; [exact Hc|]. split; [exact Hs|]. split; [exact Hf|].
    split; [exact Htr|].
    vm_compute in Hc. injection Hc as <- <-.
    vm_compute in Hs. injection Hs as <- <-.
    vm_compute in Hf. injection Hf as <- <-.
    reflexivity.
Defined.

(** X6. With handlers that observe (they may throw, but neither call the
    task manager nor change the task they are given), the task store keeps
    every task under its own id: if each entry's key is the [id] of its
    task, this still holds after [create], [start], [finish] and [error],
    and after an [update] whose fields do not include a different [id].
    ([update] itself does not protect the [id] field.) *)
Theorem tasks_stay_under_their_id {W} (s : Sys W) :
  wellKeyed s ->
  (forall init, wellKeyed (finalState (TaskManager.create init s))) /\
  (forall op taskId,
     keepsId op taskId ->
     wellKeyed (finalState (TaskManager.apply op taskId s))).
Proof.
  intros Hwk. split.
  - intros init key task. rewrite create_tasks.
    destruct (String.eqb_spec key (Oracle.uuid_at (oracle s) (uuidCount s)))
      as [->|Hne].
    + rewrite get_set_same. now intros [= <-].
    + rewrite get_set_other by assumption. apply Hwk.
  - intros op taskId Hkeep key task. rewrite apply_tasks.
    destruct (JsMap.get taskId (tasks s)) as [stored|] eqn:Hget; [|apply Hwk].
    destruct (String.eqb_spec key taskId) as [->|Hne].
    + rewrite get_set_same. intros [= <-].
      pose proof (Hwk _ _ Hget) as Hid.
      destruct op as [|progress| |]; simpl; try exact Hid.
      destruct Hkeep as [Hk|Hk]; rewrite Hk; simpl; [exact Hid|reflexivity].
    + rewrite get_set_other by assumption. apply Hwk.
Qed.

Lemma tasks_stay_under_their_id_witness :
  wellKeyed (finalState (TaskManager.create demoInit sysFinished)).
Proof.
  apply (@tasks_stay_under_their_id unit sysFinished).
  intros key task Hget. apply get_In in Hget. vm_compute in Hget.
  destruct Hget as [[= <- <-]|[]]. reflexivity.
Defined.

(** ** The registry *)

Section DeleteFacts.
Context {K V : Type} `{KeyEq K}.
Implicit Types (m : JsMap.t K V) (k : K) (v : V).
Import JsMap.

Lemma delete_absent k m : get k m = None -> delete k m = m.
Proof.
  induction m as [|[k' v'] m IH]; simpl; [reflexivity|].
  destruct (keqb k k'); [discriminate|]. intros Hg. now rewrite IH.
Qed.

Lemma get_delete_other k k' m : k' <> k -> get k' (delete k m) = get k' m.
Proof.
  intros Hne. induction m as [|[k0 v0] m IH]; simpl; [reflexivity|].
  destruct (keqb_spec k k0) as [->|Hk]; simpl.
  - now rewrite (keqb_neq Hne).
  - now rewrite IH.
Qed.

Lemma keys_delete_incl k k' m : In k' (keys (delete k m)) -> In k' (keys m).
Proof.
  induction m as [|[k0 v0] m IH]; simpl; [tauto|].
  destruct (keqb k k0); simpl; [tauto|]. intros [Heq|Hin]; [now left|].
  right. now apply IH.
Qed.

Lemma keys_delete_NoDup k m : NoDup (keys m) -> NoDup (keys (delete k m)).
Proof.
  induction m as [|[k0 v0] m IH]; simpl; intros Hnd; [constructor|].
  inversion Hnd as [|? ? Hnotin Hnd']; subst.
  destruct (keqb k k0); simpl; [assumption|].
  constructor; [|now apply IH]. intros Hin. apply Hnotin.
  now apply keys_delete_incl with k.
Qed.

Lemma get_delete_same k m : NoDup (keys m) -> get k (delete k m) = None.
Proof.
  induction m as [|[k0 v0] m IH]; simpl; intros Hnd; [reflexivity|].
  inversion Hnd as [|? ? Hnotin Hnd']; subst.
  destruct (keqb_spec k k0) as [->|Hk]; simpl.
  - now apply get_None_keys.
  - rewrite (keqb_neq Hk). now apply IH.
Qed.

Lemma delete_set_fresh k v m : get k m = None -> delete k (set k v m) = m.
Proof.
  induction m as [|[k0 v0] m IH]; simpl.
  - now rewrite keqb_refl.
  - destruct (keqb k k0) eqn:E; [discriminate|]. intros Hg. simpl.
    now rewrite E, IH.
Qed.

End DeleteFacts.

(** X7. [register] then [get] is a round trip: after registering a
    descriptor, [get] of its id returns that descriptor, the lookups of every
    other id are unchanged, and the registration order is kept: a new id is
    appended at the end, a known id keeps its place (the descriptor is
    replaced, the registry does not grow). Ids stay unique. *)
Theorem register_get_roundtrip {W} (s : Sys W) (agent : Subagent.t) :
  exists s',
    SubagentRegistry.register agent s = Returned tt s' /\
    SubagentRegistry.get (Subagent.id agent) s' = Returned (Some agent) s' /\
    (forall other, other <> Subagent.id agent ->
       SubagentRegistry.get other s' = Returned (JsMap.get other (agents s)) s') /\
    JsMap.keys (agents s')
    = (if JsMap.has (Subagent.id agent) (agents s)
       then JsMap.keys (agents s)
       else JsMap.keys (agents s) ++ [Subagent.id agent]) /\
    (NoDup (JsMap.keys (agents s)) -> NoDup (JsMap.keys (agents s'))) /\
    tasks s' = tasks s.
Proof.
  eexists. split; [reflexivity|]. unfold SubagentRegistry.get. simpl.
  split; [now rewrite get_set_same|].
  split; [intros other Hne; now rewrite get_set_other|].
  split; [apply keys_set|].
  split; [apply keys_set_NoDup | reflexivity].
Qed.

Lemma register_get_roundtrip_witness :
  NoDup (JsMap.keys (agents (finalState (SubagentRegistry.register fullAgent sysSpark)))).
Proof.
  destruct (@register_get_roundtrip unit sysSpark fullAgent)
    as (s' & Hrun & _ & _ & _ & Hnd & _).
  rewrite Hrun. simpl. apply Hnd. vm_compute.
  repeat constructor; simpl; tauto.
Defined.

(** X8. [unregister] answers whether the id was registered. In a registry
    with unique ids, afterwards the id is gone ([get] finds nothing and
    [isAvailable] is false), every other descriptor is still found, ids are
    still unique; unregistering an id that is not registered changes
    nothing at all; and unregistering right after registering a new id gives
    back the registry as it was. *)
Theorem unregister_removes_exactly_one {W} (s : Sys W) (agentId : string) :
  NoDup (JsMap.keys (agents s)) ->
  exists s',
    SubagentRegistry.unregister agentId s
    = Returned (JsMap.has agentId (agents s)) s' /\
    SubagentRegistry.get agentId s' = Returned None s' /\
    SubagentRegistry.isAvailable agentId s' = Returned false s' /\
    (forall other, other <> agentId ->
       JsMap.get other (agents s') = JsMap.get other (agents s)) /\
    NoDup (JsMap.keys (agents s')) /\
    (JsMap.has agentId (agents s) = false -> s' = s) /\
    (forall agent,
       Subagent.id agent = agentId ->
       JsMap.has agentId (agents s) = false ->
       agents (finalState
                 (SubagentRegistry.unregister agentId
                    (finalState (SubagentRegistry.register agent s))))
       = agents s).
Proof.
  intros Hnd. eexists. split; [reflexivity|].
  unfold SubagentRegistry.get, SubagentRegistry.isAvailable. simpl.
  rewrite (get_delete_same agentId Hnd).
  split; [reflexivity|]. split; [reflexivity|].
  split; [intros other Hne; now apply get_delete_other|].
  split; [now apply keys_delete_NoDup|].
  split.
  - unfold JsMap.has. intros Hhas.
    destruct (JsMap.get agentId (agents s)) eqn:Hget; [discriminate|].
    rewrite (delete_absent Hget). now destruct s.
  - intros agent Hid Hhas. simpl. rewrite Hid. apply delete_set_fresh.
    unfold JsMap.has in Hhas. now destruct (JsMap.get agentId (agents s)).
Qed.

Lemma unregister_removes_exactly_one_witness :
  exists s',
    SubagentRegistry.unregister "spark-agent" sysSpark = Returned true s' /\
    SubagentRegistry.get "spark-agent" s' = Returned None s'.
Proof.
  destruct (@unregister_removes_exactly_one unit sysSpark "spark-agent")
    as (s' & Hrun & Hget & _).
  - vm_compute. repeat constructor; simpl; tauto.
  - exists s'. split; assumption.
Defined.

Section MoreRegistryFacts.
Import SubagentRegistry.

Lemma score_single (capability : SubagentCapability) (agent : Subagent.t) :
  score [capability] agent
  = if includes (Subagent.capabilities agent) capability then 1 else 0.
Proof.
  unfold score. simpl.
  now destruct (includes (Subagent.capabilities agent) capability).
Qed.

(** Once an agent with the only possible positive score is held, the scan
    keeps it. *)
Lemma scan_single_settled capability rest agent :
  fst (scan [capability] rest (Some agent) 1) = Some agent.
Proof.
  induction rest as [|a rest IH]; simpl; [reflexivity|].
  rewrite score_single.
  destruct (includes (Subagent.capabilities a) capability); simpl; exact IH.
Qed.

Lemma bestOf_single capability registered :
  bestOf [capability] registered
  = hd_error (filter (fun agent => includes (Subagent.capabilities agent) capability)
                     registered).
Proof.
  unfold bestOf. induction registered as [|a rest IH]; simpl; [reflexivity|].
  rewrite score_single.
  destruct (includes (Subagent.capabilities a) capability); simpl.
  - apply scan_single_settled.
  - exact IH.
Qed.

(** The scan looks at capabilities only. *)
Lemma scan_map (g : Subagent.t -> Subagent.t) required rest best bestScore :
  (forall agent, Subagent.capabilities (g agent) = Subagent.capabilities agent) ->
  scan required (map g rest) (option_map g best) bestScore
  = (option_map g (fst (scan required rest best bestScore)),
     snd (scan required rest best bestScore)).
Proof.
  intros Hcaps. revert best bestScore.
  induction rest as [|a rest IH]; intros best bestScore; simpl.
  - reflexivity.
  - assert (Hscore : score required (g a) = score required a)
      by (unfold score; now rewrite Hcaps).
    rewrite Hscore.
    destruct (bestScore <? score required a)%nat.
    + apply (IH (Some a)).
    + apply IH.
Qed.

End MoreRegistryFacts.

(** X9. For a request with a single capability, [findBestMatch] returns the
    first descriptor that [findByCapability] lists for that capability, and
    nothing when that list is empty. *)
Theorem findBestMatch_single_is_first_by_capability {W} (s : Sys W)
  (capability : SubagentCapability) :
  exists listed,
    SubagentRegistry.findByCapability capability s = Returned listed s /\
    SubagentRegistry.findBestMatch [capability] s
    = Returned (hd_error listed) s /\
    (forall agent,
       In agent listed <->
       In agent (JsMap.values (agents s)) /\
       In capability (Subagent.capabilities agent)).
Proof.
  eexists. split; [reflexivity|]. split.
  - unfold SubagentRegistry.findBestMatch. now rewrite bestOf_single.
  - intros agent. rewrite filter_In. unfold SubagentRegistry.includes.
    rewrite existsb_exists. split.
    + intros (Hin & c & Hc & Heq). apply String.eqb_eq in Heq. subst c.
      now split.
    + intros (Hin & Hc). split; [assumption|]. exists capability.
      split; [assumption | apply String.eqb_refl].
Qed.

(** X10. [findBestMatch] decides on capabilities alone. Changing anything
    else of the registered descriptors, their availability in particular,
    does not change which descriptor is chosen: a busy or offline executor
    is returned just as an available one would be. *)
Theorem findBestMatch_ignores_availability
  (required : list SubagentCapability) (registered : list Subagent.t)
  (g : Subagent.t -> Subagent.t) :
  (forall agent, Subagent.capabilities (g agent) = Subagent.capabilities agent) ->
  SubagentRegistry.bestOf required (map g registered)
  = option_map g (SubagentRegistry.bestOf required registered).
Proof.
  intros Hcaps. unfold SubagentRegistry.bestOf.
  change (@None Subagent.t) with (option_map g None) at 1.
  now rewrite scan_map.
Qed.

Lemma findBestMatch_ignores_availability_witness :
  SubagentRegistry.bestOf ["code"; "testing"]
    (map (withStatus offline) [designAgent; mockAgent; fullAgent])
  = Some (withStatus offline mockAgent).
Proof.
  rewrite (@findBestMatch_ignores_availability ["code"; "testing"]
             [designAgent; mockAgent; fullAgent] (withStatus offline)).
  - reflexivity.
  - reflexivity.
Defined.

(** ** The orchestrator and the Spark agent's descriptor *)

Lemma score_positive (required : list SubagentCapability) (agent : Subagent.t)
  (capability : SubagentCapability) :
  In capability required -> In capability (Subagent.capabilities agent) ->
  0 < SubagentRegistry.score required agent.
Proof.
  intros Hreq Hcap. unfold SubagentRegistry.score.
  assert (Hin : In capability
                   (filter (SubagentRegistry.includes (Subagent.capabilities agent))
                           required)).
  { apply filter_In. split; [assumption|]. unfold SubagentRegistry.includes.
    apply existsb_exists. exists capability.
    split; [assumption | apply String.eqb_refl]. }
  destruct (filter _ required); [contradiction | simpl; lia].
Qed.

Lemma bestOf_finds_positive (required : list SubagentCapability)
  (registered : list Subagent.t) (agent : Subagent.t) :
  In agent registered -> 0 < SubagentRegistry.score required agent ->
  exists best, SubagentRegistry.bestOf required registered = Some best /\
               In best registered /\
               0 < SubagentRegistry.score required best.
Proof.
  intros Hin Hpos. unfold SubagentRegistry.bestOf.
  assert (Hinit : bestSoFar required [] None 0).
  { simpl. split; [reflexivity|]. intros a []. }
  pose proof (scan_bestSoFar registered Hinit) as H. simpl in H.
  destruct (SubagentRegistry.scan required registered None 0) as [[best|] bs];
    simpl in *.
  - destruct H as (-> & Hbs & i & Hi & _). exists best.
    split; [reflexivity|]. split; [now apply nth_error_In with i | assumption].
  - destruct H as [_ Hzero]. rewrite (Hzero agent Hin) in Hpos. lia.
Qed.

Lemma values_In {V} (m : JsMap.t string V) key value :
  JsMap.get key m = Some value -> In value (JsMap.values m).
Proof.
  intros Hget. apply get_In in Hget. unfold JsMap.values.
  change value with (snd (key, value)). now apply in_map.
Qed.

Lemma score_positive_inv (required : list SubagentCapability)
  (agent : Subagent.t) :
  0 < SubagentRegistry.score required agent ->
  exists satisfied,
    In satisfied required /\ In satisfied (Subagent.capabilities agent).
Proof.
  unfold SubagentRegistry.score. intros Hpos.
  destruct (filter (SubagentRegistry.includes (Subagent.capabilities agent))
                   required) as [|c rest] eqn:Hf; [simpl in Hpos; lia|].
  assert (Hin : In c (filter (SubagentRegistry.includes
                                (Subagent.capabilities agent)) required))
    by (rewrite Hf; now left).
  apply filter_In in Hin as [Hreq Hinc]. exists c. split; [exact Hreq|].
  unfold SubagentRegistry.includes in Hinc.
  apply existsb_exists in Hinc as (c' & Hc' & Heq).
  apply String.eqb_eq in Heq. now subst c'.
Qed.

(** X11. The orchestrator's constructor registers the Spark agent's
    descriptor under [spark-agent], and registering or unregistering other
    ids leaves it registered. As long as it is registered, a request that
    names at least one of the seven capabilities of the Spark agent finds an
    executor: [findBestMatch] returns a registered descriptor that has at
    least one of the required capabilities. (Once [spark-agent] is
    unregistered, or another descriptor is registered under that id, this
    need not hold.) *)
Theorem constructed_orchestrator_matches_spark_capabilities {W} (s : Sys W) :
  sparkRegistered (finalState (SubagentOrchestrator.constructor s)) /\
  (sparkRegistered s ->
   (forall agent,
      Subagent.id agent <> "spark-agent" ->
      sparkRegistered (finalState (SubagentRegistry.register agent s))) /\
   (forall agentId,
      agentId <> "spark-agent" ->
      sparkRegistered (finalState (SubagentRegistry.unregister agentId s))) /\
   (forall required capability,
      In capability required ->
      In capability (Subagent.capabilities SparkAgentClient.getAgentConfig) ->
      exists agent,
        SubagentRegistry.findBestMatch required s = Returned (Some agent) s /\
        In agent (JsMap.values (agents s)) /\
        exists satisfied,
          In satisfied required /\
          In satisfied (Subagent.capabilities agent))).
Proof.
  unfold sparkRegistered. split.
  - unfold SubagentOrchestrator.constructor, SubagentRegistry.register.
    simpl. apply get_set_same.
  - intros Hspark. split; [|split].
    + intros agent Hid. simpl. rewrite get_set_other by congruence.
      exact Hspark.
    + intros agentId Hid. simpl. rewrite get_delete_other by congruence.
      exact Hspark.
    + intros required capability Hreq Hcap.
      destruct (@bestOf_finds_positive required (JsMap.values (agents s))
                  SparkAgentClient.getAgentConfig)
        as (best & Hbest & Hin & Hpos).
      * now apply values_In with "spark-agent".
      * now apply score_positive with capability.
      * exists best. unfold SubagentRegistry.findBestMatch. rewrite Hbest.
        split; [reflexivity|]. split; [exact Hin|].
        now apply score_positive_inv.
Qed.

Lemma constructed_orchestrator_matches_spark_capabilities_witness :
  sparkRegistered
    (finalState (SubagentRegistry.register mockAgent
       (finalState (SubagentOrchestrator.constructor (emptySys tt demoOracle)))))
  /\
  exists agent,
    SubagentRegistry.findBestMatch ["watercolour"; "mcp"]
      (finalState (SubagentOrchestrator.constructor (emptySys tt demoOracle)))
    = Returned (Some agent)
        (finalState (SubagentOrchestrator.constructor (emptySys tt demoOracle))).
Proof.
  pose proof (@constructed_orchestrator_matches_spark_capabilities unit
                (emptySys tt demoOracle)) as [Hnew _].
  destruct (@constructed_orchestrator_matches_spark_capabilities unit
              (finalState (SubagentOrchestrator.constructor
                             (emptySys tt demoOracle))))
    as [_ Hkept].
  destruct (Hkept Hnew) as (Hreg & _ & Hfind). split.
  - apply Hreg. simpl. discriminate.
  - destruct (Hfind ["watercolour"; "mcp"] "mcp") as (agent & Hrun & _).
    + simpl. tauto.
    + simpl. tauto.
    + now exists agent.
Defined.

(** X12. When the best match is not the Spark agent, or there is none,
    [delegate] answers with a failed result whose [taskId] is empty and
    touches nothing: no task is created, no event is delivered, no request
    leaves the process, whatever handlers are subscribed. The error names
    the missing capabilities, or the executor that is not implemented. *)
Theorem delegate_off_spark_touches_nothing {W} (s : Sys W)
  (task : SubagentTask.t) :
  routedToSpark (JsMap.values (agents s)) task = false ->
  exists result,
    SubagentOrchestrator.delegate task s
    = Returned result (with_calls (calls s ++ [Delegated task]) s) /\
    SubagentResult.success result = false /\
    SubagentResult.taskId result = "" /\
    SubagentResult.error result
    = Some (match SubagentRegistry.bestOf (SubagentTask.capabilities task)
                    (JsMap.values (agents s)) with
            | Some agent =>
                "Subagent " ++ Subagent.id agent ++ " execution not implemented"
            | None =>
                "No subagent found with capabilities: "
                ++ String.concat ", " (SubagentTask.capabilities task)
            end)%string.
Proof.
  unfold routedToSpark. intros Hroute.
  unfold SubagentOrchestrator.delegate, SubagentOrchestrator.delegateBegin,
    async, bind, observe, SubagentRegistry.findBestMatch.
  simpl.
  destruct (SubagentRegistry.bestOf (SubagentTask.capabilities task)
              (JsMap.values (agents s))) as [agent|]; simpl.
  - rewrite Hroute. simpl. eexists. repeat split.
  - eexists. repeat split.
Qed.

Lemma delegate_off_spark_touches_nothing_witness :
  exists result,
    SubagentOrchestrator.delegate (workOn "Paint" ["watercolour"]) sysSparkThrowing
    = Returned result
        (with_calls (calls sysSparkThrowing
                     ++ [Delegated (workOn "Paint" ["watercolour"])])
           sysSparkThrowing) /\
    SubagentResult.taskId result = "".
Proof.
  destruct (@delegate_off_spark_touches_nothing _ sysSparkThrowing
              (workOn "Paint" ["watercolour"]))
    as (result & Hrun & _ & Hid & _).
  - reflexivity.
  - exists result. split; assumption.
Defined.

(** X13. Capability inference and the Spark agent's descriptor fit together:
    for an action without an explicit capability list (and with an ASCII
    name and description), every inferred entry is a string naming one of
    the Spark agent's capabilities and at least one is inferred; so, as long
    as the Spark agent's descriptor is registered under [spark-agent], the
    inferred request finds an executor. *)
Theorem inferred_capabilities_find_an_executor {W} (s : Sys W)
  (action : PlanAction.t) :
  sparkRegistered s ->
  (forall explicit, JsMap.get "capabilities" (PlanAction.parameters action)
                    <> Some (JArray explicit)) ->
  asciiOnly (PlanAction.name action ++ " " ++ PlanAction.description action)
  = true ->
  exists tags agent,
    inferCapabilities action = map JString tags /\
    tags <> [] /\
    (forall tag, In tag tags ->
       In tag (Subagent.capabilities SparkAgentClient.getAgentConfig)) /\
    SubagentRegistry.findBestMatch tags s = Returned (Some agent) s /\
    In agent (JsMap.values (agents s)).
Proof.
  intros Hspark Hno _. rewrite (inferCapabilities_table Hno).
  set (raw := (PlanAction.name action ++ " " ++ PlanAction.description action)%string).
  assert (Htable : forall tag, In tag (matchedTags raw) ->
            In tag (Subagent.capabilities SparkAgentClient.getAgentConfig)).
  { intros tag Hin. apply matchedTags_spec in Hin as (keywords & Hrow & _).
    simpl in Hrow. simpl.
    repeat (destruct Hrow as [[= _ <-]|Hrow]; [tauto|]). contradiction. }
  set (tags := match matchedTags raw with [] => ["code"] | l => l end).
  assert (Htags : tags <> [] /\
                  forall tag, In tag tags ->
                    In tag (Subagent.capabilities SparkAgentClient.getAgentConfig)).
  { subst tags. destruct (matchedTags raw) as [|t l].
    - split; [discriminate|]. intros tag [<-|[]]. simpl. tauto.
    - split; [discriminate|]. exact Htable. }
  destruct Htags as [Hne Hall].
  destruct tags as [|tag0 rest] eqn:Etags; [congruence|].
  unfold SubagentRegistry.findBestMatch.
  destruct (@bestOf_finds_positive (tag0 :: rest) (JsMap.values (agents s))
              SparkAgentClient.getAgentConfig)
    as (best & Hbest & Hin & _).
  - now apply values_In with "spark-agent".
  - apply score_positive with tag0; [now left | apply Hall; now left].
  - exists (tag0 :: rest), best. rewrite Hbest.
    repeat split; auto.
Qed.

Lemma inferred_capabilities_find_an_executor_witness :
  exists tags agent,
    inferCapabilities checkoutAction = map JString tags /\
    SubagentRegistry.findBestMatch tags sysSpark
    = Returned (Some agent) sysSpark.
Proof.
  destruct (@inferred_capabilities_find_an_executor unit sysSpark
              checkoutAction)
    as (tags & agent & Htags & _ & _ & Hrun & _).
  - reflexivity.
  - intros explicit. simpl. discriminate.
  - reflexivity.
  - now exists tags, agent.
Defined.

(** ** The plugin registry *)

Section PluginFacts.
Context {W : Type}.
Implicit Types (h : HookPlugin W) (l : list (HookPlugin W)).
Implicit Types (registry : PluginRegistry W).
Implicit Types (table : JsMap.t HookEvent (list (HookPlugin W))).

Local Abbreviation hooksAt event table :=
  (match JsMap.get event table with Some l => l | None => [] end).

Lemma insertHook_perm h l : Permutation (insertHook h l) (h :: l).
Proof.
  induction l as [|a l IH]; simpl; [reflexivity|].
  destruct (effectivePriority h <? effectivePriority a)%Z; [reflexivity|].
  rewrite IH. apply perm_swap.
Qed.

Lemma insertHook_sorted h l :
  StronglySorted byPriority l -> StronglySorted byPriority (insertHook h l).
Proof.
  induction 1 as [|a l Hl IH Ha]; simpl; [repeat constructor|].
  destruct (Z.ltb_spec (effectivePriority h) (effectivePriority a)).
  - constructor; [now constructor|]. constructor; [unfold byPriority; lia|].
    eapply Forall_impl; [|exact Ha]. unfold byPriority. intros; lia.
  - constructor; [exact IH|].
    eapply Permutation_Forall; [symmetry; apply insertHook_perm|].
    constructor; [exact H|exact Ha].
Qed.

Lemma insertHook_split h l :
  StronglySorted byPriority l ->
  exists before after,
    l = before ++ after /\ insertHook h l = before ++ h :: after /\
    Forall (fun x => (effectivePriority x <= effectivePriority h)%Z) before /\
    Forall (fun x => (effectivePriority h < effectivePriority x)%Z) after.
Proof.
  induction 1 as [|a l Hl IH Ha]; simpl.
  - exists [], []. repeat split; constructor.
  - destruct (Z.ltb_spec (effectivePriority h) (effectivePriority a)).
    + exists [], (a :: l). repeat split; [constructor|].
      constructor; [exact H|].
      eapply Forall_impl; [|exact Ha]. unfold byPriority. intros; lia.
    + destruct IH as (before & after & -> & -> & Hb & Hafter).
      exists (a :: before), after. repeat split; [|exact Hafter].
      constructor; [exact H|exact Hb].
Qed.

Lemma insertHook_last h l :
  Forall (fun x => byPriority x h) l -> insertHook h l = l ++ [h].
Proof.
  induction 1 as [|a l Ha Hl IH]; simpl; [reflexivity|].
  destruct (Z.ltb_spec (effectivePriority h) (effectivePriority a)).
  - unfold byPriority in Ha. lia.
  - now rewrite IH.
Qed.

Lemma insertAll_sorted l acc :
  StronglySorted byPriority acc ->
  StronglySorted byPriority
    (fold_left (fun sorted h => insertHook h sorted) l acc).
Proof.
  revert acc. induction l as [|a l IH]; simpl; intros acc Hacc; [exact Hacc|].
  apply IH. now apply insertHook_sorted.
Qed.

Lemma sortHooks_sorted l : StronglySorted byPriority (sortHooks l).
Proof. apply insertAll_sorted. constructor. Qed.

Lemma StronglySorted_app_last h l :
  StronglySorted byPriority (l ++ [h]) -> Forall (fun x => byPriority x h) l.
Proof.
  induction l as [|a l IH]; simpl; intros Hs; [constructor|].
  apply StronglySorted_inv in Hs as [Hs Ha]. constructor; [|now apply IH].
  rewrite Forall_forall in Ha. apply Ha. apply in_or_app. right. now left.
Qed.

Lemma StronglySorted_app_left l l' :
  StronglySorted byPriority (l ++ l') -> StronglySorted byPriority l.
Proof.
  induction l as [|a l IH]; simpl; intros Hs; [constructor|].
  apply StronglySorted_inv in Hs as [Hs Ha]. constructor; [now apply IH|].
  apply Forall_app in Ha. tauto.
Qed.

Lemma insertAll_of_sorted l acc :
  StronglySorted byPriority (acc ++ l) ->
  fold_left (fun sorted h => insertHook h sorted) l acc = acc ++ l.
Proof.
  revert acc. induction l as [|a l IH]; simpl; intros acc Hs.
  - now rewrite app_nil_r.
  - replace (acc ++ a :: l) with ((acc ++ [a]) ++ l) in *
      by now rewrite <- app_assoc.
    rewrite insertHook_last.
    + now apply IH.
    + apply StronglySorted_app_last. eapply StronglySorted_app_left, Hs.
Qed.

(** Sorting leaves a sorted list as it is. *)
Lemma sortHooks_of_sorted l : StronglySorted byPriority l -> sortHooks l = l.
Proof. intros Hs. unfold sortHooks. now rewrite insertAll_of_sorted. Qed.

(** Pushing one hook on a sorted list and sorting inserts the hook. *)
Lemma sortHooks_push h l :
  StronglySorted byPriority l -> sortHooks (l ++ [h]) = insertHook h l.
Proof.
  intros Hs. unfold sortHooks. rewrite fold_left_app. simpl.
  fold (sortHooks l). now rewrite sortHooks_of_sorted.
Qed.

Lemma StronglySorted_filter (keep : HookPlugin W -> bool) l :
  StronglySorted byPriority l -> StronglySorted byPriority (filter keep l).
Proof.
  induction 1 as [|a l Hl IH Ha]; simpl; [constructor|].
  destruct (keep a); [|exact IH]. constructor; [exact IH|].
  rewrite Forall_forall in *. intros x Hx. apply Ha.
  now apply filter_In in Hx.
Qed.

Lemma hooksAt_set event e l table :
  hooksAt event (JsMap.set e l table)
  = if keqb event e then l else hooksAt event table.
Proof.
  destruct (keqb_spec event e) as [->|Hne].
  - now rewrite get_set_same.
  - now rewrite get_set_other.
Qed.

Lemma hooksInOrder_table registry :
  hooksInOrder registry <-> tableInOrder (hooks registry).
Proof.
  split.
  - intros H event. destruct (JsMap.get event (hooks registry)) eqn:E.
    + eapply H, E.
    + constructor.
  - intros H event l E. specialize (H event). now rewrite E in H.
Qed.

Lemma registerHook_inOrder h table :
  tableInOrder table -> tableInOrder (registerHook h table).
Proof.
  unfold registerHook. generalize (hookEvents h) as events.
  intros events. revert table.
  induction events as [|e events IH]; simpl; intros table Ht; [exact Ht|].
  apply IH. intros event. rewrite hooksAt_set.
  destruct (keqb event e); [apply sortHooks_sorted | apply Ht].
Qed.

Lemma unregisterHook_inOrder h table :
  tableInOrder table -> tableInOrder (unregisterHook h table).
Proof.
  unfold unregisterHook. generalize (hookEvents h) as events.
  intros events. revert table.
  induction events as [|e events IH]; simpl; intros table Ht; [exact Ht|].
  apply IH. intros event. rewrite hooksAt_set.
  destruct (keqb event e); [apply StronglySorted_filter | ]; apply Ht.
Qed.

Lemma registerPlugin_inOrder registry (plugin : Plugin W) :
  hooksInOrder registry -> hooksInOrder (registerPlugin registry plugin).
Proof.
  rewrite !hooksInOrder_table.
  destruct plugin; simpl; auto using registerHook_inOrder.
Qed.

Lemma unregisterPlugin_inOrder registry (plugin : Plugin W) :
  hooksInOrder registry -> hooksInOrder (unregisterPlugin registry plugin).
Proof.
  rewrite !hooksInOrder_table.
  destruct plugin; simpl; auto using unregisterHook_inOrder.
Qed.

Lemma fold_registerPlugin_inOrder (plugins : list (Plugin W)) registry :
  hooksInOrder registry ->
  hooksInOrder (fold_left registerPlugin plugins registry).
Proof.
  revert registry. induction plugins as [|p plugins IH]; simpl; auto.
  intros registry Hr. now apply IH, registerPlugin_inOrder.
Qed.

Lemma fold_unregisterPlugin_inOrder (plugins : list (Plugin W)) registry :
  hooksInOrder registry ->
  hooksInOrder (fold_left unregisterPlugin plugins registry).
Proof.
  revert registry. induction plugins as [|p plugins IH]; simpl; auto.
  intros registry Hr. now apply IH, unregisterPlugin_inOrder.
Qed.

(** What [registerPlugin] does to the hooks of one event, for a hook that
    lists each of its events once. *)
Lemma registerHook_at h table event :
  NoDup (hookEvents h) ->
  hooksAt event (registerHook h table)
  = if existsb (keqb event) (hookEvents h)
    then sortHooks (hooksAt event table ++ [h])
    else hooksAt event table.
Proof.
  unfold registerHook. generalize (hookEvents h) as events.
  intros events. revert table.
  induction events as [|e events IH]; cbn [fold_left existsb];
    intros table Hnd; [reflexivity|].
  apply NoDup_cons_iff in Hnd as [Hnotin Hnd].
  rewrite IH by exact Hnd. rewrite hooksAt_set.
  destruct (keqb_spec event e) as [->|Hne]; cbn [orb]; [|reflexivity].
  replace (existsb (keqb e) events) with false; [reflexivity|].
  symmetry. apply not_true_is_false. intros Hex.
  apply existsb_exists in Hex as (x & Hx & Heq).
  destruct (keqb_spec e x); [now subst | discriminate].
Qed.

(** What [unregisterPlugin] does to the hooks of one event. *)
Lemma unregisterHook_at h table event :
  hooksAt event (unregisterHook h table)
  = if existsb (keqb event) (hookEvents h)
    then filter (fun x => negb (Nat.eqb (hookRef x) (hookRef h)))
                (hooksAt event table)
    else hooksAt event table.
Proof.
  unfold unregisterHook. generalize (hookEvents h) as events.
  intros events. revert table.
  induction events as [|e events IH]; cbn [fold_left existsb];
    intros table; [reflexivity|].
  rewrite IH. rewrite hooksAt_set.
  destruct (keqb_spec event e) as [->|Hne]; cbn [orb]; [|reflexivity].
  destruct (existsb (keqb e) events); [|reflexivity].
  induction (hooksAt e table) as [|x l IHl]; simpl; [reflexivity|].
  destruct (negb (hookRef x =? hookRef h)%nat) eqn:E; simpl;
    [rewrite E|]; now rewrite IHl.
Qed.

End PluginFacts.

Section PluginTableFacts.
Context {W : Type}.
Implicit Types (registry : PluginRegistry W) (plugins : list (Plugin W)).

Lemma registerPlugin_namesOnce registry (plugin : Plugin W) :
  namesOnce registry -> namesOnce (registerPlugin registry plugin).
Proof.
  unfold namesOnce. intros (Hp & Hc & Ha & Hs & Hm).
  destruct plugin; simpl; repeat split; auto using keys_set_NoDup.
Qed.

Lemma unregisterPlugin_namesOnce registry (plugin : Plugin W) :
  namesOnce registry -> namesOnce (unregisterPlugin registry plugin).
Proof.
  unfold namesOnce. intros (Hp & Hc & Ha & Hs & Hm).
  destruct plugin; simpl; repeat split; auto using keys_delete_NoDup.
Qed.

Lemma fold_registerPlugin_namesOnce plugins registry :
  namesOnce registry -> namesOnce (fold_left registerPlugin plugins registry).
Proof.
  revert registry. induction plugins as [|p plugins IH]; simpl; auto.
  intros registry Hr. now apply IH, registerPlugin_namesOnce.
Qed.

Lemma fold_unregisterPlugin_namesOnce plugins registry :
  namesOnce registry ->
  namesOnce (fold_left unregisterPlugin plugins registry).
Proof.
  revert registry. induction plugins as [|p plugins IH]; simpl; auto.
  intros registry Hr. now apply IH, unregisterPlugin_namesOnce.
Qed.

Lemma fold_registerPlugin_packages plugins registry :
  packages (fold_left registerPlugin plugins registry) = packages registry.
Proof.
  revert registry. induction plugins as [|p plugins IH]; simpl; auto.
  intros registry. rewrite IH. now destruct p.
Qed.

Lemma fold_unregisterPlugin_packages plugins registry :
  packages (fold_left unregisterPlugin plugins registry) = packages registry.
Proof.
  revert registry. induction plugins as [|p plugins IH]; simpl; auto.
  intros registry. rewrite IH. now destruct p.
Qed.

(** Every state of the registry keeps its hook lists in order of priority
    and its names unique. *)
Lemma reachable_invariant registry :
  reachable registry -> hooksInOrder registry /\ namesOnce registry.
Proof.
  induction 1 as [|registry manifest plugins registry' Hr [IHo IHn] Hreg
                  |registry pluginId Hr [IHo IHn]
                  |registry pluginId flag Hr [IHo IHn]].
  - split; [intros event l [=]|]. repeat split; constructor.
  - unfold registerPackage in Hreg.
    destruct (JsMap.has _ _); [discriminate|]. injection Hreg as <-.
    destruct IHn as (Hp & Hc & Ha & Hs & Hm). split.
    + apply fold_registerPlugin_inOrder. exact IHo.
    + apply fold_registerPlugin_namesOnce.
      repeat split; simpl; auto using keys_set_NoDup.
  - unfold unregisterPackage.
    destruct (JsMap.get pluginId (packages registry)) as [pkg|];
      [|now split]. simpl.
    pose proof (@fold_unregisterPlugin_inOrder W (plugins pkg) _ IHo) as Ho.
    pose proof (@fold_unregisterPlugin_namesOnce (plugins pkg) _ IHn)
      as (Hp & Hc & Ha & Hs & Hm).
    split; [exact Ho|]. repeat split; simpl; auto using keys_delete_NoDup.
  - unfold setEnabled.
    destruct (JsMap.get pluginId (packages registry)) as [pkg|];
      [|now split]. simpl.
    destruct IHn as (Hp & Hc & Ha & Hs & Hm).
    split; [exact IHo|]. repeat split; simpl; auto using keys_set_NoDup.
Qed.

End PluginTableFacts.

(** X14. In every state of the plugin registry (a new registry after any
    number of [register], [unregister] and [setEnabled] calls), the hooks
    that [getHooks] returns for an event are in ascending order of their
    effective priority [priority || 100]. *)
Theorem getHooks_is_in_priority_order {W} (registry : PluginRegistry W)
  (event : HookEvent) :
  reachable registry ->
  StronglySorted
    (fun a b => (effectivePriority a <= effectivePriority b)%Z)
    (getHooks event registry).
Proof.
  intros Hr. apply reachable_invariant in Hr as [Ho _].
  apply hooksInOrder_table in Ho. exact (Ho event).
Qed.

Lemma exampleRegistry_reachable : reachable exampleRegistry.
Proof.
  eapply reachable_register; [apply reachable_new|]. reflexivity.
Qed.

Lemma getHooks_is_in_priority_order_witness :
  StronglySorted
    (fun a b => (effectivePriority a <= effectivePriority b)%Z)
    (getHooks task_created exampleRegistry).
Proof.
  apply (@getHooks_is_in_priority_order unit exampleRegistry task_created).
  eapply reachable_register; [apply reachable_new|]. reflexivity.
Defined.

(** Priority 0 counts as 100: the hook with priority 0 runs after the hook
    without a priority that was registered before it, and not first. *)
Example priority_zero_is_not_first :
  map hookRef (getHooks task_created exampleRegistry) = [2; 3; 1]%nat.
Proof. reflexivity. Qed.

(** X15. Registering a package that consists of one hook (which lists each
    of its events once) inserts the hook into the list of each of its
    events behind every hook whose effective priority is at most its own
    and before the hooks of greater effective priority; the hooks that were
    there keep their order, and the lists of other events do not change. *)
Theorem new_hook_goes_behind_equal_priority {W}
  (registry registry' : PluginRegistry W) (manifest : PluginManifest.t)
  (h : HookPlugin W) (event : HookEvent) :
  reachable registry ->
  NoDup (hookEvents h) ->
  registerPackage manifest [PHook h] registry = inr registry' ->
  (In event (hookEvents h) ->
   exists before after,
     getHooks event registry = before ++ after /\
     getHooks event registry' = before ++ h :: after /\
     Forall (fun x => (effectivePriority x <= effectivePriority h)%Z) before /\
     Forall (fun x => (effectivePriority h < effectivePriority x)%Z) after) /\
  (~ In event (hookEvents h) ->
   getHooks event registry' = getHooks event registry).
Proof.
  intros Hr Hnd Hreg. unfold registerPackage in Hreg.
  destruct (JsMap.has _ _); [discriminate|]. injection Hreg as <-.
  apply reachable_invariant in Hr as [Ho _].
  apply hooksInOrder_table in Ho. specialize (Ho event).
  unfold getHooks. simpl. rewrite (registerHook_at _ event Hnd).
  split; intros Hin.
  - replace (existsb (keqb event) (hookEvents h)) with true.
    + rewrite (sortHooks_push h Ho). apply insertHook_split, Ho.
    + symmetry. apply existsb_exists. exists event. split; [exact Hin|].
      apply keqb_refl.
  - replace (existsb (keqb event) (hookEvents h)) with false; [reflexivity|].
    symmetry. apply not_true_is_false. intros Hex.
    apply existsb_exists in Hex as (x & Hx & Heq).
    destruct (keqb_spec event x); [now subst | discriminate].
Qed.

Lemma new_hook_goes_behind_equal_priority_witness :
  exists registry',
    registerPackage (exampleManifest "second")
      [PHook (exampleHook 5 (Some 100%Z) [task_created])] exampleRegistry
    = inr registry' /\
    map hookRef (getHooks task_created registry') = [2; 3; 5; 1]%nat /\
    getHooks task_failed registry' = getHooks task_failed exampleRegistry.
Proof.
  eexists. split; [reflexivity|].
  pose proof (@new_hook_goes_behind_equal_priority unit exampleRegistry _
                (exampleManifest "second")
                (exampleHook 5 (Some 100%Z) [task_created]) task_failed
                exampleRegistry_reachable
                ltac:(repeat constructor; simpl; tauto) eq_refl) as [_ H].
  split; [reflexivity|]. apply H. simpl. intros [[=]|[]].
Defined.

(** X16. [executeHooks] calls every hook registered for the event, in the
    order of [getHooks], whether or not earlier hooks threw; what it gives to
    [logger.error] are errors thrown by hooks of that event, at most one per
    hook; and the [enabled] flag of a package plays no part: after
    [setEnabled] with either value the same hooks run. *)
Theorem executeHooks_runs_every_hook {W} (registry : PluginRegistry W)
  (event : HookEvent) (data : JsValue) (run : HookRun W) :
  (hookCalls (executeHooks event data registry run)
   = hookCalls run ++ map hookRef (getHooks event registry)) /\
  (exists logged,
     hookErrors (executeHooks event data registry run)
     = hookErrors run ++ logged /\
     (List.length logged <= List.length (getHooks event registry))%nat /\
     forall entry, In entry logged ->
       fst entry = event /\
       exists hook w, In hook (getHooks event registry) /\
                      snd (hookHandler hook event data w) = Some (snd entry)) /\
  (forall pluginId flag,
     executeHooks event data (snd (setEnabled pluginId flag registry)) run
     = executeHooks event data registry run).
Proof.
  split; [|split].
  - unfold executeHooks. generalize (getHooks event registry) as l.
    intros l. revert run. induction l as [|hook l IH]; simpl; intros run.
    + now rewrite app_nil_r.
    + destruct (hookHandler hook event data (hookWorld run)) as [w [e|]];
        rewrite IH; simpl; now rewrite <- app_assoc.
  - unfold executeHooks. generalize (getHooks event registry) as l.
    intros l. revert run. induction l as [|hook l IH]; simpl; intros run.
    + exists []. rewrite app_nil_r. split; [reflexivity|].
      split; [simpl; lia|]. intros entry [].
    + destruct (hookHandler hook event data (hookWorld run)) as [w [e|]] eqn:E.
      * destruct (IH (mkHookRun w (hookErrors run ++ [(event, e)])
                        (hookCalls run ++ [hookRef hook])))
          as (logged & Heq & Hlen & Hin).
        exists ((event, e) :: logged). rewrite Heq. simpl.
        rewrite <- app_assoc. split; [reflexivity|]. split; [lia|].
        intros entry [<-|Hentry].
        -- split; [reflexivity|]. exists hook, (hookWorld run).
           split; [now left|]. now rewrite E.
        -- destruct (Hin entry Hentry) as (Hfst & hook' & w' & Hh & Hthrow).
           split; [exact Hfst|]. exists hook', w'. split; [now right|].
           exact Hthrow.
      * destruct (IH (mkHookRun w (hookErrors run)
                        (hookCalls run ++ [hookRef hook])))
          as (logged & Heq & Hlen & Hin).
        exists logged. rewrite Heq. simpl. split; [reflexivity|].
        split; [lia|].
        intros entry Hentry.
        destruct (Hin entry Hentry) as (Hfst & hook' & w' & Hh & Hthrow).
        split; [exact Hfst|]. exists hook', w'. split; [now right|].
        exact Hthrow.
  - intros pluginId flag. unfold setEnabled.
    now destruct (JsMap.get pluginId (packages registry)).
Qed.

Section PluginLookupFacts.
Context {W : Type}.
Implicit Types (registry : PluginRegistry W) (plugins : list (Plugin W)).

(** A name that is not in a table is not in it after a deletion. *)
Lemma get_delete_None {V} (k n : string) (table : JsMap.t string V) :
  JsMap.get n table = None -> JsMap.get n (JsMap.delete k table) = None.
Proof.
  intros Hn. destruct (string_dec n k) as [->|Hne].
  - now rewrite delete_absent.
  - now rewrite get_delete_other.
Qed.

Lemma unregisterPlugin_keeps_absent registry (p : Plugin W) :
  (forall n, JsMap.get n (commands registry) = None ->
             JsMap.get n (commands (unregisterPlugin registry p)) = None) /\
  (forall n, JsMap.get n (agentPlugins registry) = None ->
             JsMap.get n (agentPlugins (unregisterPlugin registry p)) = None) /\
  (forall n, JsMap.get n (skills registry) = None ->
             JsMap.get n (skills (unregisterPlugin registry p)) = None) /\
  (forall n, JsMap.get n (mcpServers registry) = None ->
             JsMap.get n (mcpServers (unregisterPlugin registry p)) = None).
Proof. destruct p; simpl; repeat split; auto using get_delete_None. Qed.

Lemma fold_unregisterPlugin_keeps_absent plugins registry :
  (forall n, JsMap.get n (commands registry) = None ->
     JsMap.get n (commands (fold_left unregisterPlugin plugins registry))
     = None) /\
  (forall n, JsMap.get n (agentPlugins registry) = None ->
     JsMap.get n (agentPlugins (fold_left unregisterPlugin plugins registry))
     = None) /\
  (forall n, JsMap.get n (skills registry) = None ->
     JsMap.get n (skills (fold_left unregisterPlugin plugins registry))
     = None) /\
  (forall n, JsMap.get n (mcpServers registry) = None ->
     JsMap.get n (mcpServers (fold_left unregisterPlugin plugins registry))
     = None).
Proof.
  revert registry. induction plugins as [|p plugins IH]; simpl; intros registry.
  - repeat split; auto.
  - destruct (IH (unregisterPlugin registry p)) as (Hc & Ha & Hs & Hm).
    destruct (unregisterPlugin_keeps_absent registry p) as (Hc' & Ha' & Hs' & Hm').
    repeat split; auto.
Qed.

(** After the plugins of a list were unregistered, none of their names is
    in a table. *)
Lemma fold_unregisterPlugin_names plugins registry :
  namesOnce registry ->
  let registry' := fold_left unregisterPlugin plugins registry in
  (forall c, In (PCommand c) plugins ->
             JsMap.get (CommandPlugin.name c) (commands registry') = None) /\
  (forall a, In (PAgent a) plugins ->
             JsMap.get (AgentPlugin.id a) (agentPlugins registry') = None) /\
  (forall k, In (PSkill k) plugins ->
             JsMap.get (SkillPlugin.name k) (skills registry') = None) /\
  (forall m, In (PMcpServer m) plugins ->
             JsMap.get (MCPServerPlugin.id m) (mcpServers registry') = None).
Proof.
  revert registry. induction plugins as [|p plugins IH]; simpl;
    intros registry Hn.
  - repeat split; intros ? [].
  - pose proof (unregisterPlugin_namesOnce p Hn) as Hn'.
    destruct (IH _ Hn') as (Hc & Ha & Hs & Hm).
    destruct (fold_unregisterPlugin_keeps_absent plugins
                (unregisterPlugin registry p)) as (Kc & Ka & Ks & Km).
    destruct Hn as (_ & Nc & Na & Ns & Nm).
    repeat split.
    + intros c [->|Hin]; [|now apply Hc].
      apply Kc. simpl. now apply get_delete_same.
    + intros a [->|Hin]; [|now apply Ha].
      apply Ka. simpl. now apply get_delete_same.
    + intros k [->|Hin]; [|now apply Hs].
      apply Ks. simpl. now apply get_delete_same.
    + intros m [->|Hin]; [|now apply Hm].
      apply Km. simpl. now apply get_delete_same.
Qed.

Local Abbreviation hooksAt event table :=
  (match JsMap.get event table with Some l => l | None => [] end).

Lemma unregisterPlugin_hooks_shrink registry (p : Plugin W) event x :
  In x (hooksAt event (hooks (unregisterPlugin registry p))) ->
  In x (hooksAt event (hooks registry)).
Proof.
  destruct p as [c|a|h|k|m]; simpl; auto.
  rewrite unregisterHook_at.
  destruct (existsb (keqb event) (hookEvents h)); [|auto].
  intros Hin. now apply filter_In in Hin.
Qed.

Lemma fold_unregisterPlugin_hooks_shrink plugins registry event x :
  In x (hooksAt event (hooks (fold_left unregisterPlugin plugins registry))) ->
  In x (hooksAt event (hooks registry)).
Proof.
  revert registry. induction plugins as [|p plugins IH]; simpl; auto.
  intros registry Hin. eapply unregisterPlugin_hooks_shrink, IH, Hin.
Qed.

Lemma fold_unregisterPlugin_hooks plugins registry (h : HookPlugin W) event x :
  In (PHook h) plugins -> In event (hookEvents h) ->
  In x (getHooks event (fold_left unregisterPlugin plugins registry)) ->
  hookRef x <> hookRef h.
Proof.
  unfold getHooks. revert registry.
  induction plugins as [|p plugins IH]; simpl; [intros ? []|].
  intros registry [->|Hin] Hev Hx; [|eapply IH; eassumption].
  apply fold_unregisterPlugin_hooks_shrink in Hx. simpl in Hx.
  rewrite unregisterHook_at in Hx.
  replace (existsb (keqb event) (hookEvents h)) with true in Hx.
  - apply filter_In in Hx as [_ Hx].
    apply negb_true_iff, Nat.eqb_neq in Hx. exact Hx.
  - symmetry. apply existsb_exists. exists event. split; [exact Hev|].
    apply keqb_refl.
Qed.

End PluginLookupFacts.

Section LastPluginFacts.
Context {W : Type}.
Implicit Types (registry : PluginRegistry W) (plugins : list (Plugin W)).

(** The last element of a list that satisfies [test], when one does. *)
Lemma last_such {A} (test : A -> bool) (l : list A) (x : A) :
  In x l -> test x = true ->
  exists before y after,
    l = before ++ y :: after /\ test y = true /\
    forall z, In z after -> test z = false.
Proof.
  revert x. induction l as [|a l IH]; [intros x []|]. intros x Hin Hx.
  destruct (existsb test l) eqn:Hlater.
  - apply existsb_exists in Hlater as (z & Hz & Htz).
    destruct (IH z Hz Htz) as (before & y & after & -> & Hy & Hafter).
    now exists (a :: before), y, after.
  - assert (Hnone : forall z, In z l -> test z = false).
    { intros z Hz. destruct (test z) eqn:Htz; [|reflexivity].
      assert (existsb test l = true)
        by (apply existsb_exists; now exists z).
      congruence. }
    destruct Hin as [->|Hin]; [|rewrite (Hnone x Hin) in Hx; discriminate].
    now exists [], x, l.
Qed.

Ltac keep_table IH :=
  intros registry Hnone; simpl; rewrite IH;
  [|intros x Hx; apply Hnone; now right].

Lemma fold_registerPlugin_command_keep plugins registry (n : string) :
  (forall c, In (PCommand c) plugins -> CommandPlugin.name c <> n) ->
  JsMap.get n (commands (fold_left registerPlugin plugins registry))
  = JsMap.get n (commands registry).
Proof.
  revert registry. induction plugins as [|p plugins IH];
    [reflexivity|]. keep_table IH.
  destruct p as [c| | | |]; simpl; try reflexivity.
  apply get_set_other. intros ->. now apply (Hnone c (or_introl eq_refl)).
Qed.

Lemma fold_registerPlugin_agent_keep plugins registry (n : string) :
  (forall a, In (PAgent a) plugins -> AgentPlugin.id a <> n) ->
  JsMap.get n (agentPlugins (fold_left registerPlugin plugins registry))
  = JsMap.get n (agentPlugins registry).
Proof.
  revert registry. induction plugins as [|p plugins IH];
    [reflexivity|]. keep_table IH.
  destruct p as [|a| | |]; simpl; try reflexivity.
  apply get_set_other. intros ->. now apply (Hnone a (or_introl eq_refl)).
Qed.

Lemma fold_registerPlugin_skill_keep plugins registry (n : string) :
  (forall k, In (PSkill k) plugins -> SkillPlugin.name k <> n) ->
  JsMap.get n (skills (fold_left registerPlugin plugins registry))
  = JsMap.get n (skills registry).
Proof.
  revert registry. induction plugins as [|p plugins IH];
    [reflexivity|]. keep_table IH.
  destruct p as [| | |k|]; simpl; try reflexivity.
  apply get_set_other. intros ->. now apply (Hnone k (or_introl eq_refl)).
Qed.

Lemma fold_registerPlugin_server_keep plugins registry (n : string) :
  (forall m, In (PMcpServer m) plugins -> MCPServerPlugin.id m <> n) ->
  JsMap.get n (mcpServers (fold_left registerPlugin plugins registry))
  = JsMap.get n (mcpServers registry).
Proof.
  revert registry. induction plugins as [|p plugins IH];
    [reflexivity|]. keep_table IH.
  destruct p as [| | | |m]; simpl; try reflexivity.
  apply get_set_other. intros ->. now apply (Hnone m (or_introl eq_refl)).
Qed.

End LastPluginFacts.

(** X17. [register] accepts a package exactly when its id is not registered
    yet (otherwise it throws [Plugin <id> is already registered]). After a
    successful [register] the package is stored enabled under its id, other
    packages are untouched, and for every command, agent, skill and MCP
    server of the package the getter finds, under that name or id, the last
    plugin of that kind in the package's list that carries it: no plugin
    behind it in the list has the same kind and name. *)
Theorem register_makes_the_package_available {W}
  (registry : PluginRegistry W) (manifest : PluginManifest.t)
  (plugins : list (Plugin W)) :
  (JsMap.has (PluginManifest.id manifest) (packages registry) = true ->
   registerPackage manifest plugins registry
   = inl (ErrorObj ("Plugin " ++ PluginManifest.id manifest
                    ++ " is already registered")%string)) /\
  (JsMap.has (PluginManifest.id manifest) (packages registry) = false ->
   exists registry',
     registerPackage manifest plugins registry = inr registry' /\
     JsMap.get (PluginManifest.id manifest) (packages registry')
     = Some (mkRegistered manifest plugins true) /\
     (forall other, other <> PluginManifest.id manifest ->
        JsMap.get other (packages registry')
        = JsMap.get other (packages registry)) /\
     (forall c, In (PCommand c) plugins ->
        exists before c' after,
          plugins = before ++ PCommand c' :: after /\
          CommandPlugin.name c' = CommandPlugin.name c /\
          (forall later, In (PCommand later) after ->
             CommandPlugin.name later <> CommandPlugin.name c) /\
          getCommand (CommandPlugin.name c) registry' = Some c') /\
     (forall a, In (PAgent a) plugins ->
        exists before a' after,
          plugins = before ++ PAgent a' :: after /\
          AgentPlugin.id a' = AgentPlugin.id a /\
          (forall later, In (PAgent later) after ->
             AgentPlugin.id later <> AgentPlugin.id a) /\
          getAgent (AgentPlugin.id a) registry' = Some a') /\
     (forall k, In (PSkill k) plugins ->
        exists before k' after,
          plugins = before ++ PSkill k' :: after /\
          SkillPlugin.name k' = SkillPlugin.name k /\
          (forall later, In (PSkill later) after ->
             SkillPlugin.name later <> SkillPlugin.name k) /\
          getSkill (SkillPlugin.name k) registry' = Some k') /\
     (forall m, In (PMcpServer m) plugins ->
        exists before m' after,
          plugins = before ++ PMcpServer m' :: after /\
          MCPServerPlugin.id m' = MCPServerPlugin.id m /\
          (forall later, In (PMcpServer later) after ->
             MCPServerPlugin.id later <> MCPServerPlugin.id m) /\
          getMCPServer (MCPServerPlugin.id m) registry' = Some m')).
Proof.
  unfold registerPackage. split; intros Hhas; rewrite Hhas; [reflexivity|].
  eexists. split; [reflexivity|].
  rewrite fold_registerPlugin_packages. simpl.
  split; [apply get_set_same|].
  split; [intros other Hother; now apply get_set_other|].
  unfold getCommand, getAgent, getSkill, getMCPServer.
  split; [|split; [|split]].
  - intros c Hin.
    destruct (@last_such _
                (fun p : Plugin W =>
                   match p with
                   | PCommand x =>
                       String.eqb (CommandPlugin.name x) (CommandPlugin.name c)
                   | _ => false
                   end) _ _ Hin (String.eqb_refl _))
      as (before & [c'| | | |] & after & -> & Hy & Hafter); try discriminate.
    apply String.eqb_eq in Hy.
    assert (Hlater : forall later, In (PCommand later) after ->
              CommandPlugin.name later <> CommandPlugin.name c).
    { intros later Hl. specialize (Hafter _ Hl). simpl in Hafter.
      now apply String.eqb_neq in Hafter. }
    exists before, c', after. repeat split; try assumption.
    rewrite fold_left_app. simpl.
    rewrite fold_registerPlugin_command_keep by exact Hlater.
    simpl. rewrite <- Hy. apply get_set_same.
  - intros a Hin.
    destruct (@last_such _
                (fun p : Plugin W =>
                   match p with
                   | PAgent x =>
                       String.eqb (AgentPlugin.id x) (AgentPlugin.id a)
                   | _ => false
                   end) _ _ Hin (String.eqb_refl _))
      as (before & [|a'| | |] & after & -> & Hy & Hafter); try discriminate.
    apply String.eqb_eq in Hy.
    assert (Hlater : forall later, In (PAgent later) after ->
              AgentPlugin.id later <> AgentPlugin.id a).
    { intros later Hl. specialize (Hafter _ Hl). simpl in Hafter.
      now apply String.eqb_neq in Hafter. }
    exists before, a', after. repeat split; try assumption.
    rewrite fold_left_app. simpl.
    rewrite fold_registerPlugin_agent_keep by exact Hlater.
    simpl. rewrite <- Hy. apply get_set_same.
  - intros k Hin.
    destruct (@last_such _
                (fun p : Plugin W =>
                   match p with
                   | PSkill x =>
                       String.eqb (SkillPlugin.name x) (SkillPlugin.name k)
                   | _ => false
                   end) _ _ Hin (String.eqb_refl _))
      as (before & [| | |k'|] & after & -> & Hy & Hafter); try discriminate.
    apply String.eqb_eq in Hy.
    assert (Hlater : forall later, In (PSkill later) after ->
              SkillPlugin.name later <> SkillPlugin.name k).
    { intros later Hl. specialize (Hafter _ Hl). simpl in Hafter.
      now apply String.eqb_neq in Hafter. }
    exists before, k', after. repeat split; try assumption.
    rewrite fold_left_app. simpl.
    rewrite fold_registerPlugin_skill_keep by exact Hlater.
    simpl. rewrite <- Hy. apply get_set_same.
  - intros m Hin.
    destruct (@last_such _
                (fun p : Plugin W =>
                   match p with
                   | PMcpServer x =>
                       String.eqb (MCPServerPlugin.id x) (MCPServerPlugin.id m)
                   | _ => false
                   end) _ _ Hin (String.eqb_refl _))
      as (before & [| | | |m'] & after & -> & Hy & Hafter); try discriminate.
    apply String.eqb_eq in Hy.
    assert (Hlater : forall later, In (PMcpServer later) after ->
              MCPServerPlugin.id later <> MCPServerPlugin.id m).
    { intros later Hl. specialize (Hafter _ Hl). simpl in Hafter.
      now apply String.eqb_neq in Hafter. }
    exists before, m', after. repeat split; try assumption.
    rewrite fold_left_app. simpl.
    rewrite fold_registerPlugin_server_keep by exact Hlater.
    simpl. rewrite <- Hy. apply get_set_same.
Qed.

Lemma register_makes_the_package_available_witness :
  registerPackage (exampleManifest "first") examplePlugins exampleRegistry
  = inl (ErrorObj "Plugin first is already registered") /\
  exists registry' : PluginRegistry unit,
    registerPackage (exampleManifest "twice")
      [PCommand (CommandPlugin.mk 10 "deploy" "old");
       PCommand (CommandPlugin.mk 11 "deploy" "new")]
      emptyPluginRegistry = inr registry' /\
    getCommand "deploy" registry' = Some (CommandPlugin.mk 11 "deploy" "new").
Proof.
  split.
  - apply (@register_makes_the_package_available unit exampleRegistry
             (exampleManifest "first") examplePlugins). reflexivity.
  - destruct (@register_makes_the_package_available unit emptyPluginRegistry
                (exampleManifest "twice")
                [PCommand (CommandPlugin.mk 10 "deploy" "old");
                 PCommand (CommandPlugin.mk 11 "deploy" "new")]) as [_ H].
    destruct (H eq_refl) as (registry' & Hreg & _ & _ & Hc & _).
    exists registry'. split; [exact Hreg|].
    destruct (Hc (CommandPlugin.mk 10 "deploy" "old") (or_introl eq_refl))
      as (before & c' & after & Hsplit & Hname & Hlater & Hget).
    simpl in Hget. rewrite Hget. f_equal.
    destruct before as [|p0 [|p1 [|p2 before]]]; simpl in Hsplit.
    + injection Hsplit as <- <-. exfalso.
      apply (Hlater (CommandPlugin.mk 11 "deploy" "new")); [now left|].
      reflexivity.
    + now injection Hsplit as _ <- _.
    + discriminate Hsplit.
    + discriminate Hsplit.
Defined.

(** X18. In any state of the registry, [unregister] of a registered package
    returns [true], and afterwards the package is gone, no getter finds a
    command, agent, skill or MCP server under a name or id that one of the
    package's plugins has (whichever package registered it last), and for
    each hook of the package no event of the hook still lists it. For an
    unknown id [unregister] returns [false] and changes nothing. *)
Theorem unregister_forgets_the_package {W} (registry : PluginRegistry W)
  (pluginId : string) :
  reachable registry ->
  match JsMap.get pluginId (packages registry) with
  | None => unregisterPackage pluginId registry = (false, registry)
  | Some pkg =>
      exists registry',
        unregisterPackage pluginId registry = (true, registry') /\
        JsMap.get pluginId (packages registry') = None /\
        (forall c, In (PCommand c) (plugins pkg) ->
           getCommand (CommandPlugin.name c) registry' = None) /\
        (forall a, In (PAgent a) (plugins pkg) ->
           getAgent (AgentPlugin.id a) registry' = None) /\
        (forall k, In (PSkill k) (plugins pkg) ->
           getSkill (SkillPlugin.name k) registry' = None) /\
        (forall m, In (PMcpServer m) (plugins pkg) ->
           getMCPServer (MCPServerPlugin.id m) registry' = None) /\
        (forall h event x,
           In (PHook h) (plugins pkg) -> In event (hookEvents h) ->
           In x (getHooks event registry') -> hookRef x <> hookRef h)
  end.
Proof.
  intros Hr. apply reachable_invariant in Hr as [_ Hn].
  unfold unregisterPackage.
  destruct (JsMap.get pluginId (packages registry)) as [pkg|] eqn:Hpkg;
    [|reflexivity].
  eexists. split; [reflexivity|].
  destruct (fold_unregisterPlugin_names (plugins pkg) Hn) as (Hc & Ha & Hs & Hm).
  simpl. split.
  - rewrite fold_unregisterPlugin_packages. apply get_delete_same, Hn.
  - unfold getCommand, getAgent, getSkill, getMCPServer. simpl.
    repeat split; auto.
    intros h event x Hin Hev Hx.
    eapply fold_unregisterPlugin_hooks; eassumption.
Qed.

Lemma unregister_forgets_the_package_witness :
  exists registry',
    unregisterPackage "first" exampleRegistry = (true, registry') /\
    getCommand "deploy" registry' = None /\
    getHooks task_created registry' = [].
Proof.
  pose proof (@unregister_forgets_the_package unit exampleRegistry "first"
                exampleRegistry_reachable) as H.
  simpl in H. destruct H as (registry' & Hun & _ & Hc & _).
  exists registry'. split; [exact Hun|]. split.
  - apply (Hc (CommandPlugin.mk 4 "deploy" "")). simpl. tauto.
  - injection Hun as <-. reflexivity.
Defined.

(** Unregistering a package takes the names of its plugins away from
    whoever holds them: after a second package has registered a command
    ["deploy"] of its own, unregistering the first package removes that
    command although the second package is still registered. *)
Example unregister_removes_a_name_of_another_package :
  exists second both,
    registerPackage (exampleManifest "second")
      [PCommand (CommandPlugin.mk 9 "deploy" "mine")] exampleRegistry
    = inr second /\
    getCommand "deploy" second = Some (CommandPlugin.mk 9 "deploy" "mine") /\
    unregisterPackage "first" second = (true, both) /\
    JsMap.has "second" (packages both) = true /\
    getCommand "deploy" both = None.
Proof.
  eexists. eexists. split; [reflexivity|]. split; [reflexivity|].
  split; [reflexivity|]. split; reflexivity.
Qed.

(** ** The MCP client *)

Section McpFacts.
Import MCPClient.
Variable fetch : McpRequest.t -> FetchOutcome.

Lemma built_keys_NoDup client : built client -> NoDup (JsMap.keys (servers client)).
Proof.
  induction 1 as [token|server client Hb IH]; simpl; [constructor|].
  now apply keys_set_NoDup.
Qed.

Lemma toolsOf_truthy server : truthy (toolsOf fetch server) = true.
Proof.
  unfold toolsOf, toolsTry.
  destruct (fetch _) as [e|response]; [reflexivity|].
  destruct (Response.json response) as [e|data]; [reflexivity|].
  destruct (getProp data "tools") as [e|tools]; [reflexivity|].
  now destruct (truthy tools) eqn:E.
Qed.

Lemma fill_tools_get (entries : list (string * MCPServer.t))
  (tools : PlainObject) (key : string) :
  NoDup (map fst entries) ->
  fold_left
    (fun tools entry => assign (fst entry) (toolsOf fetch (snd entry)) tools)
    entries tools key
  = if String.eqb key "__proto__" then tools key
    else match JsMap.get key entries with
         | Some server => Some (toolsOf fetch server)
         | None => tools key
         end.
Proof.
  revert tools. induction entries as [|[k v] entries IH]; simpl;
    intros tools Hnd; [now destruct (String.eqb key "__proto__")|].
  apply NoDup_cons_iff in Hnd as [Hk Hnd]. rewrite IH by exact Hnd.
  unfold assign.
  destruct (String.eqb_spec key "__proto__") as [Hproto|Hproto].
  - destruct (String.eqb_spec k "__proto__") as [Hk'|Hk']; [reflexivity|].
    destruct (String.eqb_spec key k); [congruence | reflexivity].
  - destruct (String.eqb_spec key k) as [Heq|Hne].
    + subst k. replace (JsMap.get key entries) with (@None MCPServer.t).
      * destruct (String.eqb_spec key "__proto__"); [contradiction|].
        now rewrite String.eqb_refl.
      * symmetry. now apply get_None_keys.
    + destruct (JsMap.get key entries); [reflexivity|].
      destruct (String.eqb k "__proto__"); [reflexivity|].
      destruct (String.eqb_spec key k); [contradiction | reflexivity].
Qed.

End McpFacts.

(** X19. [MCPClient.executeAction] never rejects: whatever the network does
    it resolves to a response. For a [serverId] that is not registered (or
    missing) no request is sent and the response is the failure
    [MCP server not found: <serverId>]; for a registered server exactly one
    request goes to [<url>/execute]. The response reports success exactly
    when the server is registered, the request was answered with an ok
    status and the body was parsed; it then carries the body and no
    error. *)
Theorem executeAction_always_answers (fetch : McpRequest.t -> FetchOutcome)
  (client : MCPClient.t) (action : MCPAction.t) :
  exists reply,
    snd (MCPClient.executeAction fetch client action) = inr reply /\
    (MCPClient.serverOf client action = None ->
     fst (MCPClient.executeAction fetch client action) = [] /\
     reply = McpReply.mk false None
               (JString ("MCP server not found: "
                         ++ MCPClient.serverIdText action)%string)) /\
    (forall server,
       MCPClient.serverOf client action = Some server ->
       fst (MCPClient.executeAction fetch client action)
       = [McpRequest.Post (MCPServer.url server ++ "/execute")%string
            (MCPClient.authorizationHeader client) (MCPAction.name action)
            (MCPAction.parameters action)]) /\
    (McpReply.success reply = true <->
     exists server response body,
       MCPClient.serverOf client action = Some server /\
       fetch (MCPClient.executeRequest client server action) = inr response /\
       Response.ok response = true /\
       Response.json response = inr body /\
       reply = McpReply.mk true (Some body) JUndefined).
Proof.
  unfold MCPClient.executeAction.
  destruct (MCPClient.serverOf client action) as [server|] eqn:Hserver; simpl.
  - unfold MCPClient.executeActionTry.
    destruct (fetch (MCPClient.executeRequest client server action))
      as [e|response] eqn:Hfetch.
    + eexists. split; [reflexivity|]. split; [discriminate|].
      split; [now intros ? [= <-]|]. split; [discriminate|].
      intros (server' & response & body & [= <-] & Hf & _). congruence.
    + destruct (Response.json response) as [e|body] eqn:Hjson.
      * eexists. split; [reflexivity|]. split; [discriminate|].
        split; [now intros ? [= <-]|]. split; [discriminate|].
        intros (server' & response' & body & [= <-] & Hf & _ & Hj & _).
        congruence.
      * destruct (Response.ok response) eqn:Hok.
        -- eexists. split; [reflexivity|]. split; [discriminate|].
           split; [now intros ? [= <-]|]. split; [|reflexivity].
           intros _. exists server, response, body. auto.
        -- destruct (getProp body "error") as [e|error];
             (eexists; split; [reflexivity|]; split; [discriminate|];
              split; [now intros ? [= <-]|]; split; [discriminate|]);
             intros (server' & response' & body' & [= <-] & Hf & Hok' & _);
             congruence.
  - eexists. split; [reflexivity|]. split; [auto|].
    split; [discriminate|]. split; [discriminate|].
    intros (server & _ & _ & [=] & _).
Qed.

(** A response that reports failure need not say why: a server that answers
    with an error status and a body without [error] gives [success: false]
    with [error] undefined. *)
Example executeAction_failure_without_error :
  let client :=
    MCPClient.registerServer
      (MCPServer.mk "files" "Files" "http://files" None None)
      (MCPClient.mk JsMap.empty (Some "")) in
  MCPClient.executeAction
    (fun _ => inr (Response.mk false (inr "") (inr (JObject []))))
    client (MCPAction.mk (Some "files") "read" [])
  = ([McpRequest.Post "http://files/execute" None "read" []],
     inr (McpReply.mk false (Some (JObject [])) JUndefined)).
Proof. reflexivity. Qed.

(** X20. For a client built with [new MCPClient] and [registerServer], the
    object that [getAvailableTools] returns has an own entry for exactly the
    registered server ids other than [__proto__] (a plain object gets no own
    property under that key). The entry of a server is determined by the
    answer to that server's own [<url>/tools] request, so a server that fails
    does not affect the others, and it is never a falsy value: it is [[]]
    when the request or the parsing fails or the body has no truthy
    [tools]. *)
Theorem getAvailableTools_answers_per_server
  (fetch : McpRequest.t -> FetchOutcome) (client : MCPClient.t) (id : string) :
  MCPClient.built client ->
  MCPClient.getAvailableTools fetch client "__proto__" = None /\
  (id <> "__proto__" ->
   match JsMap.get id (MCPClient.servers client) with
   | None => MCPClient.getAvailableTools fetch client id = None
   | Some server =>
       exists tools,
         MCPClient.getAvailableTools fetch client id = Some tools /\
         truthy tools = true /\
         tools = match MCPClient.toolsTry fetch server with
                 | inr found => found
                 | inl _ => JArray []
                 end /\
         forall fetch',
           fetch' (McpRequest.Get (MCPServer.url server ++ "/tools")%string)
           = fetch (McpRequest.Get (MCPServer.url server ++ "/tools")%string) ->
           MCPClient.getAvailableTools fetch' client id = Some tools
   end).
Proof.
  intros Hb. apply built_keys_NoDup in Hb.
  unfold MCPClient.getAvailableTools, JsMap.entries.
  split; [now rewrite fill_tools_get by exact Hb|].
  intros Hid. rewrite fill_tools_get by exact Hb.
  destruct (String.eqb_spec id "__proto__") as [|_]; [contradiction|].
  destruct (JsMap.get id (MCPClient.servers client)) as [server|] eqn:Hs;
    [|reflexivity].
  exists (MCPClient.toolsOf fetch server). split; [reflexivity|].
  split; [apply toolsOf_truthy|]. split; [reflexivity|].
  intros fetch' Hsame. rewrite fill_tools_get by exact Hb.
  destruct (String.eqb_spec id "__proto__") as [|_]; [contradiction|].
  rewrite Hs. unfold MCPClient.toolsOf, MCPClient.toolsTry. now rewrite Hsame.
Qed.

Lemma getAvailableTools_answers_per_server_witness :
  let client :=
    MCPClient.registerServer
      (MCPServer.mk "__proto__" "Odd" "http://search" None None)
      (MCPClient.registerServer
         (MCPServer.mk "search" "Search" "http://search" None None)
         (MCPClient.registerServer
            (MCPServer.mk "files" "Files" "http://files" None None)
            (MCPClient.mk JsMap.empty None))) in
  let fetch := fun request =>
    match request with
    | McpRequest.Get "http://search/tools" =>
        inr (Response.mk true (inr "")
               (inr (JObject [("tools", JArray [JString "find"])])))
    | _ => inl (ErrorObj "connection refused")
    end in
  MCPClient.getAvailableTools fetch client "search"
  = Some (JArray [JString "find"]) /\
  MCPClient.getAvailableTools fetch client "files" = Some (JArray []) /\
  MCPClient.getAvailableTools fetch client "__proto__" = None.
Proof.
  intros client fetch.
  pose proof (@getAvailableTools_answers_per_server fetch client "search"
                ltac:(repeat constructor)) as [Hproto H].
  specialize (H ltac:(discriminate)).
  simpl in H. destruct H as (tools & Hget & _ & -> & _).
  split; [exact Hget|]. split; [reflexivity | exact Hproto].
Defined.

(** ** The registration API of a plugin context *)

Lemma callApi_registers {W} (call : ApiCall W) (registry : PluginRegistry W) :
  exists manifest plugins,
    PluginManifest.id manifest = dynamicId call /\
    callApi call registry = registerPackage manifest plugins registry.
Proof.
  destruct call; simpl;
    unfold registerCommand, registerAgent, registerHookAt, registerSkill,
      registerMCPServer;
    eexists; eexists; (split; [|reflexivity]); reflexivity.
Qed.

(** A package stays registered as long as it is not unregistered. *)
Lemma laterKeeping_has {W} (kept : string)
  (registry later : PluginRegistry W) :
  JsMap.has kept (packages registry) = true ->
  laterKeeping kept registry later ->
  JsMap.has kept (packages later) = true.
Proof.
  intros Hhas Hlater.
  induction Hlater as [|current manifest plugins next Hl IH Hreg
                       |current pluginId Hl IH Hne
                       |current pluginId flag Hl IH].
  - exact Hhas.
  - unfold registerPackage in Hreg.
    destruct (JsMap.has (PluginManifest.id manifest) (packages current))
      eqn:Hknown; [discriminate|]. injection Hreg as <-.
    rewrite fold_registerPlugin_packages. simpl. unfold JsMap.has in *.
    destruct (String.eqb_spec kept (PluginManifest.id manifest)) as [->|Hother].
    + now rewrite get_set_same.
    + now rewrite get_set_other.
  - unfold unregisterPackage.
    destruct (JsMap.get pluginId (packages current)) as [pkg|]; simpl;
      [|exact IH].
    rewrite fold_unregisterPlugin_packages. unfold JsMap.has in *.
    now rewrite get_delete_other by congruence.
  - unfold setEnabled.
    destruct (JsMap.get pluginId (packages current)) as [pkg|] eqn:Hpkg;
      simpl; [|exact IH].
    unfold JsMap.has in *.
    destruct (String.eqb_spec kept pluginId) as [->|Hother].
    + now rewrite get_set_same.
    + now rewrite get_set_other.
Qed.

(** X21. The packages that the API of a plugin context registers share one
    id space, [dynamic-<name or id>], over commands, agents, skills and MCP
    servers (and [dynamic-hook-<Date.now()>] for hooks). Once a call has
    succeeded, every later call that arrives at the same package id throws
    [Plugin <id> is already registered], whatever kind of plugin it brings
    and whatever was registered, unregistered, enabled or disabled in
    between, as long as the package of the first call was not unregistered:
    a skill cannot be registered under the name of a dynamically registered
    command, nor two hooks in the same millisecond. After [unregister] of
    that package (in a registry used through its methods) the call is
    accepted again. *)
Theorem dynamic_registrations_share_one_id_space {W}
  (first second : ApiCall W) (registry registry' : PluginRegistry W) :
  callApi first registry = inr registry' ->
  dynamicId second = dynamicId first ->
  (forall later,
     laterKeeping (dynamicId first) registry' later ->
     callApi second later
     = inl (ErrorObj ("Plugin " ++ dynamicId first
                      ++ " is already registered")%string)) /\
  (forall later,
     reachable later ->
     exists accepted,
       callApi second (snd (unregisterPackage (dynamicId first) later))
       = inr accepted).
Proof.
  intros Hfirst Hsame.
  destruct (callApi_registers first registry) as (m1 & ps1 & Hid1 & Hcall1).
  rewrite Hcall1 in Hfirst. unfold registerPackage in Hfirst.
  destruct (JsMap.has _ _); [discriminate|]. injection Hfirst as <-.
  split.
  - intros later Hlater.
    assert (Hhas : JsMap.has (dynamicId first) (packages later) = true).
    { eapply laterKeeping_has; [|exact Hlater].
      rewrite fold_registerPlugin_packages. simpl. unfold JsMap.has.
      now rewrite <- Hid1, get_set_same. }
    destruct (callApi_registers second later) as (m2 & ps2 & Hid2 & ->).
    unfold registerPackage. now rewrite Hid2, Hsame, Hhas.
  - intros later Hr. apply reachable_invariant in Hr as [_ Hn].
    destruct (callApi_registers second
                (snd (unregisterPackage (dynamicId first) later)))
      as (m2 & ps2 & Hid2 & ->).
    unfold registerPackage. rewrite Hid2, Hsame.
    replace (JsMap.has (dynamicId first)
               (packages (snd (unregisterPackage (dynamicId first) later))))
      with false; [eexists; reflexivity|].
    symmetry. unfold unregisterPackage, JsMap.has.
    destruct (JsMap.get (dynamicId first) (packages later)) as [pkg|] eqn:Hpkg;
      simpl.
    + rewrite fold_unregisterPlugin_packages.
      now rewrite get_delete_same by apply Hn.
    + now rewrite Hpkg.
Qed.

Lemma dynamic_registrations_share_one_id_space_witness :
  exists registry',
    registerCommand (CommandPlugin.mk 7 "build" "") exampleRegistry
    = inr registry' /\
    registerSkill (SkillPlugin.mk 8 "build" "" None)
      (snd (setEnabled "dynamic-build" false
              (snd (unregisterPackage "first" registry'))))
    = inl (ErrorObj "Plugin dynamic-build is already registered").
Proof.
  eexists. split; [reflexivity|].
  destruct (@dynamic_registrations_share_one_id_space unit
              (CallRegisterCommand (CommandPlugin.mk 7 "build" ""))
              (CallRegisterSkill (SkillPlugin.mk 8 "build" "" None))
              exampleRegistry _ eq_refl eq_refl) as [Hlater _].
  apply (Hlater
           (snd (setEnabled "dynamic-build" false
                   (snd (unregisterPackage "first" _))))).
  apply later_setEnabled. apply later_unregister; [apply later_now|].
  discriminate.
Defined.

(** ** The subagent configuration loader *)

Section ConfigFacts.
Import ConfigLoader.

Lemma validateConfig_acceptable (config : JsValue) :
  validateConfig config = true <-> acceptable config.
Proof.
  unfold validateConfig, acceptable. split.
  - destruct config as [| |b|n|s|items|fields]; unfold propOr, getProp;
      simpl; rewrite ?orb_true_r; try discriminate.
    destruct (JsMap.get "id" fields) as [[| |?|?|id|?|?]|] eqn:Hid; simpl;
      try discriminate.
    destruct (String.eqb_spec id ""); simpl; [discriminate|].
    destruct (JsMap.get "name" fields) as [[| |?|?|name|?|?]|] eqn:Hname;
      simpl; try discriminate.
    destruct (String.eqb_spec name ""); simpl; [discriminate|].
    destruct (JsMap.get "description" fields)
      as [[| |?|?|description|?|?]|] eqn:Hd; simpl; try discriminate.
    destruct (JsMap.get "systemPrompt" fields)
      as [[| |?|?|prompt|?|?]|] eqn:Hp; simpl; try discriminate.
    destruct (JsMap.get "capabilities" fields)
      as [[| |?|?|?|items|?]|] eqn:Hc; simpl; try discriminate.
    intros _. exists fields, id, name, description, prompt, items.
    repeat split; try reflexivity; assumption.
  - intros (fields & id & name & description & prompt & items & -> & Hid
            & Hid' & Hname & Hname' & Hd & Hp & Hc).
    simpl. unfold propOr, getProp. rewrite Hid, Hname, Hd, Hp, Hc. simpl.
    destruct (String.eqb_spec id ""); [contradiction|].
    destruct (String.eqb_spec name ""); [contradiction|]. reflexivity.
Qed.

End ConfigFacts.

(** X22. [loadSubagentConfigs] never rejects. When the agents directory
    ([options.agentsDir || '.gemini/agents']) cannot be read, it returns
    nothing and writes one debug line. Otherwise it goes through the entries
    whose name ends in [.json], [.yaml] or [.yml], in directory order, and
    each contributes on its own, with [path] the entry joined to the
    directory: a file that cannot be read gives a warning with the error and
    no configuration; a file whose path ends in [.json] gives its parsed
    content when that is an object with a non-empty string [id] and [name],
    a string [description] and [systemPrompt] and an array [capabilities]
    (whose elements are not checked), nothing when it is not, and a warning
    with the error when it does not parse; any other file (the YAML ones)
    gives the warning that YAML is not supported and no configuration. The
    result lists the configurations, and the console the warnings, in that
    order. *)
Theorem loadSubagentConfigs_loads_the_valid_json_files
  (readdir : string -> Thrown + list string)
  (readFile : string -> Thrown + string)
  (parse : string -> Thrown + JsValue)
  (join : string -> string -> string)
  (agentsDir : option string) :
  let dir :=
    match agentsDir with
    | Some d => if String.eqb d "" then ".gemini/agents" else d
    | None => ".gemini/agents"
    end in
  exists perFile : string -> list LogEntry * list JsValue,
    ConfigLoader.loadSubagentConfigs readdir readFile parse join agentsDir
    = match readdir dir with
      | inl _ =>
          ([Debugged ("Agents directory not found: " ++ dir)%string], [])
      | inr files =>
          (flat_map (fun file => fst (perFile file))
             (filter ConfigLoader.isConfigFile files),
           flat_map (fun file => snd (perFile file))
             (filter ConfigLoader.isConfigFile files))
      end /\
    (forall file,
       ConfigLoader.isConfigFile file = true <->
       endsWith file ".json" = true \/ endsWith file ".yaml" = true \/
       endsWith file ".yml" = true) /\
    (forall file,
       match readFile (join dir file) with
       | inl e =>
           perFile file
           = ([Warned ("Failed to load subagent config: " ++ file)%string
                      (Some e)], [])
       | inr content =>
           if endsWith (join dir file) ".json"
           then match parse content with
                | inl e =>
                    perFile file
                    = ([Warned
                          ("Failed to load subagent config: " ++ file)%string
                          (Some e)], [])
                | inr config =>
                    (ConfigLoader.acceptable config ->
                     perFile file = ([], [config])) /\
                    (~ ConfigLoader.acceptable config ->
                     perFile file = ([], []))
                end
           else perFile file
                = ([Warned ("YAML config files not yet supported: "
                            ++ join dir file)%string None], [])
       end).
Proof.
  intros dir.
  exists (fun file =>
            ConfigLoader.loadOne readFile parse join dir ([], []) file).
  split; [|split].
  - unfold ConfigLoader.loadSubagentConfigs.
    fold dir. unfold ConfigLoader.DEFAULT_AGENTS_DIR. fold dir.
    destruct (readdir dir) as [e|files]; [reflexivity|].
    generalize (filter ConfigLoader.isConfigFile files) as l. intros l.
    assert (Hgen : forall log configs,
              fold_left (ConfigLoader.loadOne readFile parse join dir) l
                (log, configs)
              = (log ++ flat_map
                          (fun file =>
                             fst (ConfigLoader.loadOne readFile parse join dir
                                    ([], []) file)) l,
                 configs ++ flat_map
                          (fun file =>
                             snd (ConfigLoader.loadOne readFile parse join dir
                                    ([], []) file)) l)).
    { induction l as [|file l IH]; intros log configs; simpl.
      - now rewrite !app_nil_r.
      - destruct (ConfigLoader.loadConfigFile readFile parse (join dir file))
          as [said [e|config]]; simpl.
        + rewrite IH. simpl. now rewrite <- !app_assoc.
        + destruct (truthy config && ConfigLoader.validateConfig config)%bool;
            rewrite IH; simpl; now rewrite <- ?app_assoc. }
    exact (Hgen [] []).
  - intros file. unfold ConfigLoader.isConfigFile.
    rewrite !orb_true_iff. tauto.
  - intros file. unfold ConfigLoader.loadOne, ConfigLoader.loadConfigFile.
    destruct (readFile (join dir file)) as [e|content]; [reflexivity|].
    destruct (endsWith (join dir file) ".json"); [|reflexivity].
    destruct (parse content) as [e|config]; [reflexivity|].
    simpl. split.
    + intros Hok. apply validateConfig_acceptable in Hok. rewrite Hok.
      unfold ConfigLoader.validateConfig in Hok.
      destruct (truthy config); [reflexivity | discriminate].
    + intros Hno.
      destruct (ConfigLoader.validateConfig config) eqn:Hv.
      * apply validateConfig_acceptable in Hv. contradiction.
      * now rewrite andb_false_r.
Qed.

(** A directory with a JSON file, a YAML file, a broken JSON file and a
    text file gives the configuration of the first only; the YAML file and
    the broken file are reported, the text file is not looked at. *)
Example loadSubagentConfigs_skips_yaml_and_broken_files :
  let good :=
    JObject [("id", JString "reviewer"); ("name", JString "Reviewer");
             ("description", JString ""); ("systemPrompt", JString "");
             ("capabilities", JArray [JNumber 1])] in
  ConfigLoader.loadSubagentConfigs
    (fun _ => inr ["reviewer.json"; "writer.yaml"; "broken.json"; "notes.txt"])
    (fun path => inr path)
    (fun content =>
       if String.eqb content ".gemini/agents/reviewer.json" then inr good
       else inl (ErrorObj "Unexpected token"))
    (fun dir file => (dir ++ "/" ++ file)%string)
    None
  = ([Warned "YAML config files not yet supported: .gemini/agents/writer.yaml"
             None;
      Warned "Failed to load subagent config: broken.json"
             (Some (ErrorObj "Unexpected token"))],
     [good]).
Proof. reflexivity. Qed.

(** ** Streaming execution *)

Lemma set_same {K V} `{KeyEq K} (k : K) (v : V) (m : JsMap.t K V) :
  JsMap.get k m = Some v -> JsMap.set k v m = m.
Proof.
  induction m as [|[k' v'] m IH]; simpl; [discriminate|].
  destruct (keqb_spec k k') as [->|Hne].
  - now intros [= ->].
  - intros Hget. now rewrite IH.
Qed.

Section StreamFacts.
Context {W : Type}.
Variable parse : string -> Thrown + JsValue.
Implicit Types (s : Sys W).
Import SparkStream.

Lemma streamEvent_quiet s (taskId event : string) (stored : Task.t) :
  quiet (eventHandlers s) ->
  JsMap.get taskId (tasks s) = Some stored ->
  exists s',
    streamEvent parse taskId event s
    = Returned (eventResult parse taskId event) s' /\
    envOf s' = envOf s /\
    tasks s' = JsMap.set taskId (afterEvent parse stored event) (tasks s).
Proof.
  intros Hq Hget.
  unfold streamEvent, eventResult, afterEvent, tryCatch, bind,
    SparkAgentClient.await, throw, ret.
  destruct (parse event) as [e|data].
  - exists s. split; [reflexivity|]. split; [reflexivity|].
    symmetry. now apply set_same.
  - change (TaskManager.update taskId (lastEventProgress data) s)
      with (TaskManager.apply (TaskManager.Update (lastEventProgress data))
              taskId s).
    destruct (@apply_quiet _ (TaskManager.Update (lastEventProgress data))
                taskId s Hq) as (r & s1 & Hrun & Henv & Ht).
    rewrite Hrun. rewrite Hget in Ht. simpl in Ht.
    exists s1.
    destruct data; simpl; (split; [reflexivity|]); split; assumption.
Qed.

Lemma streamEvents_quiet (events : list string) s (taskId : string)
  (stored : Task.t) :
  quiet (eventHandlers s) ->
  JsMap.get taskId (tasks s) = Some stored ->
  exists s',
    streamEvents parse taskId events s
    = Returned (flat_map (eventResult parse taskId) events) s' /\
    envOf s' = envOf s /\
    tasks s' = JsMap.set taskId (afterEvents parse stored events) (tasks s).
Proof.
  revert s stored. induction events as [|event events IH]; simpl;
    intros s stored Hq Hget.
  - exists s. split; [reflexivity|]. split; [reflexivity|].
    symmetry. now apply set_same.
  - unfold bind.
    destruct (@streamEvent_quiet s taskId event stored Hq Hget)
      as (s1 & -> & Henv1 & Ht1).
    assert (Hq1 : quiet (eventHandlers s1)) by exact (quiet_envOf Henv1 Hq).
    assert (Hget1 : JsMap.get taskId (tasks s1)
                    = Some (afterEvent parse stored event))
      by (rewrite Ht1; apply get_set_same).
    destruct (IH s1 _ Hq1 Hget1) as (s2 & -> & Henv2 & Ht2).
    exists s2. split; [reflexivity|]. split; [congruence|].
    rewrite Ht2, Ht1. apply set_set.
Qed.

Lemma streamChunks_quiet (chunks : list string) s (taskId : string)
  (stored : Task.t) :
  quiet (eventHandlers s) ->
  JsMap.get taskId (tasks s) = Some stored ->
  exists s',
    streamChunks parse taskId chunks s
    = Returned (flat_map (eventResult parse taskId)
                  (flat_map eventsOf chunks)) s' /\
    envOf s' = envOf s /\
    tasks s' = JsMap.set taskId
                 (afterEvents parse stored (flat_map eventsOf chunks))
                 (tasks s).
Proof.
  revert s stored. induction chunks as [|chunk chunks IH]; simpl;
    intros s stored Hq Hget.
  - exists s. split; [reflexivity|]. split; [reflexivity|].
    symmetry. now apply set_same.
  - unfold bind.
    destruct (@streamEvents_quiet (eventsOf chunk) s taskId stored Hq Hget)
      as (s1 & -> & Henv1 & Ht1).
    assert (Hq1 : quiet (eventHandlers s1)) by exact (quiet_envOf Henv1 Hq).
    assert (Hget1 : JsMap.get taskId (tasks s1)
                    = Some (afterEvents parse stored (eventsOf chunk)))
      by (rewrite Ht1; apply get_set_same).
    destruct (IH s1 _ Hq1 Hget1) as (s2 & -> & Henv2 & Ht2).
    exists s2. split; [now rewrite flat_map_app|]. split; [congruence|].
    rewrite Ht2, Ht1, set_set. unfold afterEvents.
    now rewrite fold_left_app.
Qed.

(** The events leave everything of the tracking task but its metadata. *)
Lemma afterEvents_fields (events : list string) (stored : Task.t) :
  let task := afterEvents parse stored events in
  Task.id task = Task.id stored /\ Task.name task = Task.name stored /\
  Task.status task = Task.status stored /\
  Task.error task = Task.error stored /\
  Task.result task = Task.result stored.
Proof.
  revert stored. unfold afterEvents.
  induction events as [|event events IH]; simpl; intros stored; [auto|].
  destruct (IH (afterEvent parse stored event)) as (-> & -> & -> & -> & ->).
  unfold afterEvent. destruct (parse event); auto.
Qed.

End StreamFacts.

Lemma afterEvents_metadata (parse : string -> Thrown + JsValue)
  (events : list string) (task : Task.t) (fallback : JsValue)
  (found : option JsValue) :
  Task.metadata task
  = match found with
    | Some data => JObject [("lastEvent", data)]
    | None => fallback
    end ->
  Task.metadata (SparkStream.afterEvents parse task events)
  = match fold_left
            (fun found event =>
               match parse event with
               | inr data => Some data
               | inl _ => found
               end) events found with
    | Some data => JObject [("lastEvent", data)]
    | None => fallback
    end.
Proof.
  revert task found. unfold SparkStream.afterEvents.
  induction events as [|event events IH]; simpl; intros task found Hm;
    [exact Hm|].
  apply IH. unfold SparkStream.afterEvent.
  destruct (parse event) as [e|data]; [exact Hm | reflexivity].
Qed.

(** X23. [executeStream], consumed to its end while the subscribed handlers
    observe and do not throw (they neither call the task manager nor change
    the task they are given), creates one tracking task and yields, in the
    order of the stream, one successful result for every event line that
    [JSON.parse] accepts and whose data is not [null]; lines that do not
    parse are skipped. If the request fails, is answered with an error status or
    without a body, or reading the stream fails, one failure result follows
    the results yielded so far, with the message of the exception or
    [Stream error], and the tracking task ends [failed] with that message;
    otherwise it ends [completed]. Each event that parses replaces the
    metadata of the tracking task by [{ lastEvent: data }]; the call
    touches no other task. *)
Theorem executeStream_follows_the_stream {W}
  (parse : string -> Thrown + JsValue) (s : Sys W)
  (task : SubagentTask.t) (answer : Thrown + StreamResponse.t) :
  quiet (eventHandlers s) ->
  let id := Oracle.uuid_at (oracle s) (uuidCount s) in
  let events := SparkStream.streamedEvents answer in
  exists s' tracked,
    SparkStream.executeStream parse task answer s
    = Returned
        (flat_map (SparkStream.eventResult parse id) events
         ++ match SparkStream.streamFailure answer with
            | Some e =>
                [SparkStream.failureResult id (messageOr "Stream error" e)]
            | None => []
            end) s' /\
    tasks s' = JsMap.set id tracked (tasks s) /\
    Task.id tracked = id /\
    Task.name tracked = ("Spark: " ++ SubagentTask.name task)%string /\
    Task.status tracked
    = match SparkStream.streamFailure answer with
      | Some _ => failed
      | None => completed
      end /\
    Task.error tracked
    = option_map (messageOr "Stream error") (SparkStream.streamFailure answer)
    /\
    Task.metadata tracked
    = match lastParsed parse events with
      | Some data => JObject [("lastEvent", data)]
      | None => JObject [("subagentId", JString "spark-agent");
                         ("streaming", JBool true)]
      end.
Proof.
  intros Hq id events.
  unfold SparkStream.executeStream, bind.
  destruct (create_quiet (SparkStream.streamingInit task) Hq)
    as (s1 & -> & Hcore1).
  fold id in Hcore1. fold id.
  set (created :=
         TaskManager.created_task (SparkStream.streamingInit task) id (clock s))
    in *.
  apply core_fields in Hcore1
    as (Ht1 & Hh1 & _ & Hc1 & _). simpl in Ht1, Hh1, Hc1.
  assert (Hq1 : quiet (eventHandlers s1)) by now rewrite Hh1.
  assert (Hget1 : JsMap.get id (tasks s1) = Some created)
    by (rewrite Ht1; apply get_set_same).
  change (Task.id created) with id.
  destruct (mutator_quiet TaskManager.Start Hq1 Hget1)
    as (s2 & Hstart & Hcore2).
  simpl in Hstart. rewrite Hstart.
  apply core_fields in Hcore2 as (Ht2 & Hh2 & _). simpl in Ht2, Hh2.
  set (begun := TaskManager.started_task created (clock s1)) in *.
  assert (Hq2 : quiet (eventHandlers s2)) by now rewrite Hh2.
  assert (Hget2 : JsMap.get id (tasks s2) = Some begun)
    by (rewrite Ht2; apply get_set_same).
  assert (Hbase : tasks s2 = JsMap.set id begun (tasks s))
    by (rewrite Ht2, Ht1; apply set_set).
  assert (Hmeta : forall evs,
             Task.metadata (SparkStream.afterEvents parse begun evs)
             = match lastParsed parse evs with
               | Some data => JObject [("lastEvent", data)]
               | None => JObject [("subagentId", JString "spark-agent");
                                  ("streaming", JBool true)]
               end).
  { intros evs. unfold lastParsed.
    now apply afterEvents_metadata with (found := None). }
  assert (Hfail : forall (s3 : Sys W) evs e,
             quiet (eventHandlers s3) ->
             tasks s3 = JsMap.set id (SparkStream.afterEvents parse begun evs)
                          (tasks s) ->
             exists r s' tracked,
               TaskManager.error id (messageOr "Stream error" e) s3
               = Returned r s' /\
               tasks s' = JsMap.set id tracked (tasks s) /\
               Task.id tracked = id /\
               Task.name tracked
               = ("Spark: " ++ SubagentTask.name task)%string /\
               Task.status tracked = failed /\
               Task.error tracked = Some (messageOr "Stream error" e) /\
               Task.metadata tracked
               = Task.metadata (SparkStream.afterEvents parse begun evs)).
  { intros s3 evs e Hq3 Ht3.
    destruct (@apply_quiet _ (TaskManager.Error (messageOr "Stream error" e))
                id s3 Hq3) as (r & s4 & Hrun & _ & Ht4).
    simpl in Hrun. rewrite Ht3, get_set_same, set_set in Ht4.
    exists r, s4. eexists. split; [exact Hrun|]. split; [exact Ht4|].
    destruct (afterEvents_fields parse evs begun) as (Hi & Hn & _).
    simpl. rewrite Hi, Hn. repeat split. }
  unfold SparkStream.streamTry, SparkStream.streamFailure,
    SparkStream.streamedEvents in *. subst events.
  destruct answer as [e|[[] [[chunks ending]|]]]; simpl.
  - destruct (Hfail s2 [] e Hq2 Hbase)
      as (r & s' & tracked & -> & Ht & Hi & Hn & Hs & He & Hm).
    exists s', tracked. rewrite Hm, (Hmeta []). repeat split; assumption.
  - unfold bind.
    destruct (@streamChunks_quiet _ parse chunks s2 id begun Hq2 Hget2)
      as (s3 & -> & Henv3 & Ht3).
    assert (Hq3 : quiet (eventHandlers s3)) by exact (quiet_envOf Henv3 Hq2).
    rewrite Hbase, set_set in Ht3.
    destruct ending as [e|]; simpl.
    + destruct (Hfail s3 _ e Hq3 Ht3)
        as (r & s' & tracked & -> & Ht & Hi & Hn & Hs & He & Hm).
      exists s', tracked. rewrite Hm, Hmeta. repeat split; assumption.
    + unfold tryCatch, bind.
      destruct (@apply_quiet _ (TaskManager.Finish JUndefined) id s3 Hq3)
        as (r & s4 & Hrun & _ & Ht4).
      simpl in Hrun. rewrite Hrun. simpl.
      rewrite Ht3, get_set_same, set_set in Ht4.
      eexists. eexists. rewrite app_nil_r. split; [reflexivity|].
      split; [exact Ht4|].
      destruct (afterEvents_fields parse (flat_map eventsOf chunks) begun)
        as (Hi & Hn & _ & He & _).
      simpl. rewrite Hi, Hn, He, Hmeta. repeat split.
  - destruct (Hfail s2 [] (ErrorObj "Failed to start streaming") Hq2 Hbase)
      as (r & s' & tracked & Hrun & Ht & Hi & Hn & Hs & He & Hm).
    simpl in Hrun. rewrite Hrun.
    exists s', tracked. rewrite Hm, (Hmeta []). repeat split; assumption.
  - destruct (Hfail s2 [] (ErrorObj "Failed to start streaming") Hq2 Hbase)
      as (r & s' & tracked & Hrun & Ht & Hi & Hn & Hs & He & Hm).
    simpl in Hrun. rewrite Hrun.
    exists s', tracked. rewrite Hm, (Hmeta []). repeat split; assumption.
  - destruct (Hfail s2 [] (ErrorObj "Failed to start streaming") Hq2 Hbase)
      as (r & s' & tracked & Hrun & Ht & Hi & Hn & Hs & He & Hm).
    simpl in Hrun. rewrite Hrun.
    exists s', tracked. rewrite Hm, (Hmeta []). repeat split; assumption.
Qed.

Lemma executeStream_follows_the_stream_witness :
  exists s',
    SparkStream.executeStream exampleParse (workOn "Build" ["code"])
      (inr (StreamResponse.mk true
              (Some (exampleChunks, Some (ErrorObj "socket closed")))))
      (with_eventHandlers [recordingHandler] (emptySys [] demoOracle))
    = Returned
        [SparkStream.yieldedResult "task-0" (JString "hello") (JString "text");
         SparkStream.failureResult "task-0" "socket closed"] s'.
Proof.
  destruct (@executeStream_follows_the_stream _ exampleParse
              (with_eventHandlers [recordingHandler] (emptySys [] demoOracle))
              (workOn "Build" ["code"])
              (inr (StreamResponse.mk true
                      (Some (exampleChunks, Some (ErrorObj "socket closed"))))))
    as (s' & tracked & Hrun & _).
  - intros h event w [<-|[]]. reflexivity.
  - exists s'. exact Hrun.
Defined.

(** A subscriber that throws on [updated] events silences the stream: the
    exception is swallowed by the [catch] that skips malformed events, so an
    event that parses yields nothing, and the task still ends completed. *)
Example executeStream_handler_silences_the_results :
  exists s' tracked,
    SparkStream.executeStream exampleParse (workOn "Build" ["code"])
      (inr (StreamResponse.mk true (Some (exampleChunks, None))))
      (with_eventHandlers [updateHater] (emptySys [] demoOracle))
    = Returned [] s' /\
    JsMap.get "task-0" (tasks s') = Some tracked /\
    Task.status tracked = completed.
Proof.
  eexists. eexists. split; [vm_compute; reflexivity|].
  split; [vm_compute; reflexivity|]. reflexivity.
Qed.
